(** * bitcoin_safe_lib.gui.qt: signal bookkeeping and the spinning button

    A shallow embedding of [signal_tracker.py] and [spinning_button.py].

    Python objects live in a store and are named by reference; methods are
    computations in a small state-and-exception monad over that store.  The
    toolkit's signals are an interface ([SignalProtocol] in the source, a
    type class here) with one Qt-like implementation; timers follow a
    virtual clock counted in milliseconds. *)

From Stdlib Require Import ZArith String Ascii List Lia.
From stdpp Require Import base option list gmap strings.

Open Scope Z_scope.

(** ** Python values shared by both modules *)

(** Object identity. *)
Definition objid := nat.

(** The exception classes the code names or can meet.  All of them are
    subclasses of [Exception], which is what a failing connect, disconnect
    or attribute access raises. *)
Inductive PyException : Type :=
  | TypeError
  | ValueError
  | RuntimeError
  | AttributeError
  | IndexError
  | OtherException (name : string).

Definition is_TypeError (e : PyException) : bool :=
  match e with TypeError => true | _ => false end.

(** [except Exception] catches every class above. *)
Definition is_Exception (e : PyException) : bool := true.

(** A callable that can be connected to a signal.  The three bound methods
    are those of the spinning button of the store. *)
Inductive Handler : Type :=
  | H_enable_button
  | H_rotate_svg
  | H_on_clicked
  | H_callable (f : objid).

#[global] Instance Handler_eq_dec : EqDecision Handler.
Proof. solve_decision. Defined.

(** ** The signal interface *)

Module SignalProtocol.

(** [connect] and [disconnect] act on the signal's own state and either
    return ([None]) or raise ([Some e]); [disconnect] takes the optional
    slot of the source.  [receivers] are the handlers an [emit] runs. *)
Class Signal (S : Type) : Type := {
  connect : S -> Handler -> S * option PyException;
  disconnect : S -> option Handler -> S * option PyException;
  receivers : S -> list Handler
}.

End SignalProtocol.

(** A Qt-like signal: the list of its live connections, in connection
    order, and whether the wrapped toolkit object has been deleted, in
    which case every call on it raises [RuntimeError]. *)
Record QtSignal : Type := mkQtSignal {
  slots : list Handler;
  deleted : bool
}.

(** Remove the first occurrence of [h]. *)
Fixpoint remove_first (h : Handler) (l : list Handler) : list Handler :=
  match l with
  | [] => []
  | x :: r => if decide (x = h) then r else x :: remove_first h r
  end.

Definition qt_connect (s : QtSignal) (h : Handler) : QtSignal * option PyException :=
  if deleted s then (s, Some RuntimeError)
  else ({| slots := slots s ++ [h]; deleted := false |}, None).

(** [disconnect(slot)] raises [TypeError] when [slot] is not connected;
    [disconnect()] breaks one connection and raises [TypeError] once none
    remain. *)
Definition qt_disconnect (s : QtSignal) (slot : option Handler)
  : QtSignal * option PyException :=
  if deleted s then (s, Some RuntimeError)
  else match slot with
       | Some h =>
           if decide (h ∈ slots s)
           then ({| slots := remove_first h (slots s); deleted := false |}, None)
           else (s, Some TypeError)
       | None =>
           match slots s with
           | [] => (s, Some TypeError)
           | _ :: r => ({| slots := r; deleted := false |}, None)
           end
       end.

#[global] Instance QtSignal_Signal : SignalProtocol.Signal QtSignal := {|
  SignalProtocol.connect := qt_connect;
  SignalProtocol.disconnect := qt_disconnect;
  SignalProtocol.receivers := fun s => if deleted s then [] else slots s
|}.

(** ** Widget data *)

Record QSize : Type := mkQSize { width : Z; height : Z }.

(** An icon handle: the null icon, an icon supplied by the caller, or the
    spinner graphic rendered at a rotation angle into a pixmap of the given
    logical size (what [_spinner_icon] returns). *)
Inductive QIcon : Type :=
  | Icon_null
  | Icon_handle (id : objid)
  | Icon_spinner (angle : Z) (size : QSize).

(** A timer: its interval in milliseconds, the single-shot flag, whether it
    is running, the milliseconds left until it fires next, and the handlers
    connected to its [timeout] signal. *)
Record QTimer : Type := mkQTimer {
  interval : Z;
  singleShot : bool;
  isActive : bool;
  remaining : Z;
  timeout_receivers : list Handler
}.

Definition QTimer_new : QTimer :=
  {| interval := 0; singleShot := false; isActive := false; remaining := 0;
     timeout_receivers := [] |}.

Definition setInterval (msec : Z) (t : QTimer) : QTimer :=
  {| interval := msec; singleShot := singleShot t; isActive := isActive t;
     remaining := if isActive t then msec else remaining t;
     timeout_receivers := timeout_receivers t |}.

Definition setSingleShot (b : bool) (t : QTimer) : QTimer :=
  {| interval := interval t; singleShot := b; isActive := isActive t;
     remaining := remaining t; timeout_receivers := timeout_receivers t |}.

Definition timeout_connect (h : Handler) (t : QTimer) : QTimer :=
  {| interval := interval t; singleShot := singleShot t; isActive := isActive t;
     remaining := remaining t; timeout_receivers := timeout_receivers t ++ [h] |}.

(** [QTimer.start()]: (re)starts the timer with its current interval. *)
Definition QTimer_start (t : QTimer) : QTimer :=
  {| interval := interval t; singleShot := singleShot t; isActive := true;
     remaining := interval t; timeout_receivers := timeout_receivers t |}.

(** [QTimer.start(msec)]: sets the interval, then starts. *)
Definition QTimer_start_msec (msec : Z) (t : QTimer) : QTimer :=
  {| interval := msec; singleShot := singleShot t; isActive := true;
     remaining := msec; timeout_receivers := timeout_receivers t |}.

Definition QTimer_stop (t : QTimer) : QTimer :=
  {| interval := interval t; singleShot := singleShot t; isActive := false;
     remaining := remaining t; timeout_receivers := timeout_receivers t |}.

(** The attributes of a [SpinningButton], those inherited from the push
    button ([text], [enabled], [icon], [clicked_receivers]) included. *)
Record SpinningButton : Type := mkSpinningButton {
  text : string;
  enabled : bool;
  icon : QIcon;
  clicked_receivers : list Handler;
  disable_while_spinning : bool;
  svg_renderer : string;
  rotation_angle : Z;
  _icon_size : QSize;
  padding : Z;
  timeout : Z;
  enabled_icon : QIcon;
  _spinning : bool;
  _stop_signal : option objid;
  timer : QTimer;
  timeout_timer : QTimer
}.

(** The two notifications of the button. *)
Inductive Notification : Type :=
  | signal_started_spinning
  | signal_stopped_spinning.

#[global] Instance Notification_eq_dec : EqDecision Notification.
Proof. solve_decision. Defined.

(** ** The store *)

(** A call made on a signal object.  The store keeps the history of these
    calls, each with its result: [None] when it returned, the exception when
    it raised. *)
Inductive Call : Type :=
  | Call_connect (signal : objid) (h : Handler)
  | Call_disconnect (signal : objid) (slot : option Handler).

Definition CallRecord : Type := Call * option PyException.

(** A subscription record: [(signal, handler)]. *)
Definition Subscription : Type := objid * Handler.

(** A call returns a value, raises, or is still running when the fuel
    given to a loop runs out. *)
Inductive outcome (A : Type) : Type :=
  | Returned (a : A)
  | Raised (e : PyException)
  | OutOfFuel.

Arguments Returned {A} a.
Arguments Raised {A} e.
Arguments OutOfFuel {A}.

Section Store.

Context {S : Type}.

(** The store: the signal objects, the Python lists of subscription
    records (a reference that is not in the map denotes no list), the
    history of toolkit calls, the debug log, the button, and the
    notifications it has emitted, oldest first. *)
Record World : Type := mkWorld {
  signals : gmap objid S;
  lists : gmap objid (list Subscription);
  calls : list CallRecord;
  debug_log : list (objid * option Handler);
  button : SpinningButton;
  emitted : list Notification
}.

Definition set_signals (v : gmap objid S) (w : World) : World :=
  {| signals := v; lists := lists w; calls := calls w; debug_log := debug_log w;
     button := button w; emitted := emitted w |}.

Definition set_lists (v : gmap objid (list Subscription)) (w : World) : World :=
  {| signals := signals w; lists := v; calls := calls w; debug_log := debug_log w;
     button := button w; emitted := emitted w |}.

Definition set_calls (v : list CallRecord) (w : World) : World :=
  {| signals := signals w; lists := lists w; calls := v; debug_log := debug_log w;
     button := button w; emitted := emitted w |}.

Definition set_debug_log (v : list (objid * option Handler)) (w : World) : World :=
  {| signals := signals w; lists := lists w; calls := calls w; debug_log := v;
     button := button w; emitted := emitted w |}.

Definition set_button (v : SpinningButton) (w : World) : World :=
  {| signals := signals w; lists := lists w; calls := calls w; debug_log := debug_log w;
     button := v; emitted := emitted w |}.

Definition set_emitted (v : list Notification) (w : World) : World :=
  {| signals := signals w; lists := lists w; calls := calls w; debug_log := debug_log w;
     button := button w; emitted := v |}.

(** *** The monad *)

Definition Py (A : Type) : Type := World -> outcome A * World.

Definition ret {A} (a : A) : Py A := fun w => (Returned a, w).

Definition raise {A} (e : PyException) : Py A := fun w => (Raised e, w).

Definition out_of_fuel {A} : Py A := fun w => (OutOfFuel, w).

Definition bind {A B} (m : Py A) (k : A -> Py B) : Py B :=
  fun w =>
    match m w with
    | (Returned a, w') => k a w'
    | (Raised e, w') => (Raised e, w')
    | (OutOfFuel, w') => (OutOfFuel, w')
    end.

(** [try: body / except <classes>: handler]. *)
Definition try_except {A} (body : Py A) (catches : PyException -> bool)
    (handler : Py A) : Py A :=
  fun w =>
    match body w with
    | (Raised e, w') => if catches e then handler w' else (Raised e, w')
    | r => r
    end.

Definition get : Py World := fun w => (Returned w, w).

Definition modify (f : World -> World) : Py unit := fun w => (Returned tt, f w).

End Store.

Arguments World : clear implicits.
Arguments Py : clear implicits.

Notation "'let!' x ':=' m 'in' k" := (bind m (fun x => k))
  (at level 10, x name, m at level 100, k at level 200).
Notation "m ;; k" := (bind m (fun _ => k))
  (at level 100, k at level 200, right associativity).

(** ** Calls on objects of the store *)

Section Toolkit.

Context {S : Type} `{!SignalProtocol.Signal S}.

(** [signal.connect(handler)].  An object that is not in the signal map
    is not signal-like and has no [connect] attribute.  The call and what
    came of it are added to the history. *)
Definition call_connect (signal : objid) (handler : Handler) : Py S unit :=
  fun w =>
    match signals w !! signal with
    | None =>
        (Raised AttributeError,
         set_calls (calls w ++ [(Call_connect signal handler, Some AttributeError)]) w)
    | Some s =>
        let r := SignalProtocol.connect s handler in
        let w' := set_calls (calls w ++ [(Call_connect signal handler, r.2)])
                    (set_signals (<[signal := r.1]> (signals w)) w) in
        match r.2 with
        | None => (Returned tt, w')
        | Some e => (Raised e, w')
        end
    end.

(** [signal.disconnect(slot)], [signal.disconnect()] for [None]. *)
Definition call_disconnect (signal : objid) (slot : option Handler) : Py S unit :=
  fun w =>
    match signals w !! signal with
    | None =>
        (Raised AttributeError,
         set_calls (calls w ++ [(Call_disconnect signal slot, Some AttributeError)]) w)
    | Some s =>
        let r := SignalProtocol.disconnect s slot in
        let w' := set_calls (calls w ++ [(Call_disconnect signal slot, r.2)])
                    (set_signals (<[signal := r.1]> (signals w)) w) in
        match r.2 with
        | None => (Returned tt, w')
        | Some e => (Raised e, w')
        end
    end.

(** [logger.debug("Could not disconnect ... from ...")]. *)
Definition logger_debug (signal : objid) (handler : option Handler) : Py S unit :=
  modify (fun w => set_debug_log (debug_log w ++ [(signal, handler)]) w).

(** The items of the Python list behind a reference. *)
Definition list_items (w : World S) (l : objid) : list Subscription :=
  default [] (lists w !! l).

Definition list_read (l : objid) : Py S (list Subscription) :=
  fun w => (Returned (list_items w l), w).

(** [l.append(x)]. *)
Definition list_append (l : objid) (x : Subscription) : Py S unit :=
  fun w => (Returned tt, set_lists (<[l := list_items w l ++ [x]]> (lists w)) w).

(** [l.pop()]: removes and returns the last item; [IndexError] on an
    empty list. *)
Definition list_pop (l : objid) : Py S Subscription :=
  fun w =>
    match reverse (list_items w l) with
    | [] => (Raised IndexError, w)
    | x :: r => (Returned x, set_lists (<[l := reverse r]> (lists w)) w)
    end.

(** [l = []]: a new list object. *)
Definition list_new : Py S objid :=
  fun w =>
    let l := fresh (dom (lists w)) in
    (Returned l, set_lists (<[l := []]> (lists w)) w).

End Toolkit.

(** ** signal_tracker.py *)

(** What [getattr(owner, name)] does: raise, or return an object. *)
Inductive Attribute : Type :=
  | Attr_raises (e : PyException)
  | Attr_object (o : objid).

Module SignalTools.
Section Defs.

Context {S : Type} `{!SignalProtocol.Signal S}.

(** [isinstance(sig, SignalProtocol)]: the runtime check of the protocol,
    true of the objects of the signal map. *)
Definition isinstance_SignalProtocol (o : objid) : Py S bool :=
  fun w => (Returned (bool_decide (is_Some (signals w !! o))), w).

(** The local function of [disconnect_all_signals_from]:
    [while True: try: signal.disconnect() / except TypeError: break]. *)
Fixpoint _safe_disconnect (fuel : nat) (signal : objid) : Py S unit :=
  match fuel with
  | O => out_of_fuel
  | Datatypes.S fuel' =>
      let! broke :=
        try_except (call_disconnect signal None ;; ret false)
                   is_TypeError (ret true) in
      if broke : bool then ret tt else _safe_disconnect fuel' signal
  end.

(** [disconnect_all_signals_from]: the [for name in dir(...)] loop.  The
    argument lists the owner's attribute names in [dir] order, each with
    what [getattr] does for it; [fuel] bounds each [_safe_disconnect]. *)
Fixpoint disconnect_all_signals_from (fuel : nat)
    (object_with_bound_signals : list (string * Attribute)) : Py S unit :=
  match object_with_bound_signals with
  | [] => ret tt
  | (name, a) :: rest =>
      if String.eqb name "destroyed"%string then
        disconnect_all_signals_from fuel rest
      else
        match a with
        | Attr_raises e =>
            if is_Exception e then disconnect_all_signals_from fuel rest
            else raise e
        | Attr_object sig =>
            let! is_signal := isinstance_SignalProtocol sig in
            if is_signal : bool then
              _safe_disconnect fuel sig ;;
              disconnect_all_signals_from fuel rest
            else disconnect_all_signals_from fuel rest
        end
  end.

Definition connect_signal (signal : objid) (handler : Handler)
  : Py S Subscription :=
  call_connect signal handler ;;
  ret (signal, handler).

Definition connect_signal_and_append (connected : objid) (signal : objid)
    (handler : Handler) : Py S unit :=
  call_connect signal handler ;;
  let erased_sig := signal in
  list_append connected (erased_sig, handler).

Definition disconnect_signal (signal : objid) (handler : option Handler)
  : Py S unit :=
  try_except (call_disconnect signal handler)
             is_Exception (logger_debug signal handler).

(** [while connected: sig, handler = connected.pop(); ...]. *)
Fixpoint disconnect_signals (fuel : nat) (connected : objid) : Py S unit :=
  match fuel with
  | O => out_of_fuel
  | Datatypes.S fuel' =>
      let! items := list_read connected in
      match items with
      | [] => ret tt
      | _ :: _ =>
          let! rec := list_pop connected in
          disconnect_signal rec.1 (Some rec.2) ;;
          disconnect_signals fuel' connected
      end
  end.

End Defs.
End SignalTools.

Module SignalTracker.
Section Defs.

Context {S : Type} `{!SignalProtocol.Signal S}.

(** The tracker holds a reference to its list of records. *)
Record t : Type := mk { _connected_signals : objid }.

(** [__init__]. *)
Definition init : Py S t :=
  let! l := list_new in
  ret {| _connected_signals := l |}.

Definition connect (self : t) (signal : objid) (handler : Handler) : Py S unit :=
  call_connect signal handler ;;
  let erased_sig := signal in
  let erased_handler := handler in
  list_append (_connected_signals self) (erased_sig, erased_handler).

Definition disconnect_all (fuel : nat) (self : t) : Py S unit :=
  SignalTools.disconnect_signals fuel (_connected_signals self).

End Defs.
End SignalTracker.

(** ** spinning_button.py *)

(** *** Resource paths *)

(** [os.path] of a POSIX system, whose separator is ["/"]. *)
Module os_path.

Definition startswith_sep (s : string) : bool :=
  match s with
  | String c _ => Ascii.eqb c "/"%char
  | EmptyString => false
  end.

Fixpoint endswith_sep (s : string) : bool :=
  match s with
  | EmptyString => false
  | String c EmptyString => Ascii.eqb c "/"%char
  | String _ rest => endswith_sep rest
  end.

(** [os.path.join(a, *p)]: a component that starts with the separator
    discards what precedes it; otherwise it is appended, after a separator
    unless the path so far is empty or ends with one. *)
Definition join (a : string) (p : list string) : string :=
  fold_left
    (λ path b,
       if startswith_sep b then b
       else if String.eqb path EmptyString || endswith_sep path then (path ++ b)%string
       else (path ++ "/" ++ b)%string)
    p a.

End os_path.

Section Resources.

(** The directory of the module's file:
    [os.path.split(os.path.realpath(__file__))[0]]. *)
Variable pkg_dir : string.

Definition resource_path (parts : list string) : string :=
  os_path.join pkg_dir parts.

Definition icon_path (icon_basename : string) : string :=
  resource_path ["icons"%string; icon_basename].

End Resources.

(** Field updates of the button record. *)
Definition with_enabled (v : bool) (b : SpinningButton) : SpinningButton :=
  mkSpinningButton (text b) v (icon b) (clicked_receivers b)
    (disable_while_spinning b) (svg_renderer b) (rotation_angle b) (_icon_size b)
    (padding b) (timeout b) (enabled_icon b) (_spinning b) (_stop_signal b)
    (timer b) (timeout_timer b).

Definition with_icon (v : QIcon) (b : SpinningButton) : SpinningButton :=
  mkSpinningButton (text b) (enabled b) v (clicked_receivers b)
    (disable_while_spinning b) (svg_renderer b) (rotation_angle b) (_icon_size b)
    (padding b) (timeout b) (enabled_icon b) (_spinning b) (_stop_signal b)
    (timer b) (timeout_timer b).

Definition with_rotation_angle (v : Z) (b : SpinningButton) : SpinningButton :=
  mkSpinningButton (text b) (enabled b) (icon b) (clicked_receivers b)
    (disable_while_spinning b) (svg_renderer b) v (_icon_size b)
    (padding b) (timeout b) (enabled_icon b) (_spinning b) (_stop_signal b)
    (timer b) (timeout_timer b).

Definition with__icon_size (v : QSize) (b : SpinningButton) : SpinningButton :=
  mkSpinningButton (text b) (enabled b) (icon b) (clicked_receivers b)
    (disable_while_spinning b) (svg_renderer b) (rotation_angle b) v
    (padding b) (timeout b) (enabled_icon b) (_spinning b) (_stop_signal b)
    (timer b) (timeout_timer b).

Definition with__spinning (v : bool) (b : SpinningButton) : SpinningButton :=
  mkSpinningButton (text b) (enabled b) (icon b) (clicked_receivers b)
    (disable_while_spinning b) (svg_renderer b) (rotation_angle b) (_icon_size b)
    (padding b) (timeout b) (enabled_icon b) v (_stop_signal b)
    (timer b) (timeout_timer b).

Definition with__stop_signal (v : option objid) (b : SpinningButton) : SpinningButton :=
  mkSpinningButton (text b) (enabled b) (icon b) (clicked_receivers b)
    (disable_while_spinning b) (svg_renderer b) (rotation_angle b) (_icon_size b)
    (padding b) (timeout b) (enabled_icon b) (_spinning b) v
    (timer b) (timeout_timer b).

Definition with_timer (v : QTimer) (b : SpinningButton) : SpinningButton :=
  mkSpinningButton (text b) (enabled b) (icon b) (clicked_receivers b)
    (disable_while_spinning b) (svg_renderer b) (rotation_angle b) (_icon_size b)
    (padding b) (timeout b) (enabled_icon b) (_spinning b) (_stop_signal b)
    v (timeout_timer b).

Definition with_timeout_timer (v : QTimer) (b : SpinningButton) : SpinningButton :=
  mkSpinningButton (text b) (enabled b) (icon b) (clicked_receivers b)
    (disable_while_spinning b) (svg_renderer b) (rotation_angle b) (_icon_size b)
    (padding b) (timeout b) (enabled_icon b) (_spinning b) (_stop_signal b)
    (timer b) v.

(** What a caller may hand to [setIconSize]. *)
Inductive PyArg : Type :=
  | Arg_QSize (size : QSize)
  | Arg_other.

Module SpinningButton.
Section Defs.

Context {S : Type} `{!SignalProtocol.Signal S}.

(** The render collaborator and the base class are outside the source:
    whether an SVG text parses, the default spinner text, and the size
    hint of the underlying push button. *)
Variable svg_isValid : string -> bool.
Variable DEFAULT_SPINNER_SVG : string.
Variable QPushButton_sizeHint : SpinningButton -> QSize.

Definition DEFAULT_ENABLED_ICON : QIcon := Icon_null.

Definition self : Py S SpinningButton := fun w => (Returned (button w), w).

Definition update_self (f : SpinningButton -> SpinningButton) : Py S unit :=
  modify (fun w => set_button (f (button w)) w).

Definition when (c : bool) (m : Py S unit) : Py S unit :=
  if c then m else ret tt.

(** Inherited widget methods. *)
Definition isEnabled : Py S bool :=
  let! b := self in ret (enabled b).
Definition setEnabled (v : bool) : Py S unit := update_self (with_enabled v).
Definition setDisabled (v : bool) : Py S unit := update_self (with_enabled (negb v)).
Definition setIcon (i : QIcon) : Py S unit := update_self (with_icon i).
(** [update()] schedules a repaint and changes nothing of the model. *)
Definition update : Py S unit := ret tt.

Definition emit (n : Notification) : Py S unit :=
  modify (fun w => set_emitted (emitted w ++ [n]) w).

Definition iconSize : Py S QSize :=
  let! b := self in ret (_icon_size b).

(** The frame of the spinner at [angle], of the current icon size. *)
Definition _spinner_icon (angle : Z) : Py S QIcon :=
  let! size := iconSize in
  ret (Icon_spinner angle size).

Definition start_spin : Py S unit :=
  let! b := self in
  if _spinning b then
    when (negb (isActive (timer b)))
      (update_self (fun b => with_timer (QTimer_start (timer b)) b)) ;;
    let! b := self in
    when ((0 <? timeout b) && negb (isActive (timeout_timer b)))
      (update_self (fun b =>
         with_timeout_timer (QTimer_start_msec (timeout b * 1000) (timeout_timer b)) b)) ;;
    ret tt
  else
    update_self (with__spinning true) ;;
    update_self (with_rotation_angle 0) ;;
    (let! i := _spinner_icon 0 in setIcon i) ;;
    let! b := self in
    let! en := isEnabled in
    when (disable_while_spinning b && en) (setDisabled true) ;;
    let! b := self in
    when (negb (isActive (timer b)))
      (update_self (fun b => with_timer (QTimer_start (timer b)) b)) ;;
    let! b := self in
    when (0 <? timeout b)
      (update_self (fun b =>
         with_timeout_timer (QTimer_start_msec (timeout b * 1000) (timeout_timer b)) b)) ;;
    emit signal_started_spinning ;;
    update.

Definition enable_button : Py S unit :=
  let! b := self in
  when (isActive (timer b))
    (update_self (fun b => with_timer (QTimer_stop (timer b)) b)) ;;
  let! b := self in
  when (isActive (timeout_timer b))
    (update_self (fun b => with_timeout_timer (QTimer_stop (timeout_timer b)) b)) ;;
  let! b := self in
  let was_spinning := _spinning b in
  update_self (with__spinning false) ;;
  let! b := self in
  setIcon (enabled_icon b) ;;
  let! en := isEnabled in
  when (disable_while_spinning b && negb en) (setEnabled true) ;;
  when was_spinning (emit signal_stopped_spinning ;; update).

(** Best-effort disconnect: [except Exception: pass]. *)
Definition _disconnect_signal (signal : objid) (slot : Handler) : Py S unit :=
  try_except (call_disconnect signal (Some slot)) is_Exception (ret tt).

(** [if self._stop_signal:] tests a reference that is [None] or a signal
    object, and a signal object is true. *)
Definition set_enable_signal (signal_stop_spinning : option objid) : Py S unit :=
  let! b := self in
  match _stop_signal b with
  | Some old => _disconnect_signal old H_enable_button
  | None => ret tt
  end ;;
  update_self (with__stop_signal None) ;;
  match signal_stop_spinning with
  | None => ret tt
  | Some new =>
      update_self (with__stop_signal (Some new)) ;;
      _disconnect_signal new H_enable_button ;;
      try_except (call_connect new H_enable_button)
                 is_Exception (update_self (with__stop_signal None))
  end.

Definition on_clicked : Py S unit :=
  let! en := isEnabled in
  if negb en then ret tt else start_spin.

Definition rotate_svg : Py S unit :=
  let! b := self in
  if negb (_spinning b) then
    when (isActive (timer b))
      (update_self (fun b => with_timer (QTimer_stop (timer b)) b)) ;;
    ret tt
  else
    update_self (fun b => with_rotation_angle ((rotation_angle b + 10) mod 360) b) ;;
    let! b := self in
    let! i := _spinner_icon (rotation_angle b) in
    setIcon i.

Definition setIconSize (size : PyArg) : Py S unit :=
  match size with
  | Arg_other => raise TypeError
  | Arg_QSize sz => update_self (with__icon_size sz) ;; update
  end.

Definition sizeHint : Py S QSize :=
  let! b := self in
  let default_size_hint := QPushButton_sizeHint b in
  let total_width := width default_size_hint + width (_icon_size b) + 2 * padding b in
  let total_height := Z.max (height default_size_hint) (height (_icon_size b)) in
  ret (mkQSize total_width total_height).

(** The push button under construction, before [__init__] has assigned
    the attributes of the subclass. *)
Definition QPushButton_new (txt : string) : SpinningButton :=
  {| text := txt; enabled := true; icon := Icon_null; clicked_receivers := [];
     disable_while_spinning := false; svg_renderer := EmptyString;
     rotation_angle := 0; _icon_size := mkQSize 0 0; padding := 0; timeout := 0;
     enabled_icon := Icon_null; _spinning := false; _stop_signal := None;
     timer := QTimer_new; timeout_timer := QTimer_new |}.

(** [__init__]; [signal_stop_spinning] and [spinning_svg_content] are
    optional in the source, [timeout_] defaults to 60 there and
    [disable_while_spinning_] to [True]. *)
Definition init (txt : string) (signal_stop_spinning : option objid)
    (enabled_icon_ : QIcon) (spinning_svg_content : option string)
    (timeout_ : Z) (disable_while_spinning_ : bool) : Py S unit :=
  modify (set_button (QPushButton_new txt)) ;;
  let content :=
    match spinning_svg_content with
    | Some (String c r) => String c r
    | _ => DEFAULT_SPINNER_SVG
    end in
  update_self (fun b =>
    mkSpinningButton (text b) (enabled b) (icon b) (clicked_receivers b)
      disable_while_spinning_ content (rotation_angle b) (_icon_size b)
      (padding b) (timeout b) (enabled_icon b) (_spinning b) (_stop_signal b)
      (timer b) (timeout_timer b)) ;;
  if negb (svg_isValid content) then raise ValueError
  else
    update_self (fun b =>
      mkSpinningButton (text b) (enabled b) (icon b) (clicked_receivers b)
        (disable_while_spinning b) (svg_renderer b) 0 (mkQSize 18 18)
        3 timeout_ enabled_icon_ (_spinning b) (_stop_signal b)
        (timer b) (timeout_timer b)) ;;
    setIcon enabled_icon_ ;;
    update_self (with__spinning false) ;;
    update_self (with__stop_signal None) ;;
    update_self (with_timer (timeout_connect H_rotate_svg (setInterval 100 QTimer_new))) ;;
    update_self (with_timeout_timer
                   (timeout_connect H_enable_button (setSingleShot true QTimer_new))) ;;
    update_self (fun b =>
      mkSpinningButton (text b) (enabled b) (icon b) (clicked_receivers b ++ [H_on_clicked])
        (disable_while_spinning b) (svg_renderer b) (rotation_angle b) (_icon_size b)
        (padding b) (timeout b) (enabled_icon b) (_spinning b) (_stop_signal b)
        (timer b) (timeout_timer b)) ;;
    match signal_stop_spinning with
    | Some sig => set_enable_signal (Some sig)
    | None => ret tt
    end.

(** *** The event loop *)

(** Running a connected handler.  A callable that is not a method of the
    button acts outside the store. *)
Definition run_handler (h : Handler) : Py S unit :=
  match h with
  | H_enable_button => enable_button
  | H_rotate_svg => rotate_svg
  | H_on_clicked => on_clicked
  | H_callable _ => ret tt
  end.

Fixpoint run_handlers (hs : list Handler) : Py S unit :=
  match hs with
  | [] => ret tt
  | h :: r => run_handler h ;; run_handlers r
  end.

(** A signal of the store fires: the handlers connected at that moment
    run in connection order. *)
Definition fire (signal : objid) : Py S unit :=
  let! w := get in
  match signals w !! signal with
  | None => ret tt
  | Some s => run_handlers (SignalProtocol.receivers s)
  end.

(** The user clicks; a disabled widget receives no click. *)
Definition click : Py S unit :=
  let! b := self in
  if enabled b then run_handlers (clicked_receivers b) else ret tt.

(** One millisecond passes for a timer: whether it fires, and the timer
    afterwards.  A single-shot timer stops when it fires, a repeating one
    is rearmed with its interval. *)
Definition QTimer_advance (t : QTimer) : bool * QTimer :=
  if isActive t then
    if remaining t <=? 1 then
      (true,
       if singleShot t
       then mkQTimer (interval t) true false 0 (timeout_receivers t)
       else mkQTimer (interval t) false true (interval t) (timeout_receivers t))
    else
      (false,
       mkQTimer (interval t) (singleShot t) true (remaining t - 1) (timeout_receivers t))
  else (false, t).

Definition advance_timer : Py S unit :=
  let! b := self in
  let r := QTimer_advance (timer b) in
  update_self (with_timer r.2) ;;
  when r.1 (run_handlers (timeout_receivers (timer b))).

Definition advance_timeout_timer : Py S unit :=
  let! b := self in
  let r := QTimer_advance (timeout_timer b) in
  update_self (with_timeout_timer r.2) ;;
  when r.1 (run_handlers (timeout_receivers (timeout_timer b))).

(** One millisecond of virtual time.  When both timers are due in the same
    millisecond, [timeout_first] says which callback the loop runs first. *)
Definition elapse_ms (timeout_first : bool) : Py S unit :=
  if timeout_first then advance_timeout_timer ;; advance_timer
  else advance_timer ;; advance_timeout_timer.

Fixpoint elapse (timeout_first : bool) (ms : nat) : Py S unit :=
  match ms with
  | O => ret tt
  | Datatypes.S n => elapse_ms timeout_first ;; elapse timeout_first n
  end.

(** The operations of the button a client or the event loop can run. *)
Inductive Op : Type :=
  | Op_start_spin
  | Op_enable_button
  | Op_rotate_svg
  | Op_on_clicked
  | Op_click
  | Op_set_enable_signal (signal : option objid)
  | Op_setIconSize (size : PyArg)
  | Op_sizeHint
  | Op_fire (signal : objid)
  | Op_elapse_ms (timeout_first : bool).

Definition run_op (o : Op) : Py S unit :=
  match o with
  | Op_start_spin => start_spin
  | Op_enable_button => enable_button
  | Op_rotate_svg => rotate_svg
  | Op_on_clicked => on_clicked
  | Op_click => click
  | Op_set_enable_signal sig => set_enable_signal sig
  | Op_setIconSize sz => setIconSize sz
  | Op_sizeHint => sizeHint ;; ret tt
  | Op_fire sig => fire sig
  | Op_elapse_ms tf => elapse_ms tf
  end.

(** A sequence of operations; an exception raised by one of them (only
    [setIconSize] raises) is seen by its caller and the next one runs. *)
Fixpoint run_ops (os : list Op) : Py S unit :=
  match os with
  | [] => ret tt
  | o :: r => try_except (run_op o) is_Exception (ret tt) ;; run_ops r
  end.

(** [n] consecutive calls of a method. *)
Fixpoint repeat_call (n : nat) (m : Py S unit) : Py S unit :=
  match n with
  | O => ret tt
  | Datatypes.S k => m ;; repeat_call k m
  end.

End Defs.
End SpinningButton.

(** ** Vocabulary of the statements *)

Definition disconnect_call_of (rec : Subscription) : Call :=
  Call_disconnect rec.1 (Some rec.2).

(** The debug records owed to a stretch of the call history: one for each
    disconnect that raised. *)
Definition logged_failure (c : CallRecord) : option (objid * option Handler) :=
  match c with
  | (Call_disconnect signal slot, Some _) => Some (signal, slot)
  | _ => None
  end.

Definition logged_failures (trace : list CallRecord) : list (objid * option Handler) :=
  omap logged_failure trace.

(** The signal objects [disconnect_all_signals_from] works on: the values
    of the attributes other than ["destroyed"] whose access returns. *)
Fixpoint visited (attrs : list (string * Attribute)) : list objid :=
  match attrs with
  | [] => []
  | (name, a) :: rest =>
      if String.eqb name "destroyed"%string then visited rest
      else match a with
           | Attr_object o => o :: visited rest
           | Attr_raises _ => visited rest
           end
  end.

Definition no_connection : QtSignal := mkQtSignal [] false.

(** The signals of [os] that are in the store are live (not deleted) and
    have fewer connections than the fuel. *)
Definition live_within (fuel : nat) (os : list objid) (w : World QtSignal) : Prop :=
  ∀ o s, o ∈ os → signals w !! o = Some s →
         deleted s = false ∧ (length (slots s) < fuel)%nat.

(** Every record of [cs] is a [disconnect()] on a signal of [os]. *)
Definition noarg_disconnects_on (os : list objid) (cs : list CallRecord) : Prop :=
  Forall (λ c, ∃ o, o ∈ os ∧ c.1 = Call_disconnect o None) cs.

(** The history a terminating [_safe_disconnect] loop leaves on a signal
    with [n] connections: [n] calls that return and the one that raises
    the sentinel. *)
Definition safe_disconnect_trace (o : objid) (n : nat) : list CallRecord :=
  replicate n (Call_disconnect o None, None)
  ++ [(Call_disconnect o None, Some TypeError)].

(** ** Stores used as concrete inputs *)

Definition empty_store (sigs : gmap objid QtSignal) : World QtSignal :=
  {| signals := sigs; lists := ∅; calls := []; debug_log := [];
     button := SpinningButton.QPushButton_new EmptyString; emitted := [] |}.

(** Signal 1 is live with one foreign handler, signal 2 is deleted. *)
Definition two_signals : gmap objid QtSignal :=
  {[ 1%nat := mkQtSignal [H_callable 7%nat] false; 2%nat := mkQtSignal [] true ]}.

(** A tracker whose three records all sit on deleted signals. *)
Definition deleted_signals : gmap objid QtSignal :=
  {[ 1%nat := mkQtSignal [H_callable 7%nat] true; 2%nat := mkQtSignal [] true ]}.

Definition tracker_0 : SignalTracker.t := SignalTracker.mk 0%nat.

Definition store_all_failing : World QtSignal :=
  set_lists {[ 0%nat := [(1%nat, H_callable 7%nat); (2%nat, H_callable 8%nat);
                         (1%nat, H_callable 9%nat)] ]}
    (empty_store deleted_signals).

(** An owner with a live signal, the reserved [destroyed] signal, an
    attribute whose access raises and a plain attribute. *)
Definition live_owner : list (string * Attribute) :=
  [("clicked"%string, Attr_object 1%nat);
   ("destroyed"%string, Attr_object 3%nat);
   ("broken"%string, Attr_raises RuntimeError);
   ("objectName"%string, Attr_object 9%nat)].

Definition store_live_owner : World QtSignal :=
  empty_store {[ 1%nat := mkQtSignal [H_callable 7%nat; H_callable 8%nat] false;
                 3%nat := mkQtSignal [H_callable 5%nat] false ]}.

(** An owner whose signal wraps a deleted toolkit object. *)
Definition stale_owner : list (string * Attribute) :=
  [("finished"%string, Attr_object 2%nat)].

(** The render collaborator of the concrete inputs: every SVG text parses. *)
Definition svg_always_valid (content : string) : bool := true.
Definition spinner_svg : string := "<svg/>"%string.

(** A button built with [timeout = 0] and the defaults otherwise, then set
    spinning. *)
Definition store_spinning_no_timeout : World QtSignal :=
  ((SpinningButton.init svg_always_valid spinner_svg "go"%string None
      (Icon_handle 5%nat) None 0 true ;;
    SpinningButton.start_spin) (empty_store two_signals)).2.

(** A freshly built button (timeout 60, disabling while it spins) that its
    owner has disabled. *)
Definition store_idle_disabled : World QtSignal :=
  ((SpinningButton.init svg_always_valid spinner_svg "go"%string None
      (Icon_handle 5%nat) None 60 true ;;
    SpinningButton.setEnabled false) (empty_store two_signals)).2.

(** The calls that unbind what is bound. *)
Definition unbind_calls (bound : option objid) : list Call :=
  match bound with
  | Some old => [Call_disconnect old (Some H_enable_button)]
  | None => []
  end.

(** The rotation angle is a multiple of 10 within a turn. *)
Definition angle_ok (b : SpinningButton) : Prop :=
  rotation_angle b mod 10 = 0 ∧ 0 ≤ rotation_angle b < 360.

(** An operation other than [enable_button] itself and the firing of a
    signal of the store. *)
Definition quiet (o : SpinningButton.Op) : bool :=
  match o with
  | SpinningButton.Op_enable_button | SpinningButton.Op_fire _ => false
  | _ => true
  end.

(** A button that spins with no timeout: the timeout is not positive, the
    timeout timer is not running, and neither the click nor the animation
    timer is connected to [enable_button]. *)
Definition spins_without_timeout (b : SpinningButton) : Prop :=
  _spinning b = true ∧ timeout b ≤ 0 ∧ isActive (timeout_timer b) = false
  ∧ (H_enable_button ∉ timeout_receivers (timer b))
  ∧ (H_enable_button ∉ clicked_receivers b).

(** A button that spins with [left] milliseconds to go of a timeout of
    [T] seconds. *)
Definition spins_until (T left : Z) (b : SpinningButton) : Prop :=
  _spinning b = true
  ∧ timeout_timer b = mkQTimer (T * 1000) true true left [H_enable_button]
  ∧ timeout_receivers (timer b) = [H_rotate_svg].

(** The connections and settings [__init__] makes for a timeout of [T]
    seconds, which no operation changes: the timeout timer is single-shot
    and connected to [enable_button], the animation timer to [rotate_svg],
    the click to [on_clicked]; and without a positive timeout the timeout
    timer does not run. *)
Definition wired (T : Z) (b : SpinningButton) : Prop :=
  timeout b = T
  ∧ singleShot (timeout_timer b) = true
  ∧ timeout_receivers (timeout_timer b) = [H_enable_button]
  ∧ timeout_receivers (timer b) = [H_rotate_svg]
  ∧ clicked_receivers b = [H_on_clicked]
  ∧ (T ≤ 0 → isActive (timeout_timer b) = false).

(** An idle button with both timers stopped. *)
Definition idle_stopped (b : SpinningButton) : Prop :=
  _spinning b = false ∧ isActive (timer b) = false
  ∧ isActive (timeout_timer b) = false.

(** Signals 1 and 3 are live, signal 2 is deleted. *)
Definition three_signals : gmap objid QtSignal :=
  {[ 1%nat := mkQtSignal [H_callable 7%nat] false; 2%nat := mkQtSignal [] true;
     3%nat := mkQtSignal [] false ]}.

(** A button built with signal 1 as its stop signal, then set spinning. *)
Definition store_spinning_bound : World QtSignal :=
  ((SpinningButton.init svg_always_valid spinner_svg "go"%string (Some 1%nat)
      (Icon_handle 5%nat) None 60 true ;;
    SpinningButton.start_spin) (empty_store three_signals)).2.

(** A button built with a timeout of two seconds. *)
Definition build_two_seconds : Py QtSignal unit :=
  SpinningButton.init svg_always_valid spinner_svg "go"%string None
    (Icon_handle 5%nat) None 2 true.

(** A spin with two ticks, ended by [enable_button]. *)
Definition one_cycle : list SpinningButton.Op :=
  [SpinningButton.Op_start_spin; SpinningButton.Op_rotate_svg;
   SpinningButton.Op_rotate_svg; SpinningButton.Op_enable_button].

(** The size hint of the base class in the concrete inputs. *)
Definition base_hint (b : SpinningButton) : QSize := mkQSize 80 24.

(** A computation leaves the button as it is but for the recorded stop
    signal, and emits nothing. *)
Definition keeps_all_but_stop_signal {S A : Type} (m : Py S A) : Prop :=
  ∀ w, with__stop_signal None (button (m w).2) = with__stop_signal None (button w)
       ∧ emitted (m w).2 = emitted w.

(** The methods of the button other than [enable_button], called
    directly. *)
Definition other_method (o : SpinningButton.Op) : bool :=
  match o with
  | SpinningButton.Op_start_spin | SpinningButton.Op_rotate_svg
  | SpinningButton.Op_on_clicked | SpinningButton.Op_set_enable_signal _
  | SpinningButton.Op_setIconSize _ | SpinningButton.Op_sizeHint => true
  | _ => false
  end.

(** A computation keeps a property of the button. *)
Definition preserves {S A : Type} (P : SpinningButton → Prop) (m : Py S A) : Prop :=
  ∀ w, P (button w) → P (button (m w).2).

(** ** Vocabulary of the further properties *)

(** The connect call a request stands for. *)
Definition connect_call_of (rq : Subscription) : Call := Call_connect rq.1 rq.2.

(** The subscription a connect call that returned stands for. *)
Definition connected_of (c : CallRecord) : option Subscription :=
  match c with
  | (Call_connect signal h, None) => Some (signal, h)
  | _ => None
  end.

(** The requests of a stretch of the call history whose connect returned. *)
Definition recorded (trace : list CallRecord) : list Subscription :=
  omap connected_of trace.

(** A client that subscribes a batch through [connect_signal_and_append]
    and goes on to the next request when a connect raises. *)
Fixpoint connect_each {S : Type} `{!SignalProtocol.Signal S} (connected : objid)
    (reqs : list Subscription) : Py S unit :=
  match reqs with
  | [] => ret tt
  | rq :: rest =>
      try_except (SignalTools.connect_signal_and_append connected rq.1 rq.2)
                 is_Exception (ret tt) ;;
      connect_each connected rest
  end.

(** The handlers a list of records holds for the signal [o], oldest
    first. *)
Definition pending (o : objid) (items : list Subscription) : list Handler :=
  omap (λ rq : Subscription, if decide (rq.1 = o) then Some rq.2 else None) items.

(** A live signal object of the store. *)
Definition live (w : World QtSignal) (o : objid) : Prop :=
  ∃ s, signals w !! o = Some s ∧ deleted s = false.

(** [w'] has the signal objects of [w], each with the receivers it has in
    [w], in some order. *)
Definition same_receivers (w w' : World QtSignal) : Prop :=
  ∀ o, match signals w !! o, signals w' !! o with
       | Some s, Some s' => deleted s' = deleted s ∧ slots s' ≡ₚ slots s
       | None, None => True
       | _, _ => False
       end.

(** While the records [items] (of the requests [all]) are connected: each
    signal has the receivers it has in [w] and the handlers of [items]
    besides, and these come after the old ones when none of the requested
    handlers was connected to it in [w]. *)
Definition tracks (all items : list Subscription) (w w' : World QtSignal) : Prop :=
  ∀ o, match signals w !! o, signals w' !! o with
       | Some s, Some s' =>
           deleted s' = deleted s
           ∧ slots s' ≡ₚ slots s ++ pending o items
           ∧ ((∀ h, h ∈ pending o all → h ∉ slots s) → ∃ q, slots s' = slots s ++ q)
       | None, None => True
       | _, _ => False
       end.

(** A client of the tracker that subscribes a batch. *)
Fixpoint connect_all {S : Type} `{!SignalProtocol.Signal S} (self : SignalTracker.t)
    (reqs : list Subscription) : Py S unit :=
  match reqs with
  | [] => ret tt
  | rq :: rest => SignalTracker.connect self rq.1 rq.2 ;; connect_all self rest
  end.

(** The life of a tracker: made, used for a batch, torn down. *)
Definition tracker_session {S : Type} `{!SignalProtocol.Signal S} (fuel : nat)
    (reqs : list Subscription) : Py S unit :=
  let! self := SignalTracker.init in
  connect_all self reqs ;;
  SignalTracker.disconnect_all fuel self.

(** The record of a call that returned. *)
Definition returned (c : Call) : CallRecord := (c, None).

(** A receiver that is [enable_button] or a callable foreign to the
    button. *)
Definition stops_or_foreign (h : Handler) : bool :=
  match h with
  | H_enable_button | H_callable _ => true
  | _ => false
  end.

(** The connections of the signal [new] once [enable_button] has been
    unbound from what was bound and from [new] itself. *)
Definition unbound_slots (old : option objid) (new : objid) (l : list Handler)
  : list Handler :=
  remove_first H_enable_button
    (if decide (old = Some new) then remove_first H_enable_button l else l).

(** Whether the button spins after the notifications [ns], when it did
    ([spinning]) or did not before them; [None] when a notification
    repeats the one before it, or when the first does not fit the state. *)
Fixpoint replay (spinning : bool) (ns : list Notification) : option bool :=
  match ns with
  | [] => Some spinning
  | signal_started_spinning :: rest => if spinning then None else replay true rest
  | signal_stopped_spinning :: rest => if spinning then replay false rest else None
  end.

(** The state of a button built with [timeout = T] hangs together: what
    [__init__] has wired is in place, the animation timer repeats every
    100 ms and runs exactly while the button spins, the timeout timer runs
    exactly while it spins with a positive timeout, the button is disabled
    exactly while it spins with [disable_while_spinning], and the icon is
    the enabled icon when idle and a spinner frame at the current angle when
    spinning. *)
Definition coherent (T : Z) (b : SpinningButton) : Prop :=
  wired T b
  ∧ interval (timer b) = 100 ∧ singleShot (timer b) = false
  ∧ isActive (timer b) = _spinning b
  ∧ isActive (timeout_timer b) = _spinning b && (0 <? T)
  ∧ enabled b = negb (_spinning b && disable_while_spinning b)
  ∧ if _spinning b then ∃ size, icon b = Icon_spinner (rotation_angle b) size
    else icon b = enabled_icon b.

(** From [w] to [w'] the button has stayed coherent and has emitted one
    notification for each change of its state, and no other. *)
Definition advances {S : Type} (T : Z) (w w' : World S) : Prop :=
  coherent T (button w')
  ∧ ∃ new, emitted w' = emitted w ++ new
           ∧ replay (_spinning (button w)) new = Some (_spinning (button w')).

(** A computation that keeps a coherent button so. *)
Definition steady {S A : Type} (T : Z) (m : Py S A) : Prop :=
  ∀ w, coherent T (button w) → advances T w (m w).2.

(** The animation has run for [t] milliseconds. *)
Definition animating (t : Z) (size : QSize) (b : SpinningButton) : Prop :=
  _spinning b = true
  ∧ timer b = mkQTimer 100 false true (100 - t mod 100) [H_rotate_svg]
  ∧ rotation_angle b = (10 * (t / 100)) mod 360
  ∧ icon b = Icon_spinner ((10 * (t / 100)) mod 360) size
  ∧ _icon_size b = size.

(** The timeout timer does not fire within the next [n] milliseconds. *)
Definition far_from_timeout (n : Z) (b : SpinningButton) : Prop :=
  isActive (timeout_timer b) = true → n < remaining (timeout_timer b).

(** ** Further concrete inputs *)

(** Requests on a live signal, a deleted signal and an object that is no
    signal. *)
Definition mixed_batch : list Subscription :=
  [(1%nat, H_callable 8%nat); (2%nat, H_callable 8%nat); (9%nat, H_callable 8%nat)].

(** Requests on the live signals 1 and 3. *)
Definition live_batch : list Subscription :=
  [(1%nat, H_callable 8%nat); (3%nat, H_callable 8%nat); (1%nat, H_callable 9%nat)].

(** The live signal 1 with its one foreign receiver. *)
Definition signal_1 : QtSignal := mkQtSignal [H_callable 7%nat] false.

(** The deleted signal 2. *)
Definition signal_2 : QtSignal := mkQtSignal [] true.

(** The attributes of an owner before and after its stale signal. *)
Definition attrs_before : list (string * Attribute) :=
  [("clicked"%string, Attr_object 1%nat)].

Definition attrs_after : list (string * Attribute) :=
  [("toggled"%string, Attr_object 3%nat)].

(** The icon size after a sequence of operations on a button whose icon
    size was [size]: that of the last [setIconSize] given a size. *)
Fixpoint icon_size_after (os : list SpinningButton.Op) (size : QSize) : QSize :=
  match os with
  | [] => size
  | SpinningButton.Op_setIconSize (Arg_QSize sz) :: rest => icon_size_after rest sz
  | _ :: rest => icon_size_after rest size
  end.

(** The geometry of a button: its icon size and its padding of 3. *)
Definition geometry (size : QSize) (b : SpinningButton) : Prop :=
  _icon_size b = size ∧ padding b = 3.

(** The signals among the objects [os]. *)
Definition signals_among {S : Type} (w : World S) (os : list objid) : list objid :=
  filter (λ o, is_Some (signals w !! o)) os.

(** A store whose signals 1 and 3 have no connection. *)
Definition unconnected_store : World QtSignal :=
  empty_store {[ 1%nat := no_connection; 3%nat := no_connection ]}.

(** Two calls of [setIconSize], the second with a value that is no size,
    and a spin. *)
Definition resize_ops : list SpinningButton.Op :=
  [SpinningButton.Op_setIconSize (Arg_QSize (mkQSize 24 24));
   SpinningButton.Op_setIconSize Arg_other; SpinningButton.Op_start_spin].

(** Signal 1 once [enable_button] is bound to it, and the live signal 3,
    which has no connection. *)
Definition signal_1_bound : QtSignal :=
  mkQtSignal [H_callable 7%nat; H_enable_button] false.

Definition signal_3 : QtSignal := mkQtSignal [] false.

(** ** Proof automation *)

(** Evaluating the straight-line methods of the button on a store whose
    fields are variables. *)
Ltac py_eval :=
  cbv beta iota zeta delta
    [SpinningButton.start_spin SpinningButton.enable_button
     SpinningButton.rotate_svg SpinningButton.on_clicked
     SpinningButton._spinner_icon SpinningButton.iconSize
     SpinningButton.isEnabled SpinningButton.setEnabled
     SpinningButton.setDisabled SpinningButton.setIcon
     SpinningButton.update SpinningButton.emit SpinningButton.when
     SpinningButton.update_self SpinningButton.self
     SpinningButton.setIconSize SpinningButton.sizeHint
     bind ret raise modify get try_except
     set_button set_emitted set_signals set_lists set_calls set_debug_log
     signals lists calls debug_log button emitted
     with_enabled with_icon with_rotation_angle with__icon_size with__spinning
     with__stop_signal with_timer with_timeout_timer
     QTimer_start QTimer_start_msec QTimer_stop
     interval singleShot isActive remaining timeout_receivers
     text enabled icon clicked_receivers disable_while_spinning svg_renderer
     rotation_angle _icon_size padding timeout enabled_icon _spinning
     _stop_signal timer timeout_timer
     fst snd negb andb orb] in *.

Ltac destruct_store w :=
  let sg := fresh "sg" in let ls := fresh "ls" in let cs := fresh "cs" in
  let dl := fresh "dl" in let b := fresh "b" in let em := fresh "em" in
  destruct w as [sg ls cs dl b em];
  let f1 := fresh "txt" in let f2 := fresh "en" in let f3 := fresh "ic" in
  let f4 := fresh "clk" in let f5 := fresh "dws" in let f6 := fresh "svg" in
  let f7 := fresh "ang" in let f8 := fresh "isz" in let f9 := fresh "pad" in
  let f10 := fresh "tmo" in let f11 := fresh "eic" in let f12 := fresh "spin" in
  let f13 := fresh "stp" in let t1 := fresh "tm" in let t2 := fresh "tt" in
  destruct b as [f1 f2 f3 f4 f5 f6 f7 f8 f9 f10 f11 f12 f13 t1 t2];
  let a1 := fresh "ti" in let a2 := fresh "ts" in let a3 := fresh "ta" in
  let a4 := fresh "tr" in let a5 := fresh "tc" in
  destruct t1 as [a1 a2 a3 a4 a5];
  let c1 := fresh "oi" in let c2 := fresh "os" in let c3 := fresh "oa" in
  let c4 := fresh "or" in let c5 := fresh "oc" in
  destruct t2 as [c1 c2 c3 c4 c5].

Ltac py_cases :=
  repeat match goal with
         | |- context [if ?c then _ else _] => destruct c eqn:?
         end.

Ltac py_eval_loop :=
  cbv beta iota zeta delta
    [SpinningButton.elapse_ms SpinningButton.advance_timer
     SpinningButton.advance_timeout_timer SpinningButton.QTimer_advance
     SpinningButton.click SpinningButton.run_op] in *;
  py_eval.

Ltac leb_cases :=
  repeat match goal with
         | |- context [?x <=? ?y] => destruct (Z.leb_spec x y); try lia
         | |- context [?x <? ?y] => destruct (Z.ltb_spec x y); try lia
         end.

(** * Facts *)

(** ** The toolkit calls *)

Section ToolkitFacts.

Context {S : Type} `{!SignalProtocol.Signal S}.

(** A disconnect call touches the signal map and the call history, and
    nothing else; the history gets the call with its result. *)
Lemma call_disconnect_frame (signal : objid) (slot : option Handler) (w : World S) :
  let r := call_disconnect signal slot w in
  lists r.2 = lists w ∧ debug_log r.2 = debug_log w ∧ button r.2 = button w
  ∧ emitted r.2 = emitted w
  ∧ calls r.2 = calls w ++ [(Call_disconnect signal slot,
                             match r.1 with Raised e => Some e | _ => None end)]
  ∧ r.1 ≠ OutOfFuel.
Proof.
  unfold call_disconnect; simpl.
  destruct (signals w !! signal) as [s|]; simpl; [|by repeat split].
  destruct (SignalProtocol.disconnect s slot).2; simpl; by repeat split.
Qed.

Lemma call_connect_frame (signal : objid) (h : Handler) (w : World S) :
  let r := call_connect signal h w in
  lists r.2 = lists w ∧ debug_log r.2 = debug_log w ∧ button r.2 = button w
  ∧ emitted r.2 = emitted w
  ∧ calls r.2 = calls w ++ [(Call_connect signal h,
                             match r.1 with Raised e => Some e | _ => None end)]
  ∧ r.1 ≠ OutOfFuel.
Proof.
  unfold call_connect; simpl.
  destruct (signals w !! signal) as [s|]; simpl; [|by repeat split].
  destruct (SignalProtocol.connect s h).2; simpl; by repeat split.
Qed.

(** [disconnect_signal] always returns; it makes one disconnect call and
    writes one debug record exactly when that call raised. *)
Lemma disconnect_signal_spec (signal : objid) (h : option Handler) (w : World S) :
  let r := SignalTools.disconnect_signal signal h w in
  r.1 = Returned tt
  ∧ lists r.2 = lists w ∧ button r.2 = button w ∧ emitted r.2 = emitted w
  ∧ ∃ res, calls r.2 = calls w ++ [(Call_disconnect signal h, res)]
           ∧ debug_log r.2 = debug_log w ++ logged_failures [(Call_disconnect signal h, res)].
Proof.
  unfold SignalTools.disconnect_signal, try_except; simpl.
  pose proof (call_disconnect_frame signal h w) as (Hl & Hd & Hb & He & Hc & Hf).
  destruct (call_disconnect signal h w) as [[[]|e|] w']; simpl in *.
  - repeat split; try done. exists None. by rewrite app_nil_r.
  - repeat split; try done. exists (Some e). split; [done|]. by rewrite Hd.
  - done.
Qed.

Lemma logged_failures_app (t1 t2 : list CallRecord) :
  logged_failures (t1 ++ t2) = logged_failures t1 ++ logged_failures t2.
Proof. apply omap_app. Qed.

End ToolkitFacts.

Section TrackerFacts.

Context {S : Type} `{!SignalProtocol.Signal S}.

Lemma disconnect_signals_nil (l : objid) (fuel : nat) (w : World S) :
  list_items w l = [] →
  SignalTools.disconnect_signals (Datatypes.S fuel) l w = (Returned tt, w).
Proof.
  intros Hnil. cbn [SignalTools.disconnect_signals].
  unfold bind, list_read. by rewrite Hnil.
Qed.

Lemma disconnect_signals_pop (l : objid) (fuel : nat) (w : World S)
    (x : Subscription) (rest : list Subscription) :
  reverse (list_items w l) = x :: rest →
  SignalTools.disconnect_signals (Datatypes.S fuel) l w =
  SignalTools.disconnect_signals fuel l
    (SignalTools.disconnect_signal x.1 (Some x.2)
       (set_lists (<[l := reverse rest]> (lists w)) w)).2.
Proof.
  intros Hrev. cbn [SignalTools.disconnect_signals].
  unfold bind at 1, list_read at 1.
  destruct (list_items w l) as [|y items'] eqn:Hitems; [done|].
  unfold bind at 1, list_pop at 1. rewrite Hitems, Hrev.
  unfold bind at 1.
  pose proof (disconnect_signal_spec x.1 (Some x.2)
                (set_lists (<[l := reverse rest]> (lists w)) w)) as [Hret _].
  simpl in Hret.
  destruct (SignalTools.disconnect_signal x.1 (Some x.2) _) as [o w2].
  simpl in *. by subst o.
Qed.

(** The loop of [disconnect_signals], for any fuel above the number of
    records: it returns, the list is empty, the records were disconnected
    last first, one call each, and the failures are in the debug log. *)
Lemma disconnect_signals_spec (l : objid) (fuel : nat) :
  ∀ w : World S,
    (length (list_items w l) < fuel)%nat →
    let r := SignalTools.disconnect_signals fuel l w in
    r.1 = Returned tt
    ∧ list_items r.2 l = []
    ∧ (∀ l', l' ≠ l → lists r.2 !! l' = lists w !! l')
    ∧ button r.2 = button w ∧ emitted r.2 = emitted w
    ∧ ∃ trace,
        calls r.2 = calls w ++ trace
        ∧ trace.*1 = map disconnect_call_of (reverse (list_items w l))
        ∧ debug_log r.2 = debug_log w ++ logged_failures trace.
Proof.
  induction fuel as [|fuel IH]; intros w Hlen; [lia|].
  destruct (reverse (list_items w l)) as [|x rest] eqn:Hrev.
  { assert (Hnil : list_items w l = []).
    { apply (f_equal reverse) in Hrev. by rewrite reverse_involutive in Hrev. }
    rewrite (disconnect_signals_nil _ _ _ Hnil). simpl.
    repeat split; try done.
    exists []. by rewrite !app_nil_r. }
  rewrite (disconnect_signals_pop _ _ _ _ _ Hrev).
  set (w1 := set_lists (<[l:=reverse rest]> (lists w)) w).
  pose proof (disconnect_signal_spec x.1 (Some x.2) w1)
    as (_ & Hl & Hb & He & res & Hc & Hd).
  destruct (SignalTools.disconnect_signal x.1 (Some x.2) w1) as [o w2].
  simpl in Hl, Hb, He, Hc, Hd. cbn [snd].
  assert (Hitems2 : list_items w2 l = reverse rest).
  { unfold list_items. rewrite Hl. subst w1; simpl. by rewrite lookup_insert_eq. }
  assert (Hlen2 : (length (list_items w2 l) < fuel)%nat).
  { rewrite Hitems2, length_reverse.
    apply (f_equal length) in Hrev. rewrite length_reverse in Hrev.
    simpl in *. lia. }
  specialize (IH w2 Hlen2). simpl in IH.
  destruct IH as (IHr & IHe & IHo & IHb & IHem & trace & IHc & IHt & IHd).
  rewrite Hitems2, reverse_involutive in IHt.
  simpl. repeat split.
  - done.
  - done.
  - intros l' Hne. rewrite IHo, Hl by done. subst w1; simpl.
    by rewrite lookup_insert_ne.
  - by rewrite IHb, Hb.
  - by rewrite IHem, He.
  - exists ((Call_disconnect x.1 (Some x.2), res) :: trace). repeat split.
    + rewrite IHc, Hc. subst w1; simpl. by rewrite <- app_assoc.
    + rewrite fmap_cons, IHt. done.
    + rewrite IHd, Hd. subst w1. cbn [debug_log set_lists].
      rewrite <- app_assoc. f_equal. by destruct res.
Qed.

End TrackerFacts.

Section QtFacts.

Implicit Types (w : World QtSignal) (s : QtSignal) (o : objid).

Lemma call_disconnect_noarg_empty w o s :
  signals w !! o = Some s → deleted s = false → slots s = [] →
  call_disconnect o None w =
    (Raised TypeError,
     set_calls (calls w ++ [(Call_disconnect o None, Some TypeError)])
       (set_signals (<[o := s]> (signals w)) w)).
Proof.
  intros Hs Hd Hsl. unfold call_disconnect; simpl. rewrite Hs; simpl.
  unfold qt_disconnect. by rewrite Hd, Hsl.
Qed.

Lemma call_disconnect_noarg_cons w o s h r :
  signals w !! o = Some s → deleted s = false → slots s = h :: r →
  call_disconnect o None w =
    (Returned tt,
     set_calls (calls w ++ [(Call_disconnect o None, None)])
       (set_signals (<[o := mkQtSignal r false]> (signals w)) w)).
Proof.
  intros Hs Hd Hsl. unfold call_disconnect; simpl. rewrite Hs; simpl.
  unfold qt_disconnect. by rewrite Hd, Hsl.
Qed.

(** On a live signal the loop of [_safe_disconnect] ends: it breaks the
    connections one call at a time and stops at the [TypeError] of the
    call that finds none. *)
Lemma _safe_disconnect_live (fuel : nat) :
  ∀ w o s,
    signals w !! o = Some s → deleted s = false →
    (length (slots s) < fuel)%nat →
    SignalTools._safe_disconnect fuel o w =
      (Returned tt,
       set_calls (calls w ++ safe_disconnect_trace o (length (slots s)))
         (set_signals (<[o := no_connection]> (signals w)) w)).
Proof.
  induction fuel as [|fuel IH]; intros w o s Hs Hd Hlen; [lia|].
  cbn [SignalTools._safe_disconnect].
  unfold bind at 1, try_except, bind at 1.
  destruct (slots s) as [|h r] eqn:Hsl.
  - rewrite (call_disconnect_noarg_empty w o s Hs Hd Hsl). simpl.
    destruct s as [sl d]; simpl in *; subst. reflexivity.
  - rewrite (call_disconnect_noarg_cons w o s h r Hs Hd Hsl).
    cbn -[safe_disconnect_trace].
    erewrite IH; [| by apply lookup_insert_eq | done | simpl in *; lia ].
    unfold set_signals, set_calls, safe_disconnect_trace; cbn -[replicate].
    rewrite insert_insert_eq, <- app_assoc. reflexivity.
Qed.

(** A deleted signal makes the loop raise at its first call. *)
Lemma _safe_disconnect_deleted (fuel : nat) w o s :
  signals w !! o = Some s → deleted s = true →
  (SignalTools._safe_disconnect (Datatypes.S fuel) o w).1 = Raised RuntimeError.
Proof.
  intros Hs Hd. cbn [SignalTools._safe_disconnect].
  unfold bind at 1, try_except, bind at 1, call_disconnect; simpl.
  rewrite Hs; simpl. unfold qt_disconnect. by rewrite Hd.
Qed.

Lemma noarg_disconnects_on_mono (os os' : list objid) (cs : list CallRecord) :
  (∀ o, o ∈ os → o ∈ os') → noarg_disconnects_on os cs → noarg_disconnects_on os' cs.
Proof.
  intros Hsub Hcs. eapply Forall_impl; [exact Hcs|].
  intros c (o & Ho & ->). eauto.
Qed.

Lemma safe_disconnect_trace_noarg o (n : nat) (os : list objid) :
  o ∈ os → noarg_disconnects_on os (safe_disconnect_trace o n).
Proof.
  intros Ho. apply Forall_app. split.
  - apply Forall_replicate. by exists o.
  - constructor; [by exists o | constructor].
Qed.

Lemma visited_destroyed (a : Attribute) (rest : list (string * Attribute)) :
  visited (("destroyed"%string, a) :: rest) = visited rest.
Proof. reflexivity. Qed.

Lemma visited_failing_access (name : string) (e : PyException)
    (rest : list (string * Attribute)) :
  visited ((name, Attr_raises e) :: rest) = visited rest.
Proof. cbn [visited]. by destruct (String.eqb name "destroyed"). Qed.

Lemma visited_object (name : string) o (rest : list (string * Attribute)) :
  String.eqb name "destroyed" = false →
  visited ((name, Attr_object o) :: rest) = o :: visited rest.
Proof. intros Hname. cbn [visited]. by rewrite Hname. Qed.

Lemma loop_skips_destroyed (fuel : nat) (a : Attribute)
    (rest : list (string * Attribute)) w :
  SignalTools.disconnect_all_signals_from fuel (("destroyed"%string, a) :: rest) w =
  SignalTools.disconnect_all_signals_from fuel rest w.
Proof. reflexivity. Qed.

Lemma loop_on_signal (fuel : nat) (name : string) o s
    (rest : list (string * Attribute)) w :
  String.eqb name "destroyed" = false →
  signals w !! o = Some s → deleted s = false → (length (slots s) < fuel)%nat →
  SignalTools.disconnect_all_signals_from fuel ((name, Attr_object o) :: rest) w =
  SignalTools.disconnect_all_signals_from fuel rest
    (set_calls (calls w ++ safe_disconnect_trace o (length (slots s)))
       (set_signals (<[o := no_connection]> (signals w)) w)).
Proof.
  intros Hname Hs Hd Hlen.
  cbn [SignalTools.disconnect_all_signals_from]. rewrite Hname.
  unfold bind at 1, SignalTools.isinstance_SignalProtocol at 1.
  rewrite bool_decide_eq_true_2 by eauto.
  unfold bind at 1. by rewrite (_safe_disconnect_live fuel w o s Hs Hd Hlen).
Qed.

Lemma loop_on_other_object (fuel : nat) (name : string) o
    (rest : list (string * Attribute)) w :
  signals w !! o = None →
  SignalTools.disconnect_all_signals_from fuel ((name, Attr_object o) :: rest) w =
  SignalTools.disconnect_all_signals_from fuel rest w.
Proof.
  intros Hs. cbn [SignalTools.disconnect_all_signals_from].
  destruct (String.eqb name "destroyed"); [done|].
  unfold bind at 1, SignalTools.isinstance_SignalProtocol at 1.
  rewrite bool_decide_eq_false_2; [done|]. rewrite Hs. by intros [? ?].
Qed.

Lemma loop_on_failing_access (fuel : nat) (name : string) (e : PyException)
    (rest : list (string * Attribute)) w :
  SignalTools.disconnect_all_signals_from fuel ((name, Attr_raises e) :: rest) w =
  SignalTools.disconnect_all_signals_from fuel rest w.
Proof.
  cbn [SignalTools.disconnect_all_signals_from].
  by destruct (String.eqb name "destroyed").
Qed.


End QtFacts.

(** ** The button *)

Section ButtonFacts.

Context {S : Type} `{!SignalProtocol.Signal S}.

Lemma start_spin_returns (w : World S) :
  (SpinningButton.start_spin w).1 = Returned tt.
Proof. destruct_store w. py_eval. py_cases; reflexivity. Qed.

(** A second call changes nothing. *)
Lemma start_spin_twice (w : World S) :
  SpinningButton.start_spin (SpinningButton.start_spin w).2 =
  SpinningButton.start_spin w.
Proof.
  destruct_store w. py_eval.
  destruct spin, ta, oa, dws, en, (0 <? tmo) eqn:Ht; py_eval; rewrite ?Ht; reflexivity.
Qed.

Lemma enable_button_returns (w : World S) :
  (SpinningButton.enable_button w).1 = Returned tt.
Proof. destruct_store w. py_eval. py_cases; reflexivity. Qed.

Lemma enable_button_twice (w : World S) :
  SpinningButton.enable_button (SpinningButton.enable_button w).2 =
  SpinningButton.enable_button w.
Proof.
  destruct_store w. py_eval.
  destruct spin, ta, oa, dws, en; py_eval; reflexivity.
Qed.

Lemma on_clicked_returns (w : World S) :
  (SpinningButton.on_clicked w).1 = Returned tt.
Proof. destruct_store w. py_eval. py_cases; reflexivity. Qed.

Lemma rotate_svg_returns (w : World S) :
  (SpinningButton.rotate_svg w).1 = Returned tt.
Proof. destruct_store w. py_eval. py_cases; reflexivity. Qed.

(** Calling an idempotent method that always returns once more, and
    again, is calling it once. *)
Lemma repeat_call_idempotent (m : Py S unit) :
  (∀ w, (m w).1 = Returned tt) →
  (∀ w, m (m w).2 = m w) →
  ∀ (n : nat) (w : World S), SpinningButton.repeat_call (Datatypes.S n) m w = m w.
Proof.
  intros Hret Hidem. induction n as [|n IH]; intros w.
  - cbn [SpinningButton.repeat_call]. unfold bind, ret.
    specialize (Hret w). destruct (m w) as [[[]| |] w']; simpl in *; congruence.
  - change (SpinningButton.repeat_call (Datatypes.S (Datatypes.S n)) m w)
      with (bind m (fun _ => SpinningButton.repeat_call (Datatypes.S n) m) w).
    unfold bind. pose proof (Hret w) as Hr. pose proof (Hidem w) as Hi.
    destruct (m w) as [[[]| |] w'] eqn:Hm; simpl in *; [|done|done].
    by rewrite IH.
Qed.

Lemma repeat_call_unfold (m : Py S unit) (n : nat) (w : World S) :
  (m w).1 = Returned tt →
  SpinningButton.repeat_call (Datatypes.S n) m w = SpinningButton.repeat_call n m (m w).2.
Proof.
  intros Hret. cbn [SpinningButton.repeat_call]. unfold bind.
  destruct (m w) as [[[]| |] w']; simpl in *; congruence.
Qed.

Lemma rotate_svg_spinning (w : World S) :
  _spinning (button w) = true →
  _spinning (button (SpinningButton.rotate_svg w).2) = true
  ∧ rotation_angle (button (SpinningButton.rotate_svg w).2)
    = (rotation_angle (button w) + 10) mod 360.
Proof.
  destruct_store w. py_eval. intros ->. by py_eval.
Qed.

(** [n + 1] ticks on a spinning button. *)
Lemma rotate_svg_ticks (n : nat) :
  ∀ w : World S,
    _spinning (button w) = true →
    rotation_angle
      (button (SpinningButton.repeat_call (Datatypes.S n) SpinningButton.rotate_svg w).2)
    = (rotation_angle (button w) + 10 * (Z.of_nat n + 1)) mod 360.
Proof.
  induction n as [|n IH]; intros w Hspin.
  - rewrite repeat_call_unfold by apply rotate_svg_returns.
    cbn [SpinningButton.repeat_call]. unfold ret; simpl.
    by destruct (rotate_svg_spinning w Hspin) as [_ ->].
  - rewrite repeat_call_unfold by apply rotate_svg_returns.
    destruct (rotate_svg_spinning w Hspin) as [Hspin' Hangle].
    rewrite (IH _ Hspin'), Hangle, Zplus_mod_idemp_l.
    f_equal. lia.
Qed.

End ButtonFacts.

Section RebindFacts.

Context {S : Type} `{!SignalProtocol.Signal S}.

(** The best-effort disconnect returns whatever the signal does; it makes
    one call and touches nothing but the signal map and the history. *)
Lemma _disconnect_signal_spec (signal : objid) (slot : Handler) (w : World S) :
  let r := SpinningButton._disconnect_signal signal slot w in
  r.1 = Returned tt
  ∧ lists r.2 = lists w ∧ debug_log r.2 = debug_log w ∧ button r.2 = button w
  ∧ emitted r.2 = emitted w
  ∧ ∃ res, calls r.2 = calls w ++ [(Call_disconnect signal (Some slot), res)].
Proof.
  unfold SpinningButton._disconnect_signal, try_except; simpl.
  pose proof (call_disconnect_frame signal (Some slot) w) as (Hl & Hd & Hb & He & Hc & Hf).
  destruct (call_disconnect signal (Some slot) w) as [[[]|e|] w']; simpl in *;
    [| |done]; repeat split; eauto.
Qed.

Lemma unbind_spec (w : World S) :
  let r := (match _stop_signal (button w) with
            | Some old => SpinningButton._disconnect_signal old H_enable_button
            | None => ret tt
            end) w in
  r.1 = Returned tt
  ∧ lists r.2 = lists w ∧ debug_log r.2 = debug_log w ∧ button r.2 = button w
  ∧ emitted r.2 = emitted w
  ∧ ∃ trace, calls r.2 = calls w ++ trace
             ∧ trace.*1 = unbind_calls (_stop_signal (button w)).
Proof.
  destruct (_stop_signal (button w)) as [old|]; simpl.
  - destruct (_disconnect_signal_spec old H_enable_button w)
      as (Hr & Hl & Hd & Hb & He & res & Hc).
    repeat split; try done. by exists [(Call_disconnect old (Some H_enable_button), res)].
  - repeat split; try done. exists []. by rewrite app_nil_r.
Qed.

End RebindFacts.

Section RebindFrame.

Context {S : Type} `{!SignalProtocol.Signal S}.

Lemma keeps_ret {A} (a : A) : keeps_all_but_stop_signal (S:=S) (ret a).
Proof. by intros w. Qed.

Lemma keeps_bind {A B} (m : Py S A) (k : A → Py S B) :
  keeps_all_but_stop_signal (S:=S) m → (∀ a, keeps_all_but_stop_signal (S:=S) (k a)) →
  keeps_all_but_stop_signal (S:=S) (bind m k).
Proof.
  intros Hm Hk w. unfold bind. destruct (Hm w) as [Hb He].
  destruct (m w) as [[a| |] w']; simpl in *; [|done|done].
  destruct (Hk a w') as [Hb' He']. split; congruence.
Qed.

Lemma keeps_try_except {A} (m h : Py S A) (catches : PyException → bool) :
  keeps_all_but_stop_signal (S:=S) m → keeps_all_but_stop_signal (S:=S) h →
  keeps_all_but_stop_signal (S:=S) (try_except m catches h).
Proof.
  intros Hm Hh w. unfold try_except. destruct (Hm w) as [Hb He].
  destruct (m w) as [[a|e|] w']; simpl in *; [done| |done].
  destruct (catches e); [|done].
  destruct (Hh w') as [Hb' He']. split; congruence.
Qed.

Lemma keeps_call_disconnect (signal : objid) (slot : option Handler) :
  keeps_all_but_stop_signal (S:=S) (call_disconnect signal slot).
Proof.
  intros w. destruct (call_disconnect_frame signal slot w) as (_ & _ & Hb & He & _).
  simpl in Hb, He. by rewrite Hb, He.
Qed.

Lemma keeps_call_connect (signal : objid) (h : Handler) :
  keeps_all_but_stop_signal (S:=S) (call_connect signal h).
Proof.
  intros w. destruct (call_connect_frame signal h w) as (_ & _ & Hb & He & _).
  simpl in Hb, He. by rewrite Hb, He.
Qed.

Lemma keeps_record_stop_signal (v : option objid) :
  keeps_all_but_stop_signal (S:=S) (SpinningButton.update_self (with__stop_signal v)).
Proof. intros w. split; [|done]. cbn. by destruct (button w). Qed.

Lemma keeps__disconnect_signal (signal : objid) (slot : Handler) :
  keeps_all_but_stop_signal (S:=S) (SpinningButton._disconnect_signal signal slot).
Proof. apply keeps_try_except; [apply keeps_call_disconnect | apply keeps_ret]. Qed.

(** [set_enable_signal] changes nothing of the button but the recorded stop
    signal, and emits nothing. *)
Lemma set_enable_signal_frame (signal_stop_spinning : option objid) :
  keeps_all_but_stop_signal (S:=S) (SpinningButton.set_enable_signal signal_stop_spinning).
Proof.
  unfold SpinningButton.set_enable_signal.
  apply keeps_bind; [by intros w|]. intros b.
  apply keeps_bind.
  { destruct (_stop_signal b); [apply keeps__disconnect_signal | apply keeps_ret]. }
  intros _. apply keeps_bind; [apply keeps_record_stop_signal|]. intros _.
  destruct signal_stop_spinning as [new|]; [|apply keeps_ret].
  apply keeps_bind; [apply keeps_record_stop_signal|]. intros _.
  apply keeps_bind; [apply keeps__disconnect_signal|]. intros _.
  apply keeps_try_except; [apply keeps_call_connect | apply keeps_record_stop_signal].
Qed.

End RebindFrame.

Section Preservation.

Context {S : Type} `{!SignalProtocol.Signal S}.

Lemma preserves_ret {A} (P : SpinningButton → Prop) (a : A) :
  preserves (S:=S) P (ret a).
Proof. by intros w. Qed.

Lemma preserves_bind {A B} (P : SpinningButton → Prop) (m : Py S A) (k : A → Py S B) :
  preserves (S:=S) P m → (∀ a, preserves (S:=S) P (k a)) → preserves (S:=S) P (bind m k).
Proof.
  intros Hm Hk w HP. unfold bind. specialize (Hm w HP).
  destruct (m w) as [[a| |] w']; simpl in *; [by apply Hk | done | done].
Qed.

Lemma preserves_try_except {A} (P : SpinningButton → Prop) (m h : Py S A)
    (catches : PyException → bool) :
  preserves (S:=S) P m → preserves (S:=S) P h → preserves (S:=S) P (try_except m catches h).
Proof.
  intros Hm Hh w HP. unfold try_except. specialize (Hm w HP).
  destruct (m w) as [[a|e|] w']; simpl in *; [done| |done].
  destruct (catches e); [by apply Hh | done].
Qed.

(** What does not depend on the stop signal is kept by
    [set_enable_signal]. *)
Lemma preserves_set_enable_signal (P : SpinningButton → Prop) (sig : option objid) :
  (∀ b v, P b → P (with__stop_signal v b)) →
  preserves (S:=S) P (SpinningButton.set_enable_signal sig).
Proof.
  intros Hstop w HP.
  destruct (set_enable_signal_frame sig w) as [Hb _].
  apply (Hstop _ None) in HP. rewrite <- Hb in HP.
  apply (Hstop _ (_stop_signal (button (SpinningButton.set_enable_signal sig w).2))) in HP.
  by destruct (button (SpinningButton.set_enable_signal sig w).2).
Qed.

Lemma preserves_run_handlers (P : SpinningButton → Prop) (hs : list Handler) :
  (∀ h, h ∈ hs → preserves (S:=S) P (SpinningButton.run_handler h)) →
  preserves (S:=S) P (SpinningButton.run_handlers hs).
Proof.
  induction hs as [|h hs IH]; intros Hall; [apply preserves_ret|].
  cbn [SpinningButton.run_handlers]. apply preserves_bind.
  - apply Hall. by left.
  - intros _. apply IH. intros h' Hin. apply Hall. by right.
Qed.

Lemma preserves_run_ops (P : SpinningButton → Prop)
    (sizeHint_ : SpinningButton → QSize) (allowed : SpinningButton.Op → bool)
    (os : list SpinningButton.Op) :
  (∀ o, allowed o = true → preserves (S:=S) P (SpinningButton.run_op sizeHint_ o)) →
  Forall (λ o, allowed o = true) os →
  preserves (S:=S) P (SpinningButton.run_ops sizeHint_ os).
Proof.
  intros Hop. induction 1 as [|o os Ho _ IH]; [apply preserves_ret|].
  cbn [SpinningButton.run_ops]. apply preserves_bind; [|done].
  apply preserves_try_except; [by apply Hop | apply preserves_ret].
Qed.

(** No operation of the button runs out of fuel: none has a loop. *)
Lemma run_handlers_returns (hs : list Handler) (w : World S) :
  (SpinningButton.run_handlers hs w).1 = Returned tt.
Proof.
  revert w. induction hs as [|h hs IH]; intros w; [done|].
  cbn [SpinningButton.run_handlers]. unfold bind.
  assert (Hh : (SpinningButton.run_handler h w).1 = Returned tt).
  { destruct h; cbn [SpinningButton.run_handler];
      [apply enable_button_returns | apply rotate_svg_returns
      | apply on_clicked_returns | done]. }
  destruct (SpinningButton.run_handler h w) as [[[]| |] w']; simpl in *; try done.
Qed.

End Preservation.

Section Invariants.

Context {S : Type} `{!SignalProtocol.Signal S}.

Lemma preserves_self (P : SpinningButton → Prop) : preserves (S:=S) P SpinningButton.self.
Proof. by intros w. Qed.

Lemma preserves_get (P : SpinningButton → Prop) : preserves (S:=S) P get.
Proof. by intros w. Qed.

Lemma preserves_update_self (P : SpinningButton → Prop)
    (f : SpinningButton → SpinningButton) :
  (∀ b, P b → P (f b)) → preserves (S:=S) P (SpinningButton.update_self f).
Proof. intros Hf w HP. by apply Hf. Qed.

Lemma preserves_when (P : SpinningButton → Prop) (c : bool) (m : Py S unit) :
  preserves (S:=S) P m → preserves (S:=S) P (SpinningButton.when c m).
Proof. intros Hm. destruct c; [done | apply preserves_ret]. Qed.

(** The construction, when the SVG text parses. *)
Lemma init_spec (svg_isValid : string → bool) (DEFAULT_SPINNER_SVG : string)
    (txt : string) (sig : option objid) (eic : QIcon) (svgc : option string)
    (T : Z) (dws : bool) (w : World S) :
  let r := SpinningButton.init svg_isValid DEFAULT_SPINNER_SVG txt sig eic svgc T dws w in
  r.1 = Returned tt →
  ∃ content stop,
    button r.2 =
      mkSpinningButton txt true eic [H_on_clicked] dws content 0 (mkQSize 18 18) 3 T eic
        false stop (mkQTimer 100 false false 0 [H_rotate_svg])
        (mkQTimer 0 true false 0 [H_enable_button])
    ∧ emitted r.2 = emitted w.
Proof.
  intros r Hret.
  assert (Hr : r = SpinningButton.init svg_isValid DEFAULT_SPINNER_SVG txt sig eic svgc T dws w)
    by reflexivity.
  clearbody r. unfold SpinningButton.init in Hr.
  set (content := match svgc with
                  | Some (String c s) => String c s
                  | _ => DEFAULT_SPINNER_SVG
                  end) in Hr.
  unfold bind at 1, modify at 1 in Hr.
  unfold bind at 1, SpinningButton.update_self at 1, modify at 1 in Hr.
  destruct (svg_isValid content); cbn [negb] in Hr; [|by subst r].
  exists content.
  do 7 (unfold bind at 1 in Hr;
        first [ unfold SpinningButton.update_self at 1, modify at 1 in Hr
              | unfold SpinningButton.setIcon at 1, SpinningButton.update_self at 1,
                  modify at 1 in Hr ]).
  cbn in Hr.
  destruct sig as [sig|].
  - match type of Hr with
    | r = SpinningButton.set_enable_signal _ ?w0 =>
        destruct (set_enable_signal_frame (Some sig) w0) as [Hb He]
    end.
    rewrite <- Hr in Hb, He. cbn in Hb, He.
    exists (_stop_signal (button r.2)). split; [|done].
    destruct (button r.2). cbn in Hb.
    by injection Hb as -> -> -> -> -> -> -> -> -> -> -> -> -> ->.
  - exists None. by subst r.
Qed.

Lemma angle_ok_advance (b : SpinningButton) :
  angle_ok b → angle_ok (with_rotation_angle ((rotation_angle b + 10) mod 360) b).
Proof.
  unfold angle_ok. destruct b; cbn. intros [Hmod Hrange]. split.
  - rewrite (Z.mod_mod_divide _ 360 10) by (by exists 36).
    rewrite <- Zplus_mod_idemp_l, Hmod. reflexivity.
  - apply Z.mod_pos_bound. lia.
Qed.

Lemma angle_ok_start_spin : preserves (S:=S) angle_ok SpinningButton.start_spin.
Proof.
  intros w. destruct_store w. unfold angle_ok. py_eval.
  py_cases; py_eval; first [done | intros _; split; [reflexivity | lia]].
Qed.

Lemma angle_ok_enable_button : preserves (S:=S) angle_ok SpinningButton.enable_button.
Proof.
  intros w. destruct_store w. unfold angle_ok. py_eval. py_cases; py_eval; done.
Qed.

Lemma angle_ok_rotate_svg : preserves (S:=S) angle_ok SpinningButton.rotate_svg.
Proof.
  intros w Hok. destruct (_spinning (button w)) eqn:Hspin.
  - pose proof (angle_ok_advance _ Hok) as Hadv.
    destruct_store w. cbn in Hspin. subst. unfold angle_ok in *. py_eval. exact Hadv.
  - destruct_store w. cbn in Hspin. subst. unfold angle_ok in *. py_eval.
    py_cases; py_eval; done.
Qed.

Lemma angle_ok_on_clicked : preserves (S:=S) angle_ok SpinningButton.on_clicked.
Proof.
  unfold SpinningButton.on_clicked. apply preserves_bind.
  - unfold SpinningButton.isEnabled. apply preserves_bind; [apply preserves_self|].
    intros b. apply preserves_ret.
  - intros en. destruct (negb en); [apply preserves_ret | apply angle_ok_start_spin].
Qed.

Lemma angle_ok_run_handler (h : Handler) :
  preserves (S:=S) angle_ok (SpinningButton.run_handler h).
Proof.
  destruct h; cbn [SpinningButton.run_handler];
    [apply angle_ok_enable_button | apply angle_ok_rotate_svg
    | apply angle_ok_on_clicked | apply preserves_ret].
Qed.

Lemma angle_ok_run_op (sizeHint_ : SpinningButton → QSize) (o : SpinningButton.Op) :
  preserves (S:=S) angle_ok (SpinningButton.run_op sizeHint_ o).
Proof.
  assert (Hhs : ∀ hs, preserves (S:=S) angle_ok (SpinningButton.run_handlers hs)).
  { intros hs. apply preserves_run_handlers. intros h _. apply angle_ok_run_handler. }
  destruct o as [ | | | | |sig|sz| |sig|tf]; cbn [SpinningButton.run_op].
  - apply angle_ok_start_spin.
  - apply angle_ok_enable_button.
  - apply angle_ok_rotate_svg.
  - apply angle_ok_on_clicked.
  - unfold SpinningButton.click. apply preserves_bind; [apply preserves_self|].
    intros b. destruct (enabled b); [apply Hhs | apply preserves_ret].
  - apply preserves_set_enable_signal. intros b v. by destruct b.
  - destruct sz as [sz|]; cbn [SpinningButton.setIconSize]; [|by intros w].
    apply preserves_bind; [|intros _; apply preserves_ret].
    apply preserves_update_self. intros b. by destruct b.
  - apply preserves_bind; [|intros _; apply preserves_ret].
    unfold SpinningButton.sizeHint. apply preserves_bind; [apply preserves_self|].
    intros b. apply preserves_ret.
  - unfold SpinningButton.fire. apply preserves_bind; [apply preserves_get|].
    intros w0. destruct (signals w0 !! sig); [apply Hhs | apply preserves_ret].
  - assert (Ht : preserves (S:=S) angle_ok SpinningButton.advance_timer).
    { unfold SpinningButton.advance_timer. apply preserves_bind; [apply preserves_self|].
      intros b. apply preserves_bind.
      - apply preserves_update_self. intros b'. by destruct b'.
      - intros _. apply preserves_when, Hhs. }
    assert (Hto : preserves (S:=S) angle_ok SpinningButton.advance_timeout_timer).
    { unfold SpinningButton.advance_timeout_timer.
      apply preserves_bind; [apply preserves_self|].
      intros b. apply preserves_bind.
      - apply preserves_update_self. intros b'. by destruct b'.
      - intros _. apply preserves_when, Hhs. }
    unfold SpinningButton.elapse_ms.
    destruct tf; apply preserves_bind; auto.
Qed.

(** None of the other methods ends the spinning. *)
Lemma other_methods_keep_spinning (sizeHint_ : SpinningButton → QSize)
    (o : SpinningButton.Op) :
  other_method o = true →
  preserves (S:=S) (λ b, _spinning b = true) (SpinningButton.run_op sizeHint_ o).
Proof.
  destruct o as [ | | | | |sig|sz| |sig|tf]; cbn [SpinningButton.run_op other_method];
    intros Ho; try discriminate.
  - intros w Hspin. destruct_store w. cbn in Hspin. subst. py_eval. by py_cases.
  - intros w Hspin. destruct_store w. cbn in Hspin. subst. by py_eval.
  - intros w Hspin. destruct_store w. cbn in Hspin. subst. py_eval. by py_cases.
  - apply preserves_set_enable_signal. intros b v. by destruct b.
  - intros w Hspin. destruct_store w. cbn in Hspin. subst. destruct sz; by py_eval.
  - intros w Hspin. destruct_store w. cbn in Hspin. subst. by py_eval.
Qed.

End Invariants.

(** ** The virtual clock *)

Section Clock.

Context {S : Type} `{!SignalProtocol.Signal S}.

Lemma advance_timer_returns (w : World S) :
  (SpinningButton.advance_timer w).1 = Returned tt.
Proof.
  unfold SpinningButton.advance_timer, bind, SpinningButton.self,
    SpinningButton.update_self, modify, SpinningButton.when; simpl.
  destruct (SpinningButton.QTimer_advance (timer (button w))).1;
    [apply run_handlers_returns | done].
Qed.

Lemma advance_timeout_timer_returns (w : World S) :
  (SpinningButton.advance_timeout_timer w).1 = Returned tt.
Proof.
  unfold SpinningButton.advance_timeout_timer, bind, SpinningButton.self,
    SpinningButton.update_self, modify, SpinningButton.when; simpl.
  destruct (SpinningButton.QTimer_advance (timeout_timer (button w))).1;
    [apply run_handlers_returns | done].
Qed.

Lemma elapse_ms_returns (tf : bool) (w : World S) :
  (SpinningButton.elapse_ms tf w).1 = Returned tt.
Proof.
  unfold SpinningButton.elapse_ms. destruct tf; unfold bind.
  - pose proof (advance_timeout_timer_returns w) as H1.
    destruct (SpinningButton.advance_timeout_timer w) as [[[]| |] w']; simpl in *; try done.
    apply advance_timer_returns.
  - pose proof (advance_timer_returns w) as H1.
    destruct (SpinningButton.advance_timer w) as [[[]| |] w']; simpl in *; try done.
    apply advance_timeout_timer_returns.
Qed.

Lemma elapse_unfold (tf : bool) (ms : nat) (w : World S) :
  SpinningButton.elapse tf (Datatypes.S ms) w =
  SpinningButton.elapse tf ms (SpinningButton.elapse_ms tf w).2.
Proof.
  cbn [SpinningButton.elapse]. unfold bind.
  pose proof (elapse_ms_returns tf w) as H1.
  destruct (SpinningButton.elapse_ms tf w) as [[[]| |] w']; simpl in *; done.
Qed.

(** While more than a millisecond is left the button goes on spinning
    and emits nothing. *)
Lemma elapse_ms_spins_until (tf : bool) (T left : Z) (w : World S) :
  spins_until T left (button w) → 1 < left →
  spins_until T (left - 1) (button (SpinningButton.elapse_ms tf w).2)
  ∧ emitted (SpinningButton.elapse_ms tf w).2 = emitted w.
Proof.
  intros (Hspin & Hto & Hrec) Hleft.
  destruct_store w. cbn in Hspin, Hto, Hrec. injection Hto as -> -> -> -> ->. subst.
  unfold spins_until.
  destruct tf, ta; py_eval_loop; leb_cases;
    try (destruct ts); py_eval_loop;
    cbv [SpinningButton.run_handlers SpinningButton.run_handler]; py_eval; leb_cases;
    repeat split; reflexivity.
Qed.

(** In the millisecond that uses up what is left the timeout timer fires,
    [enable_button] runs and ["stopped spinning"] is emitted once. *)
Lemma elapse_ms_times_out (tf : bool) (T left : Z) (w : World S) :
  spins_until T left (button w) → left ≤ 1 →
  idle_stopped (button (SpinningButton.elapse_ms tf w).2)
  ∧ emitted (SpinningButton.elapse_ms tf w).2 = emitted w ++ [signal_stopped_spinning].
Proof.
  intros (Hspin & Hto & Hrec) Hleft.
  destruct_store w. cbn in Hspin, Hto, Hrec. injection Hto as -> -> -> -> ->. subst.
  unfold idle_stopped.
  destruct tf, ta; py_eval_loop; leb_cases;
    try (destruct ts); py_eval_loop;
    cbv [SpinningButton.run_handlers SpinningButton.run_handler]; py_eval; leb_cases;
    try (destruct dws, en); py_eval;
    repeat split; reflexivity.
Qed.

(** Nothing happens to an idle button whose timers are stopped. *)
Lemma elapse_ms_idle (tf : bool) (w : World S) :
  idle_stopped (button w) →
  idle_stopped (button (SpinningButton.elapse_ms tf w).2)
  ∧ emitted (SpinningButton.elapse_ms tf w).2 = emitted w.
Proof.
  intros (Hspin & Ht & Hto).
  destruct_store w. cbn in Hspin, Ht, Hto. subst.
  unfold idle_stopped. destruct tf; py_eval_loop; repeat split; reflexivity.
Qed.

Lemma elapse_idle (tf : bool) (ms : nat) :
  ∀ w : World S,
    idle_stopped (button w) →
    idle_stopped (button (SpinningButton.elapse tf ms w).2)
    ∧ emitted (SpinningButton.elapse tf ms w).2 = emitted w.
Proof.
  induction ms as [|ms IH]; intros w Hidle; [done|].
  rewrite elapse_unfold.
  destruct (elapse_ms_idle tf w Hidle) as [Hidle' Hem].
  destruct (IH _ Hidle') as [Hidle'' Hem'].
  split; [done | congruence].
Qed.

(** Before the timeout has run down the button is spinning. *)
Lemma elapse_before_timeout (tf : bool) (T : Z) (ms : nat) :
  ∀ (left : Z) (w : World S),
    spins_until T left (button w) → Z.of_nat ms < left →
    spins_until T (left - Z.of_nat ms) (button (SpinningButton.elapse tf ms w).2)
    ∧ emitted (SpinningButton.elapse tf ms w).2 = emitted w.
Proof.
  induction ms as [|ms IH]; intros left w Hspin Hlt.
  - cbn [SpinningButton.elapse]. unfold ret; simpl.
    by replace (left - Z.of_nat 0) with left by lia.
  - rewrite elapse_unfold.
    destruct (elapse_ms_spins_until tf T left w Hspin) as [Hspin' Hem]; [lia|].
    destruct (IH (left - 1) _ Hspin') as [Hspin'' Hem']; [lia|].
    split; [|congruence].
    by replace (left - Z.of_nat (Datatypes.S ms)) with (left - 1 - Z.of_nat ms) by lia.
Qed.

(** From the millisecond in which the timeout runs down the button is
    idle, and ["stopped spinning"] has been emitted once. *)
Lemma elapse_after_timeout (tf : bool) (T : Z) (ms : nat) :
  ∀ (left : Z) (w : World S),
    spins_until T left (button w) → 1 ≤ left ≤ Z.of_nat ms →
    idle_stopped (button (SpinningButton.elapse tf ms w).2)
    ∧ emitted (SpinningButton.elapse tf ms w).2 = emitted w ++ [signal_stopped_spinning].
Proof.
  induction ms as [|ms IH]; intros left w Hspin Hle; [lia|].
  rewrite elapse_unfold.
  destruct (decide (left ≤ 1)) as [Hlast|Hmore].
  - destruct (elapse_ms_times_out tf T left w Hspin Hlast) as [Hidle Hem].
    destruct (elapse_idle tf ms _ Hidle) as [Hidle' Hem'].
    split; [done | congruence].
  - destruct (elapse_ms_spins_until tf T left w Hspin) as [Hspin' Hem]; [lia|].
    destruct (IH (left - 1) _ Hspin') as [Hidle Hem']; [lia|].
    split; [done | congruence].
Qed.

End Clock.

Section NoTimeout.

Context {S : Type} `{!SignalProtocol.Signal S}.

Lemma spins_start_spin : preserves (S:=S) spins_without_timeout SpinningButton.start_spin.
Proof.
  intros w (Hspin & Htmo & Hto & Hrec & Hclk).
  destruct_store w. cbn in Hspin, Htmo, Hto, Hrec, Hclk. subst.
  unfold spins_without_timeout. py_eval.
  destruct ta; py_eval; leb_cases; repeat split; done.
Qed.

Lemma spins_rotate_svg : preserves (S:=S) spins_without_timeout SpinningButton.rotate_svg.
Proof.
  intros w (Hspin & Htmo & Hto & Hrec & Hclk).
  destruct_store w. cbn in Hspin, Htmo, Hto, Hrec, Hclk. subst.
  unfold spins_without_timeout. py_eval. repeat split; done.
Qed.

Lemma spins_on_clicked : preserves (S:=S) spins_without_timeout SpinningButton.on_clicked.
Proof.
  unfold SpinningButton.on_clicked. apply preserves_bind.
  - unfold SpinningButton.isEnabled. apply preserves_bind; [apply preserves_self|].
    intros b. apply preserves_ret.
  - intros en. destruct (negb en); [apply preserves_ret | apply spins_start_spin].
Qed.

(** Handlers other than [enable_button] leave the button spinning. *)
Lemma spins_run_handlers (hs : list Handler) :
  H_enable_button ∉ hs →
  preserves (S:=S) spins_without_timeout (SpinningButton.run_handlers hs).
Proof.
  intros Hnin. apply preserves_run_handlers. intros h Hin.
  destruct h; cbn [SpinningButton.run_handler];
    [done | apply spins_rotate_svg | apply spins_on_clicked | apply preserves_ret].
Qed.

Lemma spins_click : preserves (S:=S) spins_without_timeout SpinningButton.click.
Proof.
  intros w Hsp. pose proof Hsp as (_ & _ & _ & _ & Hclk).
  unfold SpinningButton.click, bind, SpinningButton.self; simpl.
  destruct (enabled (button w)); [|done].
  by apply spins_run_handlers.
Qed.

Lemma spins_advance_timer :
  preserves (S:=S) spins_without_timeout SpinningButton.advance_timer.
Proof.
  intros w Hsp. pose proof Hsp as (Hspin & Htmo & Hto & Hrec & Hclk).
  unfold SpinningButton.advance_timer, bind, SpinningButton.self,
    SpinningButton.update_self, modify, SpinningButton.when; cbn [fst snd].
  set (w' := set_button _ w).
  assert (Hsp' : spins_without_timeout (button w')).
  { subst w'. destruct_store w. cbn in Hspin, Htmo, Hto, Hrec, Hclk. subst.
    unfold spins_without_timeout. py_eval_loop.
    destruct ta; py_eval; leb_cases; try destruct ts; repeat split; done. }
  destruct (SpinningButton.QTimer_advance (timer (button w))).1; [|done].
  by apply spins_run_handlers.
Qed.

Lemma spins_advance_timeout_timer :
  preserves (S:=S) spins_without_timeout SpinningButton.advance_timeout_timer.
Proof.
  intros w (Hspin & Htmo & Hto & Hrec & Hclk).
  destruct_store w. cbn in Hspin, Htmo, Hto, Hrec, Hclk. subst.
  unfold spins_without_timeout. py_eval_loop. repeat split; done.
Qed.

(** Every operation but [enable_button] and the firing of a signal leaves
    a button that spins with no timeout as it is in that respect. *)
Lemma spins_run_op (sizeHint_ : SpinningButton → QSize) (o : SpinningButton.Op) :
  quiet o = true →
  preserves (S:=S) spins_without_timeout (SpinningButton.run_op sizeHint_ o).
Proof.
  destruct o as [ | | | | |sig|sz| |sig|tf]; cbn [SpinningButton.run_op quiet];
    intros Hq; try discriminate.
  - apply spins_start_spin.
  - apply spins_rotate_svg.
  - apply spins_on_clicked.
  - apply spins_click.
  - apply preserves_set_enable_signal. intros b v. by destruct b.
  - destruct sz as [sz|]; cbn [SpinningButton.setIconSize]; [|by intros w].
    apply preserves_bind; [|intros _; apply preserves_ret].
    apply preserves_update_self. intros b. by destruct b.
  - apply preserves_bind; [|intros _; apply preserves_ret].
    unfold SpinningButton.sizeHint. apply preserves_bind; [apply preserves_self|].
    intros b. apply preserves_ret.
  - unfold SpinningButton.elapse_ms.
    destruct tf; apply preserves_bind;
      auto using spins_advance_timer, spins_advance_timeout_timer.
Qed.

End NoTimeout.

Section Wiring.

Context {S : Type} `{!SignalProtocol.Signal S}.

Lemma wired_after_init (txt : string) (eic : QIcon) (dws : bool) (content : string)
    (T : Z) (stop : option objid) (b : SpinningButton) :
  b = mkSpinningButton txt true eic [H_on_clicked] dws content 0 (mkQSize 18 18) 3 T eic
        false stop (mkQTimer 100 false false 0 [H_rotate_svg])
        (mkQTimer 0 true false 0 [H_enable_button]) →
  wired T b.
Proof. intros ->. by repeat split. Qed.

Lemma wired_start_spin (T : Z) : preserves (S:=S) (wired T) SpinningButton.start_spin.
Proof.
  intros w (Ht & Hs & Hr & Hr' & Hc & Hoff).
  destruct_store w. cbn in Ht, Hs, Hr, Hr', Hc, Hoff. subst.
  unfold wired. py_eval.
  destruct spin, ta, oa, dws, en; py_eval; leb_cases; repeat split; try done;
    intros; lia.
Qed.

Lemma wired_enable_button (T : Z) : preserves (S:=S) (wired T) SpinningButton.enable_button.
Proof.
  intros w (Ht & Hs & Hr & Hr' & Hc & Hoff).
  destruct_store w. cbn in Ht, Hs, Hr, Hr', Hc, Hoff. subst.
  unfold wired. py_eval.
  destruct spin, ta, oa, dws, en; py_eval; repeat split; done.
Qed.

Lemma wired_rotate_svg (T : Z) : preserves (S:=S) (wired T) SpinningButton.rotate_svg.
Proof.
  intros w (Ht & Hs & Hr & Hr' & Hc & Hoff).
  destruct_store w. cbn in Ht, Hs, Hr, Hr', Hc, Hoff. subst.
  unfold wired. py_eval.
  destruct spin, ta; py_eval; repeat split; done.
Qed.

Lemma wired_on_clicked (T : Z) : preserves (S:=S) (wired T) SpinningButton.on_clicked.
Proof.
  unfold SpinningButton.on_clicked. apply preserves_bind.
  - unfold SpinningButton.isEnabled. apply preserves_bind; [apply preserves_self|].
    intros b. apply preserves_ret.
  - intros en. destruct (negb en); [apply preserves_ret | apply wired_start_spin].
Qed.

Lemma wired_run_handlers (T : Z) (hs : list Handler) :
  preserves (S:=S) (wired T) (SpinningButton.run_handlers hs).
Proof.
  apply preserves_run_handlers. intros h _.
  destruct h; cbn [SpinningButton.run_handler];
    [apply wired_enable_button | apply wired_rotate_svg
    | apply wired_on_clicked | apply preserves_ret].
Qed.

Lemma wired_advance_timer (T : Z) :
  preserves (S:=S) (wired T) SpinningButton.advance_timer.
Proof.
  intros w Hw. pose proof Hw as (Ht & Hs & Hr & Hr' & Hc & Hoff).
  unfold SpinningButton.advance_timer, bind, SpinningButton.self,
    SpinningButton.update_self, modify, SpinningButton.when; cbn [fst snd].
  set (w' := set_button _ w).
  assert (Hw' : wired T (button w')).
  { subst w'. destruct_store w. cbn in Ht, Hs, Hr, Hr', Hc, Hoff. subst.
    unfold wired. py_eval_loop.
    destruct ta; py_eval; leb_cases; try destruct ts; repeat split; done. }
  destruct (SpinningButton.QTimer_advance (timer (button w))).1; [|done].
  by apply wired_run_handlers.
Qed.

Lemma wired_advance_timeout_timer (T : Z) :
  preserves (S:=S) (wired T) SpinningButton.advance_timeout_timer.
Proof.
  intros w Hw. pose proof Hw as (Ht & Hs & Hr & Hr' & Hc & Hoff).
  unfold SpinningButton.advance_timeout_timer, bind, SpinningButton.self,
    SpinningButton.update_self, modify, SpinningButton.when; cbn [fst snd].
  set (w' := set_button _ w).
  assert (Hw' : wired T (button w')).
  { subst w'. destruct_store w. cbn in Ht, Hs, Hr, Hr', Hc, Hoff. subst.
    unfold wired. py_eval_loop.
    destruct oa; py_eval; leb_cases; repeat split; try done;
      intros HT; specialize (Hoff HT); done. }
  destruct (SpinningButton.QTimer_advance (timeout_timer (button w))).1; [|done].
  by apply wired_run_handlers.
Qed.

(** No operation undoes what [__init__] has wired. *)
Lemma wired_run_op (T : Z) (sizeHint_ : SpinningButton → QSize) (o : SpinningButton.Op) :
  preserves (S:=S) (wired T) (SpinningButton.run_op sizeHint_ o).
Proof.
  destruct o as [ | | | | |sig|sz| |sig|tf]; cbn [SpinningButton.run_op].
  - apply wired_start_spin.
  - apply wired_enable_button.
  - apply wired_rotate_svg.
  - apply wired_on_clicked.
  - unfold SpinningButton.click. apply preserves_bind; [apply preserves_self|].
    intros b. destruct (enabled b); [apply wired_run_handlers | apply preserves_ret].
  - apply preserves_set_enable_signal. intros b v. by destruct b.
  - destruct sz as [sz|]; cbn [SpinningButton.setIconSize]; [|by intros w].
    apply preserves_bind; [|intros _; apply preserves_ret].
    apply preserves_update_self. intros b. by destruct b.
  - apply preserves_bind; [|intros _; apply preserves_ret].
    unfold SpinningButton.sizeHint. apply preserves_bind; [apply preserves_self|].
    intros b. apply preserves_ret.
  - unfold SpinningButton.fire. apply preserves_bind; [apply preserves_get|].
    intros w0. destruct (signals w0 !! sig);
      [apply wired_run_handlers | apply preserves_ret].
  - unfold SpinningButton.elapse_ms.
    destruct tf; apply preserves_bind;
      auto using wired_advance_timer, wired_advance_timeout_timer.
Qed.

(** [start_spin] on an idle button wired for a timeout of [T] seconds. *)
Lemma start_spin_when_wired (T : Z) (w : World S) :
  wired T (button w) → _spinning (button w) = false →
  let r := SpinningButton.start_spin w in
  _spinning (button r.2) = true
  ∧ emitted r.2 = emitted w ++ [signal_started_spinning]
  ∧ if 0 <? T then spins_until T (T * 1000) (button r.2)
    else spins_without_timeout (button r.2).
Proof.
  intros (Ht & Hs & Hr & Hr' & Hc & Hoff) Hidle.
  destruct_store w. cbn in Ht, Hs, Hr, Hr', Hc, Hoff, Hidle. subst.
  unfold spins_until, spins_without_timeout. py_eval.
  destruct ta, dws, en; py_eval; leb_cases; repeat split; try done; try lia;
    first [ by apply Hoff; lia | by intros ?%list_elem_of_singleton ].
Qed.

End Wiring.

(** * The claims *)

(** ** SignalTracker *)

Section TrackerClaims.

Context {S : Type} `{!SignalProtocol.Signal S}.

(** C10 — [SignalTracker.connect] is atomic: when the call on the signal
    raises (an object without [connect] raises [AttributeError]), that
    exception reaches the caller and no list of the store has changed;
    when it returns, the record [(signal, handler)] has been appended to
    the tracker's list, and only then.  Either way the history shows the
    one connect call and its result. *)
Theorem tracker_connect_atomic (self : SignalTracker.t) (signal : objid)
    (handler : Handler) (w : World S) :
  let l := SignalTracker._connected_signals self in
  let r := SignalTracker.connect self signal handler w in
  match signals w !! signal with
  | None =>
      r.1 = Raised AttributeError ∧ lists r.2 = lists w
      ∧ calls r.2 = calls w ++ [(Call_connect signal handler, Some AttributeError)]
  | Some s =>
      match (SignalProtocol.connect s handler).2 with
      | Some e =>
          r.1 = Raised e ∧ lists r.2 = lists w
          ∧ calls r.2 = calls w ++ [(Call_connect signal handler, Some e)]
      | None =>
          r.1 = Returned tt
          ∧ list_items r.2 l = list_items w l ++ [(signal, handler)]
          ∧ (∀ l', l' ≠ l → lists r.2 !! l' = lists w !! l')
          ∧ calls r.2 = calls w ++ [(Call_connect signal handler, None)]
      end
  end.
Proof.
  unfold SignalTracker.connect, bind, call_connect, list_append; simpl.
  destruct (signals w !! signal) as [s|]; simpl; [|done].
  destruct (SignalProtocol.connect s handler).2 as [e|]; simpl; [done|].
  unfold list_items; simpl. rewrite lookup_insert_eq; simpl.
  repeat split; try done.
  intros l' Hne. by rewrite lookup_insert_ne.
Qed.

(** C4 — teardown completeness of [SignalTracker.disconnect_all]: given
    fuel above the number of records, the call returns (no exception
    escapes), the tracker's list is empty, the history has grown by one
    disconnect per record, last record first, and the debug log has grown
    by one entry for each of these disconnects that raised — however many
    of them did. *)
Theorem disconnect_all_teardown_complete (self : SignalTracker.t) (fuel : nat)
    (w : World S) :
  (length (list_items w (SignalTracker._connected_signals self)) < fuel)%nat →
  let l := SignalTracker._connected_signals self in
  let r := SignalTracker.disconnect_all fuel self w in
  r.1 = Returned tt
  ∧ list_items r.2 l = []
  ∧ ∃ trace,
      calls r.2 = calls w ++ trace
      ∧ trace.*1 = map disconnect_call_of (reverse (list_items w l))
      ∧ debug_log r.2 = debug_log w ++ logged_failures trace.
Proof.
  intros Hfuel l r.
  destruct (disconnect_signals_spec l fuel w Hfuel)
    as (Hret & Hempty & _ & _ & _ & Htrace).
  by repeat split.
Qed.

End TrackerClaims.

(** Three records on deleted signals: every disconnect raises, the call
    returns all the same, and the list is empty afterwards. *)
Lemma disconnect_all_teardown_complete_witness :
  (length (list_items store_all_failing (SignalTracker._connected_signals tracker_0)) < 4)%nat
  ∧ (SignalTracker.disconnect_all 4 tracker_0 store_all_failing).1 = Returned tt
  ∧ list_items (SignalTracker.disconnect_all 4 tracker_0 store_all_failing).2 0%nat = [].
Proof.
  assert (Hfuel : (length (list_items store_all_failing
                             (SignalTracker._connected_signals tracker_0)) < 4)%nat)
    by (vm_compute; lia).
  split; [exact Hfuel|].
  destruct (disconnect_all_teardown_complete tracker_0 4 store_all_failing Hfuel)
    as (Hret & Hempty & _).
  split; [exact Hret | exact Hempty].
Defined.

(** And the debug log has the three failures, last record first. *)
Example disconnect_all_logs_every_failure :
  debug_log (SignalTracker.disconnect_all 4 tracker_0 store_all_failing).2 =
  [(1%nat, Some (H_callable 9%nat)); (2%nat, Some (H_callable 8%nat));
   (1%nat, Some (H_callable 7%nat))].
Proof. vm_compute. reflexivity. Qed.

(** ** SignalTools.disconnect_all_signals_from *)

(** C5, as the code has it — when the signals among the owner's attributes
    are live, so that a [disconnect()] fails only with the [TypeError] that
    says no connection is left, and the fuel exceeds their numbers of
    connections, [disconnect_all_signals_from] returns without raising;
    every signal attribute other than ["destroyed"] is left without a
    connection; the other objects of the store, the one behind
    ["destroyed"] among them, are untouched; and every call made was a
    [disconnect()] on one of those attributes. *)
Theorem disconnect_all_signals_from_live (fuel : nat)
    (owner : list (string * Attribute)) (w : World QtSignal) :
  live_within fuel (visited owner) w →
  let r := SignalTools.disconnect_all_signals_from fuel owner w in
  r.1 = Returned tt
  ∧ (∀ o, o ∈ visited owner → is_Some (signals w !! o) →
          signals r.2 !! o = Some no_connection)
  ∧ (∀ o, o ∉ visited owner → signals r.2 !! o = signals w !! o)
  ∧ lists r.2 = lists w ∧ debug_log r.2 = debug_log w
  ∧ button r.2 = button w ∧ emitted r.2 = emitted w
  ∧ ∃ new, calls r.2 = calls w ++ new ∧ noarg_disconnects_on (visited owner) new.
Proof.
  revert w. induction owner as [|[name a] rest IH]; intros w Hlive.
  { simpl. repeat split; try done.
    - intros o Ho. by apply elem_of_nil in Ho.
    - exists []. rewrite app_nil_r. split; [done | constructor]. }
  destruct a as [e|o].
  { rewrite loop_on_failing_access, visited_failing_access in *. by apply IH. }
  destruct (String.eqb name "destroyed") eqn:Hname.
  { apply String.eqb_eq in Hname as ->.
    rewrite loop_skips_destroyed, visited_destroyed in *. by apply IH. }
  rewrite (visited_object name o rest Hname) in *.
  destruct (signals w !! o) as [s|] eqn:Hs.
  - destruct (Hlive o s) as [Hd Hlen]; [by left | done |].
    rewrite (loop_on_signal fuel name o s rest w Hname Hs Hd Hlen).
    set (w2 := set_calls _ _).
    assert (Hlive2 : live_within fuel (visited rest) w2).
    { intros o' s' Ho' Hs'. subst w2; simpl in Hs'.
      destruct (decide (o' = o)) as [->|Hne].
      - rewrite lookup_insert_eq in Hs'. injection Hs' as <-. simpl. split; [done|lia].
      - rewrite lookup_insert_ne in Hs' by done. apply (Hlive o' s'); [by right|done]. }
    destruct (IH w2 Hlive2) as (Hr & Hv & Hn & Hl & Hdl & Hb & He & new & Hc & Hnew).
    repeat split; try done.
    + intros o' Ho' Hsome.
      destruct (decide (o' ∈ visited rest)) as [Hin|Hnin].
      * apply Hv; [done|]. subst w2; simpl.
        destruct (decide (o' = o)) as [->|Hne].
        -- rewrite lookup_insert_eq. eauto.
        -- by rewrite lookup_insert_ne.
      * apply elem_of_cons in Ho' as [->|?]; [|done].
        rewrite (Hn o Hnin). subst w2; simpl. by rewrite lookup_insert_eq.
    + intros o' Ho'. apply not_elem_of_cons in Ho' as [Hne Hnin].
      rewrite (Hn o' Hnin). subst w2; simpl. by rewrite lookup_insert_ne.
    + exists (safe_disconnect_trace o (length (slots s)) ++ new).
      split.
      * rewrite Hc. subst w2. cbn -[safe_disconnect_trace]. by rewrite <- app_assoc.
      * apply Forall_app. split.
        -- apply safe_disconnect_trace_noarg. by left.
        -- eapply noarg_disconnects_on_mono; [|done]. intros; by right.
  - rewrite (loop_on_other_object fuel name o rest w Hs).
    assert (Hlive2 : live_within fuel (visited rest) w).
    { intros o' s' Ho' Hs'. apply (Hlive o' s'); [by right|done]. }
    destruct (IH w Hlive2) as (Hr & Hv & Hn & Hl & Hdl & Hb & He & new & Hc & Hnew).
    repeat split; try done.
    + intros o' Ho' Hsome.
      apply elem_of_cons in Ho' as [->|?]; [|by apply Hv].
      rewrite Hs in Hsome. by destruct Hsome.
    + intros o' Ho'. apply not_elem_of_cons in Ho' as [Hne Hnin]. by apply Hn.
    + exists new. split; [done|].
      eapply noarg_disconnects_on_mono; [|done]. intros; by right.
Qed.

(** The signals of [live_owner] in [store_live_owner] are live: signal 1
    has two connections, object 9 is not a signal. *)
Lemma live_owner_is_live : live_within 3 (visited live_owner) store_live_owner.
Proof.
  intros o s Ho Hs. vm_compute in Ho.
  apply elem_of_cons in Ho as [->|Ho].
  - vm_compute in Hs. injection Hs as <-. split; [reflexivity | simpl; lia].
  - apply elem_of_cons in Ho as [->|Ho].
    + vm_compute in Hs. discriminate.
    + by apply elem_of_nil in Ho.
Defined.

(** On [live_owner] the call returns and signal 1 is left without a
    connection. *)
Lemma disconnect_all_signals_from_live_witness :
  live_within 3 (visited live_owner) store_live_owner
  ∧ (SignalTools.disconnect_all_signals_from 3 live_owner store_live_owner).1 = Returned tt
  ∧ signals (SignalTools.disconnect_all_signals_from 3 live_owner store_live_owner).2 !! 1%nat
    = Some no_connection.
Proof.
  split; [exact live_owner_is_live|].
  destruct (disconnect_all_signals_from_live 3 live_owner store_live_owner live_owner_is_live)
    as (Hret & Hv & _).
  split; [exact Hret|].
  apply Hv; [vm_compute; left | vm_compute; eauto].
Defined.

(** C5, counterexample — a signal whose toolkit object is gone raises
    [RuntimeError] from [disconnect()]; [except TypeError] does not catch
    it and it leaves [disconnect_all_signals_from]. *)
Lemma disconnect_all_signals_from_surfaces_RuntimeError :
  (SignalTools.disconnect_all_signals_from 3 stale_owner (empty_store two_signals)).1
  = Raised RuntimeError.
Proof. vm_compute. reflexivity. Qed.

Section ButtonClaims.

Context {S : Type} `{!SignalProtocol.Signal S}.

(** C1, as the code has it — [start_spin] is idempotent: one or more
    further consecutive calls give exactly the result of the single call,
    store and notifications included.  A call on a spinning button keeps
    the rotation angle, the icon and the enabled state, emits nothing and
    leaves a running timer alone; a call on an idle button emits
    ["started spinning"] once.  After the call the animation timer runs;
    the timeout timer runs when [timeout > 0] and is left as it was
    otherwise. *)
Theorem start_spin_idempotent (n : nat) (w : World S) :
  let b := button w in
  let r := SpinningButton.start_spin w in
  let b' := button r.2 in
  SpinningButton.repeat_call (Datatypes.S n) SpinningButton.start_spin w = r
  ∧ r.1 = Returned tt
  ∧ _spinning b' = true
  ∧ isActive (timer b') = true
  ∧ (if 0 <? timeout b then isActive (timeout_timer b') = true
     else timeout_timer b' = timeout_timer b)
  ∧ (if _spinning b
     then rotation_angle b' = rotation_angle b ∧ icon b' = icon b
          ∧ enabled b' = enabled b ∧ emitted r.2 = emitted w
          ∧ timer b' = (if isActive (timer b) then timer b
                        else QTimer_start (timer b))
          ∧ timeout_timer b'
            = (if (0 <? timeout b) && negb (isActive (timeout_timer b))
               then QTimer_start_msec (timeout b * 1000) (timeout_timer b)
               else timeout_timer b)
     else rotation_angle b' = 0 ∧ icon b' = Icon_spinner 0 (_icon_size b)
          ∧ enabled b' = (enabled b && negb (disable_while_spinning b))
          ∧ emitted r.2 = emitted w ++ [signal_started_spinning]).
Proof.
  intros b r b'. split.
  { apply repeat_call_idempotent; [apply start_spin_returns | apply start_spin_twice]. }
  subst b r b'. destruct_store w. py_eval.
  destruct spin, ta, oa, dws, en, (0 <? tmo) eqn:Ht; py_eval; rewrite ?Ht;
    repeat split; reflexivity.
Qed.

(** C2, as the code has it — [enable_button] is idempotent: further
    consecutive calls give exactly the result of the single call.  Every
    call stops both timers, sets the state to Idle, puts the enabled icon
    back and enables the button when [disable_while_spinning] is set,
    whatever disabled it; it emits ["stopped spinning"] once when the
    state was Spinning and nothing when it was Idle, and it leaves the
    rotation angle, the signals and the lists alone.  On an idle button
    with stopped timers that shows the enabled icon and is enabled (or does
    not disable itself while spinning) the call changes nothing at all.  It
    is the sole path to Idle: no other method of the button, called on a
    spinning button, ends the spinning. *)
Theorem enable_button_idle_transition (QPushButton_sizeHint : SpinningButton → QSize)
    (n : nat) (o : SpinningButton.Op) (w : World S) :
  let b := button w in
  let r := SpinningButton.enable_button w in
  let b' := button r.2 in
  SpinningButton.repeat_call (Datatypes.S n) SpinningButton.enable_button w = r
  ∧ r.1 = Returned tt
  ∧ _spinning b' = false
  ∧ isActive (timer b') = false ∧ isActive (timeout_timer b') = false
  ∧ icon b' = enabled_icon b
  ∧ enabled b' = (enabled b || disable_while_spinning b)
  ∧ rotation_angle b' = rotation_angle b
  ∧ emitted r.2 = emitted w ++ (if _spinning b then [signal_stopped_spinning] else [])
  ∧ signals r.2 = signals w ∧ lists r.2 = lists w ∧ calls r.2 = calls w
  ∧ (_spinning b = false → isActive (timer b) = false →
     isActive (timeout_timer b) = false → icon b = enabled_icon b →
     enabled b || negb (disable_while_spinning b) = true →
     r.2 = w)
  ∧ (other_method o = true → _spinning b = true →
     _spinning (button (SpinningButton.run_op QPushButton_sizeHint o w).2) = true).
Proof.
  intros b r b'. split.
  { apply repeat_call_idempotent; [apply enable_button_returns | apply enable_button_twice]. }
  assert (Hother : other_method o = true → _spinning b = true →
            _spinning (button (SpinningButton.run_op QPushButton_sizeHint o w).2) = true).
  { intros Ho. by apply other_methods_keep_spinning. }
  revert Hother. generalize (SpinningButton.run_op QPushButton_sizeHint o w). intros ro Hother.
  subst b r b'. destruct_store w. py_eval. cbn in Hother.
  destruct spin, ta, oa, dws, en; py_eval; rewrite ?app_nil_r;
    repeat split; try reflexivity; try exact Hother;
    intros; simplify_eq; done.
Qed.

(** C7 — the animation tick [rotate_svg].  On an idle button it only
    stops the animation timer, if that runs.  On a spinning button it sets
    the rotation angle to the old angle plus 10 modulo 360 and shows the
    spinner rendered at the new angle; [n + 1] ticks add [10 * (n + 1)]
    modulo 360, and 36 ticks from angle 0 lead back to 0. *)
Theorem rotate_svg_tick (n : nat) (w : World S) :
  let b := button w in
  let r := SpinningButton.rotate_svg w in
  let b' := button r.2 in
  let ticks k := button (SpinningButton.repeat_call k SpinningButton.rotate_svg w).2 in
  r.1 = Returned tt
  ∧ emitted r.2 = emitted w
  ∧ (if _spinning b
     then rotation_angle b' = (rotation_angle b + 10) mod 360
          ∧ icon b' = Icon_spinner ((rotation_angle b + 10) mod 360) (_icon_size b)
          ∧ _spinning b' = true ∧ timer b' = timer b
          ∧ rotation_angle (ticks (Datatypes.S n))
            = (rotation_angle b + 10 * (Z.of_nat n + 1)) mod 360
          ∧ (rotation_angle b = 0 → rotation_angle (ticks 36%nat) = 0)
     else r.2 = set_button (with_timer (if isActive (timer b) then QTimer_stop (timer b)
                                        else timer b) b) w
          ∧ isActive (timer b') = false ∧ rotation_angle b' = rotation_angle b
          ∧ icon b' = icon b).
Proof.
  intros b r b' ticks.
  destruct (_spinning b) eqn:Hspin.
  - pose proof (rotate_svg_ticks n w Hspin) as Hn.
    pose proof (rotate_svg_ticks 35 w Hspin) as H36.
    subst b r b' ticks. repeat split.
    + apply rotate_svg_returns.
    + destruct_store w. py_eval. simpl in Hspin. by subst.
    + by destruct (rotate_svg_spinning w Hspin).
    + destruct_store w. py_eval. simpl in Hspin. by subst.
    + by destruct (rotate_svg_spinning w Hspin).
    + destruct_store w. py_eval. simpl in Hspin. by subst.
    + exact Hn.
    + intros H0. rewrite H36, H0. reflexivity.
  - subst b r b' ticks. destruct_store w. simpl in Hspin. subst. py_eval.
    destruct ta; py_eval; repeat split; reflexivity.
Qed.

(** C8 — [sizeHint] computes and stores nothing: it returns the width of
    the base size hint plus the icon width plus twice the padding, and the
    larger of the base height and the icon height, and the store after the
    call is the store before it; and so it does for whatever icon size
    [setIconSize] has set. *)
Theorem sizeHint_computed (QPushButton_sizeHint : SpinningButton → QSize)
    (size : QSize) (w : World S) :
  let hint w :=
    mkQSize (width (QPushButton_sizeHint (button w)) + width (_icon_size (button w))
             + 2 * padding (button w))
            (Z.max (height (QPushButton_sizeHint (button w)))
                   (height (_icon_size (button w)))) in
  let w' := (SpinningButton.setIconSize (Arg_QSize size) w).2 in
  SpinningButton.sizeHint QPushButton_sizeHint w = (Returned (hint w), w)
  ∧ _icon_size (button w') = size ∧ padding (button w') = padding (button w)
  ∧ SpinningButton.sizeHint QPushButton_sizeHint w' = (Returned (hint w'), w').
Proof.
  intros hint w'. subst hint w'. destruct_store w. by py_eval.
Qed.

End ButtonClaims.

(** C1, counterexample — a button built with [timeout = 0] and set
    spinning: its timeout timer is not running, and it is not running after
    another [start_spin] either, so that call has not left both timers
    running. *)
Lemma start_spin_leaves_timeout_timer_stopped :
  _spinning (button store_spinning_no_timeout) = true
  ∧ isActive (timeout_timer (button store_spinning_no_timeout)) = false
  ∧ isActive (timeout_timer
                (button (SpinningButton.start_spin store_spinning_no_timeout).2)) = false.
Proof. vm_compute. repeat split; reflexivity. Qed.

(** C2, counterexample — an idle button that its owner has disabled is
    enabled by [enable_button], which therefore does more than stop timers
    on an idle button; and when that button is set spinning (it stays
    disabled, the spin has not disabled it) [enable_button] enables it all
    the same. *)
Lemma enable_button_enables_idle_button :
  _spinning (button store_idle_disabled) = false
  ∧ enabled (button store_idle_disabled) = false
  ∧ enabled (button (SpinningButton.enable_button store_idle_disabled).2) = true
  ∧ enabled (button (SpinningButton.start_spin store_idle_disabled).2) = false
  ∧ enabled (button ((SpinningButton.start_spin ;; SpinningButton.enable_button)
                       store_idle_disabled).2) = true.
Proof. vm_compute. repeat split; reflexivity. Qed.

Section RebindClaim.

Context {S : Type} `{!SignalProtocol.Signal S}.

(** C3 — [set_enable_signal], whatever is bound before: the call returns
    (no exception reaches the caller); its first call on the toolkit is
    the disconnect of [enable_button] from the signal bound before, if
    any, whose failure is swallowed; given [None] it makes no other call
    and leaves no stop signal recorded; given a signal it disconnects
    [enable_button] from it, connects it, and records the signal exactly
    when that connect returned — when it raised, no stop signal is
    recorded, neither the new one nor the one bound before.  Nothing else
    of the button changes. *)
Theorem set_enable_signal_rebinds (signal_stop_spinning : option objid) (w : World S) :
  let r := SpinningButton.set_enable_signal signal_stop_spinning w in
  r.1 = Returned tt
  ∧ with__stop_signal (_stop_signal (button w)) (button r.2) = button w
  ∧ lists r.2 = lists w ∧ emitted r.2 = emitted w ∧ debug_log r.2 = debug_log w
  ∧ ∃ trace,
      calls r.2 = calls w ++ trace
      ∧ match signal_stop_spinning with
        | None =>
            trace.*1 = unbind_calls (_stop_signal (button w))
            ∧ _stop_signal (button r.2) = None
        | Some new =>
            ∃ res,
              trace.*1 = unbind_calls (_stop_signal (button w))
                         ++ [Call_disconnect new (Some H_enable_button);
                             Call_connect new H_enable_button]
              ∧ last trace = Some (Call_connect new H_enable_button, res)
              ∧ _stop_signal (button r.2) =
                  match res with None => Some new | Some _ => None end
        end.
Proof.
  intros r.
  assert (Hr : r = SpinningButton.set_enable_signal signal_stop_spinning w) by reflexivity.
  clearbody r.
  unfold SpinningButton.set_enable_signal in Hr.
  unfold bind at 1, SpinningButton.self at 1 in Hr. unfold bind at 1 in Hr.
  destruct (unbind_spec w) as (Hr1 & Hl & Hd & Hb & He & t1 & Hc & Ht1).
  simpl in Hr1, Hl, Hd, Hb, He, Hc.
  destruct ((match _stop_signal (button w) with
             | Some old => SpinningButton._disconnect_signal old H_enable_button
             | None => ret tt
             end) w) as [o1 w1]; simpl in *. subst o1.
  unfold bind at 1, SpinningButton.update_self at 1, modify at 1 in Hr.
  set (w2 := set_button (with__stop_signal None (button w1)) w1) in Hr.
  destruct signal_stop_spinning as [new|].
  - unfold bind at 1, SpinningButton.update_self at 1, modify at 1 in Hr.
    set (w3 := set_button (with__stop_signal (Some new) (button w2)) w2) in Hr.
    unfold bind at 1 in Hr.
    destruct (_disconnect_signal_spec new H_enable_button w3)
      as (Hr4 & Hl4 & Hd4 & Hb4 & He4 & res4 & Hc4).
    destruct (SpinningButton._disconnect_signal new H_enable_button w3) as [o4 w4].
    simpl in Hr4, Hl4, Hd4, Hb4, He4, Hc4. subst o4.
    unfold try_except in Hr.
    pose proof (call_connect_frame new H_enable_button w4) as (Hl5 & Hd5 & Hb5 & He5 & Hc5 & Hf5).
    destruct (call_connect new H_enable_button w4) as [[[]|e|] w5];
      simpl in Hl5, Hd5, Hb5, He5, Hc5, Hf5; [| |done].
    + subst r. cbn [fst snd]. repeat split.
      * rewrite Hb5, Hb4. subst w3 w2; simpl. rewrite Hb. by destruct (button w).
      * by rewrite Hl5, Hl4.
      * by rewrite He5, He4.
      * by rewrite Hd5, Hd4.
      * exists (t1 ++ [(Call_disconnect new (Some H_enable_button), res4);
                       (Call_connect new H_enable_button, None)]).
        split.
        { rewrite Hc5, Hc4. subst w3 w2; simpl. rewrite Hc, <- !app_assoc. done. }
        exists None. repeat split.
        -- by rewrite fmap_app, Ht1.
        -- by rewrite last_app.
        -- rewrite Hb5, Hb4. by subst w3 w2.
    + cbn [is_Exception] in Hr.
      unfold SpinningButton.update_self, modify in Hr. subst r. cbn [fst snd].
      repeat split.
      * cbn [button set_button]. rewrite Hb5, Hb4. subst w3 w2; simpl.
        rewrite Hb. by destruct (button w).
      * cbn [lists set_button]. by rewrite Hl5, Hl4.
      * cbn [emitted set_button]. by rewrite He5, He4.
      * cbn [debug_log set_button]. by rewrite Hd5, Hd4.
      * exists (t1 ++ [(Call_disconnect new (Some H_enable_button), res4);
                       (Call_connect new H_enable_button, Some e)]).
        split.
        { cbn [calls set_button]. rewrite Hc5, Hc4. subst w3 w2; simpl.
          rewrite Hc, <- !app_assoc. done. }
        exists (Some e). repeat split.
        -- by rewrite fmap_app, Ht1.
        -- by rewrite last_app.
  - unfold ret in Hr; subst r w2; simpl. repeat split; try done.
    + rewrite Hb. by destruct (button w).
    + by exists t1.
Qed.

End RebindClaim.

(** The stop signal at work: firing the bound signal of a spinning button
    makes it idle and emits ["stopped spinning"] once; firing it again
    emits nothing more. *)
Example stop_signal_fires_once :
  _spinning (button store_spinning_bound) = true
  ∧ _spinning (button (SpinningButton.fire 1%nat store_spinning_bound).2) = false
  ∧ emitted ((SpinningButton.fire 1%nat ;; SpinningButton.fire 1%nat)
               store_spinning_bound).2
    = [signal_started_spinning; signal_stopped_spinning].
Proof. vm_compute. repeat split; reflexivity. Qed.

(** Rebinding: after [set_enable_signal] with signal 3 the old signal 1 no
    longer stops the spin and signal 3 does; binding the deleted signal 2
    fails and leaves no stop signal recorded. *)
Example rebinding_moves_the_trigger :
  let rebound := (SpinningButton.set_enable_signal (Some 3%nat) store_spinning_bound).2 in
  let failed := (SpinningButton.set_enable_signal (Some 2%nat) store_spinning_bound).2 in
  _stop_signal (button rebound) = Some 3%nat
  ∧ _spinning (button (SpinningButton.fire 1%nat rebound).2) = true
  ∧ _spinning (button (SpinningButton.fire 3%nat rebound).2) = false
  ∧ _stop_signal (button failed) = None
  ∧ _spinning (button (SpinningButton.fire 1%nat failed).2) = true.
Proof. vm_compute. repeat split; reflexivity. Qed.

Section TimeClaims.

Context {S : Type} `{!SignalProtocol.Signal S}.
Variable svg_isValid : string → bool.
Variable DEFAULT_SPINNER_SVG : string.
Variable QPushButton_sizeHint : SpinningButton → QSize.

(** C9 — after a construction that succeeded, and after any sequence of
    operations on the button that follows it ([start_spin],
    [enable_button], the tick [rotate_svg], and the others: clicks,
    [set_enable_signal], [setIconSize], [sizeHint], the firing of a signal
    and the passing of time), the rotation angle is a multiple of 10 with
    [0 <= rotation_angle < 360]. *)
Theorem rotation_angle_invariant (txt : string) (sig : option objid) (eic : QIcon)
    (svgc : option string) (T : Z) (dws : bool) (os : list SpinningButton.Op)
    (w : World S) :
  let built :=
    SpinningButton.init svg_isValid DEFAULT_SPINNER_SVG txt sig eic svgc T dws w in
  built.1 = Returned tt →
  angle_ok (button built.2)
  ∧ angle_ok (button (SpinningButton.run_ops QPushButton_sizeHint os built.2).2).
Proof.
  intros built Hret.
  destruct (init_spec _ _ _ _ _ _ _ _ _ Hret) as (content & stop & Hb & _).
  fold built in Hb.
  assert (Hok : angle_ok (button built.2)).
  { rewrite Hb. unfold angle_ok; cbn. split; [reflexivity | lia]. }
  split; [exact Hok|].
  apply (preserves_run_ops angle_ok QPushButton_sizeHint (λ _, true)); [| |exact Hok].
  - intros o _. apply angle_ok_run_op.
  - by apply Forall_forall.
Qed.

(** C6 — the timeout law.  Take a button built with [timeout = T], in any
    idle state it has reached by operations on it.  [start_spin] sets it
    spinning and emits ["started spinning"].  When [T > 0] the call starts
    the single-shot timeout timer, connected to [enable_button], with
    [T * 1000] milliseconds; on the virtual clock, in either firing order
    of the two timers, the button is spinning after [ms] milliseconds
    exactly when [ms < T * 1000], and from then on it is idle with
    ["stopped spinning"] emitted once.  When [T] is not positive the
    timeout timer is not started, and no sequence of operations without
    [enable_button] and the firing of a signal (ticks, the passing of time,
    clicks, further [start_spin] calls) ends the spinning or starts that
    timer; [enable_button] then does. *)
Theorem timeout_law (txt : string) (sig : option objid) (eic : QIcon)
    (svgc : option string) (T : Z) (dws : bool) (timeout_first : bool) (ms : nat)
    (before os : list SpinningButton.Op) (w : World S) :
  let built :=
    SpinningButton.init svg_isValid DEFAULT_SPINNER_SVG txt sig eic svgc T dws w in
  built.1 = Returned tt →
  let idle := (SpinningButton.run_ops QPushButton_sizeHint before built.2).2 in
  _spinning (button idle) = false →
  let started := (SpinningButton.start_spin idle).2 in
  let later := (SpinningButton.elapse timeout_first ms started).2 in
  let after_ops := (SpinningButton.run_ops QPushButton_sizeHint os started).2 in
  _spinning (button built.2) = false
  ∧ _spinning (button started) = true
  ∧ emitted started = emitted idle ++ [signal_started_spinning]
  ∧ if 0 <? T
    then timeout_timer (button started)
           = mkQTimer (T * 1000) true true (T * 1000) [H_enable_button]
         ∧ _spinning (button later) = bool_decide (Z.of_nat ms < T * 1000)
         ∧ emitted later
           = emitted started
             ++ (if bool_decide (Z.of_nat ms < T * 1000) then []
                 else [signal_stopped_spinning])
    else isActive (timeout_timer (button started)) = false
         ∧ (Forall (λ o, quiet o = true) os →
            _spinning (button after_ops) = true
            ∧ isActive (timeout_timer (button after_ops)) = false
            ∧ _spinning (button (SpinningButton.enable_button after_ops).2) = false).
Proof.
  intros built Hret idle Hidle started later after_ops.
  destruct (init_spec _ _ _ _ _ _ _ _ _ Hret) as (content & stop & Hb & _).
  fold built in Hb.
  assert (Hwired : wired T (button idle)).
  { apply (preserves_run_ops (wired T) QPushButton_sizeHint (λ _, true)).
    - intros o _. apply wired_run_op.
    - by apply Forall_forall.
    - by eapply wired_after_init. }
  destruct (start_spin_when_wired T idle Hwired Hidle) as (Hspin & Hstarted & Hcase).
  fold started in Hspin, Hstarted, Hcase.
  split; [by rewrite Hb|]. split; [exact Hspin|]. split; [exact Hstarted|].
  destruct (0 <? T) eqn:HT.
  - apply Z.ltb_lt in HT. pose proof Hcase as (_ & Htimer & _).
    split; [exact Htimer|].
    subst later. case_bool_decide as Hms.
    + destruct (elapse_before_timeout timeout_first T ms _ _ Hcase Hms) as [(Hs & _) He].
      split; [exact Hs | by rewrite He, app_nil_r].
    + destruct (elapse_after_timeout timeout_first T ms (T * 1000) started Hcase)
        as [(Hs & _) He]; [lia|].
      split; [exact Hs | exact He].
  - pose proof Hcase as (_ & _ & Hto & _).
    split; [exact Hto|]. intros Hquiet.
    assert (Hafter : spins_without_timeout (button after_ops)).
    { apply (preserves_run_ops spins_without_timeout QPushButton_sizeHint quiet);
        [intros o Ho; by apply spins_run_op | exact Hquiet | exact Hcase]. }
    destruct Hafter as (Hs & _ & Hi & _).
    split; [exact Hs|]. split; [exact Hi|].
    clear. clearbody after_ops. destruct_store after_ops. py_eval. by py_cases.
Qed.

End TimeClaims.

(** A button built with a timeout of two seconds, after one spin. *)
Lemma rotation_angle_invariant_witness :
  (build_two_seconds (empty_store two_signals)).1 = Returned tt
  ∧ angle_ok
      (button
         (SpinningButton.run_ops base_hint one_cycle
            (build_two_seconds (empty_store two_signals)).2).2).
Proof.
  assert (Hbuilt : (build_two_seconds (empty_store two_signals)).1 = Returned tt)
    by (vm_compute; reflexivity).
  split; [exact Hbuilt|].
  exact (proj2 (rotation_angle_invariant svg_always_valid spinner_svg base_hint
                  "go" None (Icon_handle 5%nat) None 2 true _ _ Hbuilt)).
Defined.

(** A second spin of a button built with a timeout of two seconds: the
    first spin was ended by [enable_button]. *)
Lemma timeout_law_witness :
  (build_two_seconds (empty_store two_signals)).1 = Returned tt
  ∧ _spinning (button (SpinningButton.run_ops base_hint one_cycle
                         (build_two_seconds (empty_store two_signals)).2).2) = false
  ∧ _spinning
      (button
         (SpinningButton.elapse true 1999
            (SpinningButton.start_spin
               (SpinningButton.run_ops base_hint one_cycle
                  (build_two_seconds (empty_store two_signals)).2).2).2).2)
    = bool_decide (Z.of_nat 1999 < 2 * 1000).
Proof.
  assert (Hbuilt : (build_two_seconds (empty_store two_signals)).1 = Returned tt)
    by (vm_compute; reflexivity).
  assert (Hidle : _spinning (button (SpinningButton.run_ops base_hint one_cycle
                     (build_two_seconds (empty_store two_signals)).2).2) = false)
    by (vm_compute; reflexivity).
  split; [exact Hbuilt|]. split; [exact Hidle|].
  destruct (timeout_law svg_always_valid spinner_svg base_hint
              "go" None (Icon_handle 5%nat) None 2 true true 1999 one_cycle []
              (empty_store two_signals) Hbuilt Hidle) as (_ & _ & _ & Hlaw).
  exact (proj1 (proj2 Hlaw)).
Defined.

(** * Further properties *)

(** ** Connecting and disconnecting *)

Section QtCalls.

Implicit Types (w : World QtSignal) (s : QtSignal) (o : objid) (h : Handler).

Lemma remove_first_absent h (l : list Handler) : h ∉ l → remove_first h l = l.
Proof.
  induction l as [|x l IH]; [done|]. intros [Hne Hnin]%not_elem_of_cons.
  cbn [remove_first]. destruct (decide (x = h)); [congruence|]. by rewrite IH.
Qed.

Lemma remove_first_snoc h (l : list Handler) : h ∉ l → remove_first h (l ++ [h]) = l.
Proof.
  induction l as [|x l IH]; intros Hnin.
  - cbn. by destruct (decide (h = h)).
  - apply not_elem_of_cons in Hnin as [Hne Hnin]. cbn.
    destruct (decide (x = h)); [congruence|]. by rewrite IH.
Qed.

Lemma remove_first_perm h (l : list Handler) : h ∈ l → l ≡ₚ h :: remove_first h l.
Proof.
  induction l as [|x l IH]; intros Hin; [by apply elem_of_nil in Hin|].
  cbn [remove_first]. destruct (decide (x = h)) as [->|Hne]; [done|].
  apply elem_of_cons in Hin as [->|Hin]; [done|].
  rewrite (IH Hin) at 1. apply Permutation_swap.
Qed.

Lemma remove_first_subseteq h (l : list Handler) : remove_first h l ⊆ l.
Proof.
  induction l as [|x l IH]; [done|]. cbn [remove_first].
  destruct (decide (x = h)).
  - intros y Hy. by right.
  - intros y [->|Hy]%elem_of_cons; [by left | right; by apply IH].
Qed.

Lemma elem_of_snoc h (l : list Handler) : h ∈ l ++ [h].
Proof. apply elem_of_app. right. by apply list_elem_of_singleton. Qed.

Lemma live_eta s : deleted s = false → s = mkQtSignal (slots s) false.
Proof. destruct s; simpl; by intros ->. Qed.

Lemma call_connect_live w o s h :
  signals w !! o = Some s → deleted s = false →
  call_connect o h w =
    (Returned tt,
     set_calls (calls w ++ [(Call_connect o h, None)])
       (set_signals (<[o := mkQtSignal (slots s ++ [h]) false]> (signals w)) w)).
Proof.
  intros Hs Hd. unfold call_connect; simpl. rewrite Hs; simpl.
  unfold qt_connect. by rewrite Hd.
Qed.

(** [disconnect(slot)] on a live signal: it breaks the oldest connection to
    [slot], or raises [TypeError] when there is none. *)
Lemma call_disconnect_slot_live w o s h :
  signals w !! o = Some s → deleted s = false →
  call_disconnect o (Some h) w =
    (if decide (h ∈ slots s) then Returned tt else Raised TypeError,
     set_calls (calls w ++ [(Call_disconnect o (Some h),
                             if decide (h ∈ slots s) then None else Some TypeError)])
       (set_signals (<[o := mkQtSignal (remove_first h (slots s)) false]> (signals w)) w)).
Proof.
  intros Hs Hd. unfold call_disconnect; simpl. rewrite Hs; simpl.
  unfold qt_disconnect. rewrite Hd.
  destruct (decide (h ∈ slots s)) as [Hin|Hnin]; simpl; [done|].
  by rewrite (remove_first_absent _ _ Hnin), <- (live_eta s Hd).
Qed.

End QtCalls.

Section SignalsFrame.

Context {S : Type} `{!SignalProtocol.Signal S}.

Lemma call_disconnect_other (signal o : objid) (slot : option Handler) (w : World S) :
  o ≠ signal → signals (call_disconnect signal slot w).2 !! o = signals w !! o.
Proof.
  intros Hne. unfold call_disconnect.
  destruct (signals w !! signal) as [s|]; simpl; [|done].
  destruct (SignalProtocol.disconnect s slot).2; simpl; by rewrite lookup_insert_ne.
Qed.

Lemma call_connect_other (signal o : objid) (h : Handler) (w : World S) :
  o ≠ signal → signals (call_connect signal h w).2 !! o = signals w !! o.
Proof.
  intros Hne. unfold call_connect.
  destruct (signals w !! signal) as [s|]; simpl; [|done].
  destruct (SignalProtocol.connect s h).2; simpl; by rewrite lookup_insert_ne.
Qed.

End SignalsFrame.

Section ConnectClaims.

Context {S : Type} `{!SignalProtocol.Signal S}.

(** X1 — [connect_signal] returns the pair [(signal, handler)] exactly when
    the signal's [connect] returned, and lets its exception through
    otherwise (an object without [connect] raises [AttributeError]); it
    touches no list.  [connect_signal_and_append] makes the same call: when
    it raises, the exception reaches the caller and the store is as
    [connect_signal] leaves it, no list changed; when it returns, the pair,
    and nothing else, has been appended to the caller's list. *)
Theorem connect_signal_and_append_atomic (l signal : objid) (h : Handler) (w : World S) :
  let c := SignalTools.connect_signal signal h w in
  let r := SignalTools.connect_signal_and_append l signal h w in
  c.1 = match signals w !! signal with
        | None => Raised AttributeError
        | Some s => match (SignalProtocol.connect s h).2 with
                    | Some e => Raised e
                    | None => Returned (signal, h)
                    end
        end
  ∧ lists c.2 = lists w
  ∧ calls c.2 = calls w ++ [(Call_connect signal h,
                             match c.1 with Raised e => Some e | _ => None end)]
  ∧ match c.1 with
    | Returned p =>
        r.1 = Returned tt
        ∧ r.2 = set_lists (<[l := list_items w l ++ [p]]> (lists w)) c.2
    | Raised e => r = (Raised e, c.2)
    | OutOfFuel => False
    end.
Proof.
  unfold SignalTools.connect_signal, SignalTools.connect_signal_and_append, bind,
    call_connect, list_append, list_items; simpl.
  destruct (signals w !! signal) as [s|]; simpl; [|done].
  destruct (SignalProtocol.connect s h).2 as [e|]; simpl; done.
Qed.

End ConnectClaims.

(** X2 — round trip on a live signal: connecting with [connect_signal] and
    handing the pair it returns to [disconnect_signal] makes two calls that
    both return, writes nothing to the debug log, leaves the other signals
    alone and leaves the signal with the receivers it had, in some order;
    the signal map is exactly as before when the handler was not connected
    beforehand. *)
Theorem connect_signal_round_trip (signal : objid) (h : Handler) (s : QtSignal)
    (w : World QtSignal) :
  signals w !! signal = Some s → deleted s = false →
  let r := (let! p := SignalTools.connect_signal signal h in
            SignalTools.disconnect_signal p.1 (Some p.2)) w in
  r.1 = Returned tt
  ∧ calls r.2 = calls w ++ [(Call_connect signal h, None);
                            (Call_disconnect signal (Some h), None)]
  ∧ debug_log r.2 = debug_log w ∧ lists r.2 = lists w
  ∧ button r.2 = button w ∧ emitted r.2 = emitted w
  ∧ (∀ o, o ≠ signal → signals r.2 !! o = signals w !! o)
  ∧ (∃ s', signals r.2 !! signal = Some s' ∧ deleted s' = false
           ∧ slots s' ≡ₚ slots s)
  ∧ (h ∉ slots s → signals r.2 = signals w).
Proof.
  intros Hs Hd r.
  assert (Hr : r = (Returned tt,
            set_calls (calls w ++ [(Call_connect signal h, None);
                                   (Call_disconnect signal (Some h), None)])
              (set_signals (<[signal := mkQtSignal (remove_first h (slots s ++ [h])) false]>
                              (signals w)) w))).
  { subst r. unfold bind, SignalTools.connect_signal, bind.
    rewrite (call_connect_live w signal s h Hs Hd). cbn [ret fst snd].
    unfold SignalTools.disconnect_signal, try_except.
    erewrite call_disconnect_slot_live; [| by apply lookup_insert_eq | done].
    cbn [slots]. rewrite !decide_True by apply elem_of_snoc.
    unfold set_calls, set_signals; cbn. by rewrite insert_insert_eq, <- app_assoc. }
  clearbody r. subst r. cbn. repeat split.
  - intros o Hne. by rewrite lookup_insert_ne.
  - eexists. rewrite lookup_insert_eq. split; [done|]. split; [done|]. cbn.
    apply (Permutation_cons_inv (a:=h)).
    rewrite <- remove_first_perm by apply elem_of_snoc.
    by rewrite Permutation_app_comm.
  - intros Hnin. rewrite (remove_first_snoc _ _ Hnin), <- (live_eta s Hd).
    by apply insert_id.
Qed.

(** Signal 1, live with one foreign receiver, and a handler new to it. *)
Lemma connect_signal_round_trip_witness :
  signals (empty_store two_signals) !! 1%nat = Some signal_1
  ∧ deleted signal_1 = false
  ∧ signals ((let! p := SignalTools.connect_signal 1%nat (H_callable 8%nat) in
              SignalTools.disconnect_signal p.1 (Some p.2)) (empty_store two_signals)).2
    = signals (empty_store two_signals).
Proof.
  assert (Hs : signals (empty_store two_signals) !! 1%nat = Some signal_1)
    by (vm_compute; reflexivity).
  assert (Hd : deleted signal_1 = false) by reflexivity.
  split; [exact Hs|]. split; [exact Hd|].
  destruct (connect_signal_round_trip 1%nat (H_callable 8%nat) signal_1
              (empty_store two_signals) Hs Hd) as (_ & _ & _ & _ & _ & _ & _ & _ & Hexact).
  apply Hexact. vm_compute. intros Hin.
  apply elem_of_cons in Hin as [Hin|Hin]; [discriminate | by apply elem_of_nil in Hin].
Defined.

(** ** Batches and teardown *)

Section BatchFacts.

Context {S : Type} `{!SignalProtocol.Signal S}.

Lemma connect_signal_and_append_spec (l signal : objid) (h : Handler) (w : World S) :
  let r := SignalTools.connect_signal_and_append l signal h w in
  debug_log r.2 = debug_log w ∧ button r.2 = button w ∧ emitted r.2 = emitted w
  ∧ (∀ l', l' ≠ l → lists r.2 !! l' = lists w !! l')
  ∧ ∃ res, calls r.2 = calls w ++ [(Call_connect signal h, res)]
           ∧ r.1 = match res with None => Returned tt | Some e => Raised e end
           ∧ list_items r.2 l = list_items w l ++ recorded [(Call_connect signal h, res)].
Proof.
  unfold SignalTools.connect_signal_and_append, bind, call_connect, list_append; simpl.
  destruct (signals w !! signal) as [s|]; simpl.
  - destruct (SignalProtocol.connect s h).2 as [e|] eqn:He; simpl.
    + repeat split; try done. exists (Some e). by rewrite app_nil_r.
    + repeat split; try done.
      * intros l' Hne. by rewrite lookup_insert_ne.
      * exists None. unfold list_items; simpl. by rewrite lookup_insert_eq.
  - repeat split; try done. exists (Some AttributeError). by rewrite app_nil_r.
Qed.

Lemma recorded_app (t1 t2 : list CallRecord) :
  recorded (t1 ++ t2) = recorded t1 ++ recorded t2.
Proof. apply omap_app. Qed.

Lemma recorded_length (t : list CallRecord) : (length (recorded t) ≤ length t)%nat.
Proof.
  induction t as [|c t IH]; [done|].
  unfold recorded in *. cbn [omap list_omap]. destruct (connected_of c); simpl; lia.
Qed.

Lemma connect_each_cons (l : objid) (rq : Subscription) (rest : list Subscription)
    (w : World S) :
  connect_each l (rq :: rest) w =
  connect_each l rest (SignalTools.connect_signal_and_append l rq.1 rq.2 w).2.
Proof.
  cbn [connect_each]. unfold bind at 1, try_except.
  destruct (connect_signal_and_append_spec l rq.1 rq.2 w)
    as (_ & _ & _ & _ & res & _ & Hr & _).
  destruct (SignalTools.connect_signal_and_append l rq.1 rq.2 w) as [[[]|e|] w1];
    cbn [fst snd] in *; [done|done|by destruct res].
Qed.

(** The batch: one connect call per request, in order, and the list grows
    by the requests whose connect returned. *)
Lemma connect_each_spec (l : objid) (reqs : list Subscription) :
  ∀ w : World S,
    let r := connect_each l reqs w in
    r.1 = Returned tt
    ∧ debug_log r.2 = debug_log w ∧ button r.2 = button w ∧ emitted r.2 = emitted w
    ∧ (∀ l', l' ≠ l → lists r.2 !! l' = lists w !! l')
    ∧ ∃ trace, calls r.2 = calls w ++ trace
               ∧ trace.*1 = map connect_call_of reqs
               ∧ list_items r.2 l = list_items w l ++ recorded trace.
Proof.
  induction reqs as [|rq rest IH]; intros w.
  { simpl. repeat split; try done. exists []. by rewrite !app_nil_r. }
  rewrite connect_each_cons.
  destruct (connect_signal_and_append_spec l rq.1 rq.2 w)
    as (Hd & Hb & He & Ho & res & Hc & _ & Hl).
  destruct (SignalTools.connect_signal_and_append l rq.1 rq.2 w) as [o1 w1].
  cbn [fst snd] in *.
  destruct (IH w1) as (IHr & IHd & IHb & IHe & IHo & trace & IHc & IHt & IHl).
  cbn zeta in *. repeat split.
  - done.
  - congruence.
  - congruence.
  - congruence.
  - intros l' Hne. by rewrite IHo, Ho.
  - exists ((Call_connect rq.1 rq.2, res) :: trace). repeat split.
    + by rewrite IHc, Hc, <- app_assoc.
    + by rewrite fmap_cons, IHt.
    + rewrite IHl, Hl, <- app_assoc.
      by rewrite <- recorded_app.
Qed.

End BatchFacts.

Section BatchClaims.

Context {S : Type} `{!SignalProtocol.Signal S}.

(** X3 — bookkeeping of [connect_signal_and_append] and
    [disconnect_signals] on a caller's list: a batch of requests makes one
    connect call each, in order, and the list grows by exactly the requests
    whose connect returned; [disconnect_signals] then returns, having made
    one disconnect call for each record the list held, those from before
    the batch included, newest first, and leaves the list empty and every
    other list untouched. *)
Theorem connect_each_then_disconnect_signals (l : objid) (reqs : list Subscription)
    (fuel : nat) (w : World S) :
  (length (list_items w l) + length reqs < fuel)%nat →
  let r1 := connect_each l reqs w in
  let r2 := SignalTools.disconnect_signals fuel l r1.2 in
  r1.1 = Returned tt ∧ r2.1 = Returned tt
  ∧ ∃ t1 t2,
      calls r1.2 = calls w ++ t1
      ∧ t1.*1 = map connect_call_of reqs
      ∧ list_items r1.2 l = list_items w l ++ recorded t1
      ∧ calls r2.2 = calls w ++ t1 ++ t2
      ∧ t2.*1 = map disconnect_call_of (reverse (list_items w l ++ recorded t1))
      ∧ list_items r2.2 l = []
      ∧ (∀ l', l' ≠ l → lists r2.2 !! l' = lists w !! l').
Proof.
  intros Hfuel r1 r2.
  destruct (connect_each_spec l reqs w) as (Hr1 & _ & _ & _ & Ho1 & t1 & Hc1 & Ht1 & Hl1).
  fold r1 in Hr1, Ho1, Hc1, Hl1.
  assert (Hlen : (length (list_items r1.2 l) < fuel)%nat).
  { rewrite Hl1, length_app. pose proof (recorded_length t1) as Hle.
    assert (length t1 = length reqs) as Heq.
    { apply (f_equal length) in Ht1. by rewrite length_fmap, length_map in Ht1. }
    lia. }
  destruct (disconnect_signals_spec l fuel r1.2 Hlen)
    as (Hr2 & Hl2 & Ho2 & _ & _ & t2 & Hc2 & Ht2 & _).
  fold r2 in Hr2, Hl2, Ho2, Hc2.
  split; [done|]. split; [done|].
  exists t1, t2. repeat split; try done.
  - by rewrite Hc2, Hc1, <- app_assoc.
  - by rewrite Ht2, Hl1.
  - intros l' Hne. by rewrite Ho2, Ho1.
Qed.

End BatchClaims.

(** A batch of which one connect returns and two raise. *)
Lemma connect_each_then_disconnect_signals_witness :
  (length (list_items (empty_store two_signals) 0%nat) + length mixed_batch < 4)%nat
  ∧ (SignalTools.disconnect_signals 4 0%nat
       (connect_each 0%nat mixed_batch (empty_store two_signals)).2).1 = Returned tt.
Proof.
  assert (Hfuel : (length (list_items (empty_store two_signals) 0%nat)
                   + length mixed_batch < 4)%nat) by (vm_compute; lia).
  split; [exact Hfuel|].
  exact (proj1 (proj2 (connect_each_then_disconnect_signals 0%nat mixed_batch 4
                         (empty_store two_signals) Hfuel))).
Defined.

Section TeardownTwice.

Context {S : Type} `{!SignalProtocol.Signal S}.

(** X4 — nothing is left after a teardown: a second [disconnect_all] right
    after the first returns without a call on any signal and changes
    nothing.  And a tracker fresh from [__init__] has a list of its own,
    which no reference of the store denoted before; it holds no record, and
    its [disconnect_all] changes nothing either. *)
Theorem disconnect_all_nothing_left (self : SignalTracker.t) (fuel k : nat) (w : World S) :
  (length (list_items w (SignalTracker._connected_signals self)) < fuel)%nat →
  let r := SignalTracker.disconnect_all fuel self w in
  SignalTracker.disconnect_all (Datatypes.S k) self r.2 = (Returned tt, r.2)
  ∧ ∃ t w0,
      SignalTracker.init w = (Returned t, w0)
      ∧ lists w !! SignalTracker._connected_signals t = None
      ∧ (∀ l, l ≠ SignalTracker._connected_signals t → lists w0 !! l = lists w !! l)
      ∧ calls w0 = calls w
      ∧ SignalTracker.disconnect_all (Datatypes.S k) t w0 = (Returned tt, w0).
Proof.
  intros Hfuel r. split.
  - destruct (disconnect_signals_spec (SignalTracker._connected_signals self) fuel w Hfuel)
      as (_ & Hempty & _).
    unfold SignalTracker.disconnect_all in *. by apply disconnect_signals_nil.
  - unfold SignalTracker.init, bind, list_new. cbn [ret].
    eexists _, _. split; [reflexivity|]. cbn [SignalTracker._connected_signals].
    repeat split.
    + apply not_elem_of_dom, is_fresh.
    + intros l Hne. cbn. by rewrite lookup_insert_ne.
    + unfold SignalTracker.disconnect_all. apply disconnect_signals_nil.
      unfold list_items; cbn. by rewrite lookup_insert_eq.
Qed.

End TeardownTwice.

(** The tracker whose three disconnects all raise. *)
Lemma disconnect_all_nothing_left_witness :
  (length (list_items store_all_failing (SignalTracker._connected_signals tracker_0)) < 4)%nat
  ∧ SignalTracker.disconnect_all 1 tracker_0
      (SignalTracker.disconnect_all 4 tracker_0 store_all_failing).2
    = (Returned tt, (SignalTracker.disconnect_all 4 tracker_0 store_all_failing).2).
Proof.
  assert (Hfuel : (length (list_items store_all_failing
                             (SignalTracker._connected_signals tracker_0)) < 4)%nat)
    by (vm_compute; lia).
  split; [exact Hfuel|].
  exact (proj1 (disconnect_all_nothing_left tracker_0 4 0 store_all_failing Hfuel)).
Defined.

(** ** The life of a tracker *)

Section SessionFacts.

Implicit Types (w : World QtSignal) (s : QtSignal) (o l : objid) (h : Handler).

Lemma pending_app o (i1 i2 : list Subscription) :
  pending o (i1 ++ i2) = pending o i1 ++ pending o i2.
Proof. apply omap_app. Qed.

Lemma pending_snoc_eq o h (items : list Subscription) :
  pending o (items ++ [(o, h)]) = pending o items ++ [h].
Proof. rewrite pending_app. cbn. by rewrite decide_True. Qed.

Lemma pending_snoc_ne o o' h (items : list Subscription) :
  o' ≠ o → pending o (items ++ [(o', h)]) = pending o items.
Proof. intros Hne. rewrite pending_app. cbn. by rewrite decide_False, app_nil_r. Qed.

Lemma remove_first_app_r h (l q : list Handler) :
  h ∉ l → remove_first h (l ++ q) = l ++ remove_first h q.
Proof.
  induction l as [|x l IH]; [done|]. intros [Hne Hnin]%not_elem_of_cons.
  cbn. destruct (decide (x = h)); [congruence|]. by rewrite IH.
Qed.

Lemma tracks_refl all w w' : signals w' = signals w → tracks all [] w w'.
Proof.
  intros Heq o. rewrite Heq. destruct (signals w !! o) as [s|]; [|done].
  split; [done|]. split; [by rewrite app_nil_r|]. intros _. exists []. by rewrite app_nil_r.
Qed.

Lemma tracks_live all items w w' o :
  tracks all items w w' → live w o →
  ∃ s s', signals w !! o = Some s ∧ signals w' !! o = Some s' ∧ deleted s' = false
          ∧ slots s' ≡ₚ slots s ++ pending o items.
Proof.
  intros Ht (s & Hs & Hd). specialize (Ht o). rewrite Hs in Ht.
  destruct (signals w' !! o) as [s'|]; [|done].
  destruct Ht as (Hd' & Hp & _). exists s, s'. repeat split; try done. congruence.
Qed.

(** The store after one more connect on a live signal. *)
Lemma tracks_connect all items w w' o h s' v :
  tracks all items w w' → signals w' !! o = Some s' →
  signals v = <[o := mkQtSignal (slots s' ++ [h]) false]> (signals w') →
  deleted s' = false →
  tracks all (items ++ [(o, h)]) w v.
Proof.
  intros Ht Hs' Hv Hd' o'. specialize (Ht o'). rewrite Hv.
  destruct (decide (o' = o)) as [->|Hne].
  - rewrite lookup_insert_eq. rewrite Hs' in Ht.
    destruct (signals w !! o) as [s|]; [|done].
    destruct Ht as (Hd & Hp & Hq). cbn. split; [congruence|]. split.
    + by rewrite pending_snoc_eq, Hp, app_assoc.
    + intros Hfresh. destruct (Hq Hfresh) as [q ->]. exists (q ++ [h]).
      by rewrite app_assoc.
  - rewrite lookup_insert_ne by done. rewrite pending_snoc_ne by done. exact Ht.
Qed.

(** The store after the newest record has been disconnected. *)
Lemma tracks_disconnect all items w w' o h s' v :
  tracks all (items ++ [(o, h)]) w w' → signals w' !! o = Some s' →
  signals v = <[o := mkQtSignal (remove_first h (slots s')) false]> (signals w') →
  deleted s' = false → h ∈ slots s' → h ∈ pending o all →
  tracks all items w v.
Proof.
  intros Ht Hs' Hv Hd' Hin Hall o'. specialize (Ht o'). rewrite Hv.
  destruct (decide (o' = o)) as [->|Hne].
  - rewrite lookup_insert_eq. rewrite Hs' in Ht.
    destruct (signals w !! o) as [s|]; [|done].
    destruct Ht as (Hd & Hp & Hq). cbn. split; [congruence|]. split.
    + apply (Permutation_cons_inv (a:=h)).
      rewrite <- remove_first_perm by done.
      rewrite Hp, pending_snoc_eq, app_assoc. by rewrite Permutation_app_comm.
    + intros Hfresh. destruct (Hq Hfresh) as [q Hq'].
      exists (remove_first h q). rewrite Hq'.
      apply remove_first_app_r. by apply Hfresh.
  - rewrite lookup_insert_ne by done. rewrite pending_snoc_ne in Ht by done. exact Ht.
Qed.

Lemma tracks_done all w w' :
  tracks all [] w w' →
  same_receivers w w'
  ∧ ((∀ rq s, rq ∈ all → signals w !! rq.1 = Some s → rq.2 ∉ slots s) →
     signals w' = signals w).
Proof.
  intros Ht. split.
  - intros o. specialize (Ht o).
    destruct (signals w !! o) as [s|], (signals w' !! o) as [s'|]; try done.
    destruct Ht as (Hd & Hp & _). split; [done|]. by rewrite app_nil_r in Hp.
  - intros Hfresh. apply map_eq. intros o. specialize (Ht o).
    destruct (signals w !! o) as [s|] eqn:Hs, (signals w' !! o) as [s'|]; try done.
    destruct Ht as (Hd & Hp & Hq).
    destruct Hq as [q Hq].
    { intros h Hh. unfold pending in Hh. apply list_elem_of_omap in Hh as (rq & Hrq & Hsome).
      destruct (decide (rq.1 = o)) as [<-|]; [|done]. injection Hsome as <-.
      by apply (Hfresh rq s). }
    assert (q = []) as ->.
    { apply Permutation_length in Hp. rewrite Hq, app_nil_r, length_app in Hp.
      destruct q; [done | simpl in Hp; lia]. }
    rewrite app_nil_r in Hq. f_equal. destruct s, s'; simpl in *; congruence.
Qed.

Lemma tracker_connect_live (self : SignalTracker.t) w o s h :
  signals w !! o = Some s → deleted s = false →
  SignalTracker.connect self o h w =
    (Returned tt,
     set_lists (<[SignalTracker._connected_signals self :=
                    list_items w (SignalTracker._connected_signals self) ++ [(o, h)]]>
                  (lists w))
       (set_calls (calls w ++ [returned (Call_connect o h)])
          (set_signals (<[o := mkQtSignal (slots s ++ [h]) false]> (signals w)) w))).
Proof.
  intros Hs Hd. unfold SignalTracker.connect, bind.
  by rewrite (call_connect_live w o s h Hs Hd).
Qed.

Lemma disconnect_signal_live w o s h :
  signals w !! o = Some s → deleted s = false → h ∈ slots s →
  SignalTools.disconnect_signal o (Some h) w =
    (Returned tt,
     set_calls (calls w ++ [returned (Call_disconnect o (Some h))])
       (set_signals (<[o := mkQtSignal (remove_first h (slots s)) false]> (signals w)) w)).
Proof.
  intros Hs Hd Hin. unfold SignalTools.disconnect_signal, try_except.
  rewrite (call_disconnect_slot_live w o s h Hs Hd). by rewrite !decide_True.
Qed.

(** Subscribing the rest of a batch, all on live signals: every connect
    returns and every request is recorded. *)
Lemma connect_all_tracks (self : SignalTracker.t) (all : list Subscription) w0 :
  ∀ (todo done : list Subscription) w,
    done ++ todo = all → Forall (λ rq, live w0 rq.1) todo →
    tracks all done w0 w →
    list_items w (SignalTracker._connected_signals self) = done →
    ∃ w', connect_all self todo w = (Returned tt, w')
          ∧ tracks all all w0 w'
          ∧ list_items w' (SignalTracker._connected_signals self) = all
          ∧ debug_log w' = debug_log w ∧ button w' = button w ∧ emitted w' = emitted w
          ∧ (∀ l', l' ≠ SignalTracker._connected_signals self →
                   lists w' !! l' = lists w !! l')
          ∧ calls w' = calls w ++ map (λ rq, returned (connect_call_of rq)) todo.
Proof.
  induction todo as [|[o h] todo IH]; intros done0 w Hall Hlive Ht Hl.
  { exists w. rewrite app_nil_r in Hall. subst all. rewrite app_nil_r.
    by repeat split. }
  apply Forall_cons in Hlive as [Hlo Hlive].
  destruct (tracks_live _ _ _ _ _ Ht Hlo) as (s & s' & Hs & Hs' & Hd' & _).
  cbn [connect_all fst snd]. unfold bind at 1.
  rewrite (tracker_connect_live self w o s' h Hs' Hd').
  set (w1 := set_lists _ _).
  destruct (IH (done0 ++ [(o, h)]) w1) as (w' & Hrun & Ht' & Hl' & Hd & Hb & He & Ho & Hc).
  - by rewrite <- app_assoc.
  - done.
  - by eapply (tracks_connect all done0 w0 w o h s' w1).
  - subst w1. unfold list_items at 1; cbn. rewrite lookup_insert_eq. cbn. by rewrite Hl.
  - exists w'. repeat split; try done.
    + intros l' Hne. rewrite (Ho l' Hne). subst w1; cbn. by rewrite lookup_insert_ne.
    + rewrite Hc. subst w1; cbn. by rewrite <- app_assoc.
Qed.

(** Tearing the records down, newest first: every disconnect returns and
    nothing is written to the debug log. *)
Lemma disconnect_signals_tracks (l : objid) (all : list Subscription) w0 (fuel : nat) :
  ∀ (items : list Subscription) w,
    items `prefix_of` all → Forall (λ rq, live w0 rq.1) items →
    tracks all items w0 w → list_items w l = items →
    (length items < fuel)%nat →
    ∃ w', SignalTools.disconnect_signals fuel l w = (Returned tt, w')
          ∧ tracks all [] w0 w'
          ∧ list_items w' l = []
          ∧ debug_log w' = debug_log w ∧ button w' = button w ∧ emitted w' = emitted w
          ∧ (∀ l', l' ≠ l → lists w' !! l' = lists w !! l')
          ∧ calls w' = calls w
                       ++ map (λ rq, returned (disconnect_call_of rq)) (reverse items).
Proof.
  induction fuel as [|fuel IH]; intros items w Hpre Hlive Ht Hl Hlen; [lia|].
  destruct (reverse items) as [|[o h] rest] eqn:Hrev.
  { assert (Hnil : items = []).
    { apply (f_equal reverse) in Hrev. by rewrite reverse_involutive in Hrev. }
    rewrite Hnil in *. rewrite (disconnect_signals_nil _ _ _ Hl).
    exists w. rewrite app_nil_r. by repeat split. }
  assert (Hitems : items = reverse rest ++ [(o, h)]).
  { apply (f_equal reverse) in Hrev. rewrite reverse_involutive in Hrev.
    by rewrite Hrev, reverse_cons. }
  rewrite (disconnect_signals_pop l fuel w (o, h) rest) by (by rewrite Hl).
  set (w1 := set_lists (<[l:=reverse rest]> (lists w)) w).
  clear Hrev. rewrite Hitems in *. clear Hitems items.
  apply Forall_app in Hlive as [Hlive Hlo]. apply Forall_cons in Hlo as [Hlo _].
  destruct (tracks_live _ _ _ _ _ Ht Hlo) as (s & s' & Hs & Hs' & Hd' & Hp).
  cbn [fst snd] in *.
  assert (Hin : h ∈ slots s').
  { rewrite Hp, pending_snoc_eq, app_assoc. apply elem_of_snoc. }
  assert (Hall : h ∈ pending o all).
  { destruct Hpre as [k ->]. rewrite pending_app, pending_snoc_eq.
    apply elem_of_app. left. apply elem_of_snoc. }
  rewrite (disconnect_signal_live w1 o s' h Hs' Hd' Hin). cbn [snd].
  set (w2 := set_calls _ _).
  destruct (IH (reverse rest) w2) as (w' & Hrun & Ht' & Hl' & Hd & Hb & He & Ho & Hc).
  - destruct Hpre as [k ->]. exists ([(o, h)] ++ k). by rewrite <- app_assoc.
  - done.
  - by eapply (tracks_disconnect all (reverse rest) w0 w o h s' w2).
  - subst w2 w1. unfold list_items; cbn. by rewrite lookup_insert_eq.
  - rewrite length_app in Hlen. simpl in Hlen. lia.
  - exists w'. repeat split; try done.
    + intros l' Hne. rewrite (Ho l' Hne). subst w2 w1; cbn. by rewrite lookup_insert_ne.
    + rewrite Hc. subst w2 w1; cbn. rewrite reverse_involutive, <- app_assoc. done.
Qed.

End SessionFacts.

(** X5 — the life of a tracker on live signals: it is made, a batch of
    handlers is connected through it, and it is torn down.  All calls
    return, nothing is logged, no list that existed before is touched, and
    every signal is left with the receivers it had, in some order; the
    signal map is exactly as before when none of the handlers was connected
    to its signal beforehand. *)
Theorem tracker_session_round_trip (reqs : list Subscription) (fuel : nat)
    (w : World QtSignal) :
  Forall (λ rq, live w rq.1) reqs → (length reqs < fuel)%nat →
  let r := tracker_session fuel reqs w in
  r.1 = Returned tt
  ∧ calls r.2 = calls w ++ map (λ rq, returned (connect_call_of rq)) reqs
                        ++ map (λ rq, returned (disconnect_call_of rq)) (reverse reqs)
  ∧ debug_log r.2 = debug_log w ∧ button r.2 = button w ∧ emitted r.2 = emitted w
  ∧ (∀ l, is_Some (lists w !! l) → lists r.2 !! l = lists w !! l)
  ∧ same_receivers w r.2
  ∧ ((∀ rq s, rq ∈ reqs → signals w !! rq.1 = Some s → rq.2 ∉ slots s) →
     signals r.2 = signals w).
Proof.
  intros Hlive Hfuel r.
  set (l := fresh (dom (lists w))).
  set (w1 := set_lists (<[l := []]> (lists w)) w).
  destruct (connect_all_tracks (SignalTracker.mk l) reqs w reqs [] w1)
    as (w2 & Hrun2 & Ht2 & Hl2 & Hd2 & Hb2 & He2 & Ho2 & Hc2).
  { done. } { done. } { by apply tracks_refl. }
  { unfold list_items; subst w1; cbn. by rewrite lookup_insert_eq. }
  destruct (disconnect_signals_tracks l reqs w fuel reqs w2)
    as (w3 & Hrun3 & Ht3 & Hl3 & Hd3 & Hb3 & He3 & Ho3 & Hc3); try done.
  assert (Hr : r = (Returned tt, w3)).
  { subst r. unfold tracker_session, bind at 1, SignalTracker.init, bind at 1, list_new.
    cbn [ret]. fold l. fold w1. unfold bind. rewrite Hrun2.
    unfold SignalTracker.disconnect_all. cbn [SignalTracker._connected_signals].
    exact Hrun3. }
  clearbody r. subst r. cbn [fst snd].
  destruct (tracks_done _ _ _ Ht3) as [Hsame Hexact].
  repeat split; try done.
  - rewrite Hc3, Hc2. by rewrite <- app_assoc.
  - by rewrite Hd3, Hd2.
  - by rewrite Hb3, Hb2.
  - by rewrite He3, He2.
  - intros l' Hsome. assert (l' ≠ l) as Hne.
    { intros ->. apply (is_fresh (dom (lists w))). by apply elem_of_dom. }
    rewrite (Ho3 l' Hne), (Ho2 l' Hne). subst w1; cbn. by rewrite lookup_insert_ne.
Qed.

(** The signals of [live_batch] are live. *)
Lemma live_batch_is_live : Forall (λ rq, live (empty_store three_signals) rq.1) live_batch.
Proof.
  repeat constructor; eexists; (split; [vm_compute; reflexivity | reflexivity]).
Defined.

(** Three subscriptions on the live signals 1 and 3. *)
Lemma tracker_session_round_trip_witness :
  Forall (λ rq, live (empty_store three_signals) rq.1) live_batch
  ∧ (length live_batch < 4)%nat
  ∧ (tracker_session 4 live_batch (empty_store three_signals)).1 = Returned tt
  ∧ same_receivers (empty_store three_signals)
      (tracker_session 4 live_batch (empty_store three_signals)).2.
Proof.
  assert (Hfuel : (length live_batch < 4)%nat) by (vm_compute; lia).
  split; [exact live_batch_is_live|]. split; [exact Hfuel|].
  destruct (tracker_session_round_trip live_batch 4 (empty_store three_signals)
              live_batch_is_live Hfuel) as (Hret & _ & _ & _ & _ & _ & Hsame & _).
  split; [exact Hret | exact Hsame].
Defined.

(** ** The sweep over the signals of an owner *)

Section SweepFacts.

Context {S : Type} `{!SignalProtocol.Signal S}.

Lemma is_TypeError_true (e : PyException) : is_TypeError e = true → e = TypeError.
Proof. by destruct e. Qed.

(** One turn of the loop of [_safe_disconnect]. *)
Lemma _safe_disconnect_step (fuel : nat) (o : objid) (w : World S) :
  SignalTools._safe_disconnect (Datatypes.S fuel) o w =
  match call_disconnect o None w with
  | (Returned _, w1) => SignalTools._safe_disconnect fuel o w1
  | (Raised e, w1) => if is_TypeError e then (Returned tt, w1) else (Raised e, w1)
  | (OutOfFuel, w1) => (OutOfFuel, w1)
  end.
Proof.
  cbn [SignalTools._safe_disconnect]. unfold bind at 1, try_except, bind at 1.
  destruct (call_disconnect o None w) as [[[]|e|] w1]; cbn; [done| |done].
  by destruct (is_TypeError e).
Qed.

(** What [_safe_disconnect] can touch, however it ends. *)
Lemma _safe_disconnect_frame (fuel : nat) (o : objid) :
  ∀ w : World S,
    let r := SignalTools._safe_disconnect fuel o w in
    lists r.2 = lists w ∧ debug_log r.2 = debug_log w ∧ button r.2 = button w
    ∧ emitted r.2 = emitted w
    ∧ (∀ o', o' ≠ o → signals r.2 !! o' = signals w !! o')
    ∧ (∃ new, calls r.2 = calls w ++ new
              ∧ Forall (λ c : CallRecord, c.1 = Call_disconnect o None) new)
    ∧ (∀ e, r.1 = Raised e → is_TypeError e = false).
Proof.
  induction fuel as [|fuel IH]; intros w.
  { cbn. repeat split; try done. exists []. by rewrite app_nil_r. }
  cbn zeta. rewrite _safe_disconnect_step.
  pose proof (call_disconnect_frame o None w) as (Hl & Hd & Hb & He & Hc & Hf).
  pose proof (λ o' Hne, call_disconnect_other o o' None w Hne) as Hs.
  destruct (call_disconnect o None w) as [[[]|e|] w1]; cbn [fst snd] in *; [| |done].
  - destruct (IH w1) as (IHl & IHd & IHb & IHe & IHs & (new & IHc & IHn) & IHr).
    cbn zeta in *. repeat split; try congruence.
    + intros o' Hne. by rewrite IHs, Hs.
    + exists ((Call_disconnect o None, None) :: new). split.
      * by rewrite IHc, Hc, <- app_assoc.
      * by constructor.
    + done.
  - assert (Hnew : ∃ new, calls w1 = calls w ++ new
                          ∧ Forall (λ c : CallRecord, c.1 = Call_disconnect o None) new).
    { eexists. split; [exact Hc|]. by repeat constructor. }
    destruct (is_TypeError e) eqn:Hte; cbn; repeat split; try done.
    intros e' [= <-]. done.
Qed.

(** The sweep at an attribute that holds a signal, and at one that holds
    another object. *)
Lemma sweep_at_signal (fuel : nat) (name : string) (o : objid)
    (rest : list (string * Attribute)) (w : World S) :
  String.eqb name "destroyed" = false → is_Some (signals w !! o) →
  SignalTools.disconnect_all_signals_from fuel ((name, Attr_object o) :: rest) w =
  match SignalTools._safe_disconnect fuel o w with
  | (Returned _, w1) => SignalTools.disconnect_all_signals_from fuel rest w1
  | (Raised e, w1) => (Raised e, w1)
  | (OutOfFuel, w1) => (OutOfFuel, w1)
  end.
Proof.
  intros Hname Hsig. cbn [SignalTools.disconnect_all_signals_from]. rewrite Hname.
  unfold bind at 1, SignalTools.isinstance_SignalProtocol at 1.
  rewrite bool_decide_eq_true_2 by done. reflexivity.
Qed.

Lemma sweep_at_other_object (fuel : nat) (name : string) (o : objid)
    (rest : list (string * Attribute)) (w : World S) :
  signals w !! o = None →
  SignalTools.disconnect_all_signals_from fuel ((name, Attr_object o) :: rest) w =
  SignalTools.disconnect_all_signals_from fuel rest w.
Proof.
  intros Hs. cbn [SignalTools.disconnect_all_signals_from].
  destruct (String.eqb name "destroyed"); [done|].
  unfold bind at 1, SignalTools.isinstance_SignalProtocol at 1.
  rewrite bool_decide_eq_false_2; [done|]. rewrite Hs. by intros [? ?].
Qed.

End SweepFacts.

Section SweepClaims.

Context {S : Type} `{!SignalProtocol.Signal S}.

(** X6 — the sentinel of [_safe_disconnect], for every implementation of
    the signal interface: each call it makes is a [disconnect()] on its
    signal; it returns only after a call that raised [TypeError], all
    earlier calls having returned; when it raises, the exception is that of
    its last call and is not a [TypeError]; and when the fuel runs out
    every call so far has returned. *)
Theorem safe_disconnect_sentinel (fuel : nat) (o : objid) (w : World S) :
  let r := SignalTools._safe_disconnect fuel o w in
  let c := Call_disconnect o None in
  match r.1 with
  | Returned _ =>
      ∃ k, (k < fuel)%nat
           ∧ calls r.2 = calls w ++ replicate k (c, None) ++ [(c, Some TypeError)]
  | Raised e =>
      is_TypeError e = false
      ∧ ∃ k, (k < fuel)%nat
             ∧ calls r.2 = calls w ++ replicate k (c, None) ++ [(c, Some e)]
  | OutOfFuel => calls r.2 = calls w ++ replicate fuel (c, None)
  end.
Proof.
  revert w. induction fuel as [|fuel IH]; intros w.
  { cbn. by rewrite app_nil_r. }
  cbn zeta. rewrite _safe_disconnect_step.
  pose proof (call_disconnect_frame o None w) as (_ & _ & _ & _ & Hc & Hf).
  destruct (call_disconnect o None w) as [[[]|e|] w1]; cbn [fst snd] in *; [| |done].
  - specialize (IH w1). cbn zeta in IH.
    destruct (SignalTools._safe_disconnect fuel o w1) as [[[]|e|] w2]; cbn [fst snd] in *.
    + destruct IH as (k & Hk & IHc). exists (Datatypes.S k). split; [lia|].
      rewrite IHc, Hc, <- app_assoc. done.
    + destruct IH as (Hte & k & Hk & IHc). split; [done|].
      exists (Datatypes.S k). split; [lia|]. rewrite IHc, Hc, <- app_assoc. done.
    + rewrite IH, Hc, <- app_assoc. done.
  - destruct (is_TypeError e) eqn:Hte; cbn [fst snd].
    + apply is_TypeError_true in Hte as ->. exists 0%nat. split; [lia | done].
    + split; [done|]. exists 0%nat. split; [lia | done].
Qed.

(** X7 — the footprint of [disconnect_all_signals_from], however it ends
    and whatever the signals do: it makes no call but [disconnect()] on the
    values of the attributes it visits (the name ["destroyed"] and the
    attributes whose access raises are not among them); it leaves every
    other object of the signal map, the lists, the debug log and the button
    as they are; it never raises a [TypeError]; and on an owner none of
    whose visited attributes is a signal it returns with the store
    unchanged. *)
Theorem disconnect_all_signals_from_footprint (fuel : nat)
    (owner : list (string * Attribute)) (w : World S) :
  let r := SignalTools.disconnect_all_signals_from fuel owner w in
  lists r.2 = lists w ∧ debug_log r.2 = debug_log w ∧ button r.2 = button w
  ∧ emitted r.2 = emitted w
  ∧ (∀ o, o ∉ visited owner → signals r.2 !! o = signals w !! o)
  ∧ (∃ new, calls r.2 = calls w ++ new ∧ noarg_disconnects_on (visited owner) new)
  ∧ (∀ e, r.1 = Raised e → is_TypeError e = false)
  ∧ ((∀ o, o ∈ visited owner → signals w !! o = None) → r = (Returned tt, w)).
Proof.
  revert w. induction owner as [|[name a] rest IH]; intros w.
  { cbn. repeat split; try done. exists []. rewrite app_nil_r. split; [done | constructor]. }
  destruct (String.eqb name "destroyed") eqn:Hname.
  { cbn zeta. cbn [SignalTools.disconnect_all_signals_from visited]. rewrite Hname.
    apply IH. }
  destruct a as [e|o].
  { cbn zeta. cbn [SignalTools.disconnect_all_signals_from visited is_Exception].
    rewrite Hname. apply IH. }
  cbn zeta. cbn [visited]. rewrite Hname.
  destruct (signals w !! o) as [s|] eqn:Hsig.
  - rewrite sweep_at_signal by eauto.
    destruct (_safe_disconnect_frame fuel o w)
      as (Hl & Hd & Hb & He & Hs & (new & Hc & Hn) & Hr).
    assert (Hn' : noarg_disconnects_on (o :: visited rest) new).
    { eapply Forall_impl; [exact Hn|]. intros c Hc'. exists o. split; [by left|done]. }
    destruct (SignalTools._safe_disconnect fuel o w) as [[[]|e|] w1]; cbn [fst snd] in *.
    + destruct (IH w1) as (IHl & IHd & IHb & IHe & IHs & (new' & IHc & IHn) & IHr & _).
      cbn zeta in *. repeat split; try congruence.
      * intros o' [Hne Hnin]%not_elem_of_cons. by rewrite IHs, Hs.
      * exists (new ++ new'). split; [by rewrite IHc, Hc, <- app_assoc|].
        apply Forall_app. split; [done|].
        eapply Forall_impl; [exact IHn|]. intros c (o' & Ho' & Hc'). exists o'.
        split; [by right|done].
      * done.
      * intros Hnone. rewrite Hnone in Hsig; [done | by left].
    + repeat split; try done.
      * intros o' [Hne Hnin]%not_elem_of_cons. by apply Hs.
      * by exists new.
      * intros Hnone. rewrite Hnone in Hsig; [done | by left].
    + repeat split; try done.
      * intros o' [Hne Hnin]%not_elem_of_cons. by apply Hs.
      * by exists new.
      * intros Hnone. rewrite Hnone in Hsig; [done | by left].
  - rewrite sweep_at_other_object by done.
    destruct (IH w) as (IHl & IHd & IHb & IHe & IHs & (new' & IHc & IHn) & IHr & IHz).
    cbn zeta in *. repeat split; try done.
    + intros o' [Hne Hnin]%not_elem_of_cons. by apply IHs.
    + exists new'. split; [done|].
      eapply Forall_impl; [exact IHn|]. intros c (o' & Ho' & Hc'). exists o'.
      split; [by right|done].
    + intros Hnone. apply IHz. intros o' Ho'. apply Hnone. by right.
Qed.

End SweepClaims.

Section StaleFacts.

Implicit Types (w : World QtSignal) (s : QtSignal) (o : objid).

(** On a deleted signal the first [disconnect()] raises [RuntimeError],
    which ends [_safe_disconnect]. *)
Lemma _safe_disconnect_deleted_state (fuel : nat) w o s :
  signals w !! o = Some s → deleted s = true →
  SignalTools._safe_disconnect (Datatypes.S fuel) o w =
    (Raised RuntimeError,
     set_calls (calls w ++ [(Call_disconnect o None, Some RuntimeError)])
       (set_signals (<[o := s]> (signals w)) w)).
Proof.
  intros Hs Hd. rewrite _safe_disconnect_step.
  unfold call_disconnect; simpl. rewrite Hs; simpl.
  unfold qt_disconnect. by rewrite Hd.
Qed.

End StaleFacts.

(** X8 — the sweep stops at a stale signal: when an attribute holds a
    signal whose toolkit object is deleted and the signals of the
    attributes before it are live, [disconnect_all_signals_from] raises
    [RuntimeError] from the first [disconnect()] on the stale signal.  The
    signals of the attributes before it have lost their connections; every
    other signal, those of the attributes after it among them, is as
    before. *)
Theorem disconnect_all_signals_from_stops_at_deleted (fuel : nat)
    (pre post : list (string * Attribute)) (name : string) (o : objid) (s : QtSignal)
    (w : World QtSignal) :
  String.eqb name "destroyed" = false →
  signals w !! o = Some s → deleted s = true →
  live_within (Datatypes.S fuel) (visited pre) w →
  let r := SignalTools.disconnect_all_signals_from (Datatypes.S fuel)
             (pre ++ (name, Attr_object o) :: post) w in
  r.1 = Raised RuntimeError
  ∧ last (calls r.2) = Some (Call_disconnect o None, Some RuntimeError)
  ∧ (∀ o', o' ∈ visited pre → is_Some (signals w !! o') →
           signals r.2 !! o' = Some no_connection)
  ∧ (∀ o', o' ∉ visited pre → signals r.2 !! o' = signals w !! o').
Proof.
  intros Hname Hs Hd. revert w Hs.
  induction pre as [|[n a] pre IH]; intros w Hs Hlive.
  { cbn zeta. cbn [app]. rewrite sweep_at_signal by eauto.
    rewrite (_safe_disconnect_deleted_state fuel w o s Hs Hd). cbn.
    repeat split.
    - by rewrite last_snoc.
    - intros o' Ho'. by apply elem_of_nil in Ho'.
    - intros o' _. destruct (decide (o' = o)) as [->|Hne].
      + by rewrite lookup_insert_eq.
      + by rewrite lookup_insert_ne. }
  cbn zeta. rewrite <- app_comm_cons.
  destruct a as [e|o1].
  { rewrite loop_on_failing_access, visited_failing_access in *. by apply IH. }
  destruct (String.eqb n "destroyed") eqn:Hn.
  { apply String.eqb_eq in Hn as ->.
    rewrite loop_skips_destroyed, visited_destroyed in *. by apply IH. }
  rewrite (visited_object n o1 pre Hn) in *.
  destruct (signals w !! o1) as [s1|] eqn:Hs1.
  - destruct (Hlive o1 s1) as [Hd1 Hlen]; [by left | done |].
    assert (Hne : o1 ≠ o) by (intros ->; congruence).
    rewrite (loop_on_signal _ n o1 s1 _ w Hn Hs1 Hd1 Hlen).
    set (w2 := set_calls _ _).
    assert (Hlive2 : live_within (Datatypes.S fuel) (visited pre) w2).
    { intros o' s' Ho' Hs'. subst w2; simpl in Hs'.
      destruct (decide (o' = o1)) as [->|Hne'].
      - rewrite lookup_insert_eq in Hs'. injection Hs' as <-. simpl. split; [done|lia].
      - rewrite lookup_insert_ne in Hs' by done. apply (Hlive o' s'); [by right|done]. }
    assert (Hs2 : signals w2 !! o = Some s).
    { subst w2; simpl. by rewrite lookup_insert_ne. }
    destruct (IH w2 Hs2 Hlive2) as (Hr & Hlast & Hv & Hnv).
    cbn zeta in *. repeat split; try done.
    + intros o' Ho' Hsome.
      destruct (decide (o' ∈ visited pre)) as [Hin|Hnin].
      * apply Hv; [done|]. subst w2; simpl.
        destruct (decide (o' = o1)) as [->|Hne'].
        -- rewrite lookup_insert_eq. eauto.
        -- by rewrite lookup_insert_ne.
      * apply elem_of_cons in Ho' as [->|?]; [|done].
        rewrite (Hnv o1 Hnin). subst w2; simpl. by rewrite lookup_insert_eq.
    + intros o' [Hne' Hnin]%not_elem_of_cons.
      rewrite (Hnv o' Hnin). subst w2; simpl. by rewrite lookup_insert_ne.
  - rewrite (loop_on_other_object _ n o1 _ w Hs1).
    assert (Hlive2 : live_within (Datatypes.S fuel) (visited pre) w).
    { intros o' s' Ho' Hs'. apply (Hlive o' s'); [by right|done]. }
    destruct (IH w Hs Hlive2) as (Hr & Hlast & Hv & Hnv).
    cbn zeta in *. repeat split; try done.
    + intros o' Ho' Hsome.
      apply elem_of_cons in Ho' as [->|?]; [|by apply Hv].
      rewrite Hs1 in Hsome. by destruct Hsome.
    + intros o' [Hne' Hnin]%not_elem_of_cons. by apply Hnv.
Qed.

(** Signal 1 is live, with fewer connections than the fuel. *)
Lemma attrs_before_live :
  live_within 2 (visited attrs_before) (empty_store three_signals).
Proof.
  intros o s Ho Hs. vm_compute in Ho.
  apply elem_of_cons in Ho as [->|Ho]; [|by apply elem_of_nil in Ho].
  vm_compute in Hs. injection Hs as <-. split; [reflexivity | simpl; lia].
Defined.

(** An owner whose second attribute holds the deleted signal 2. *)
Lemma disconnect_all_signals_from_stops_at_deleted_witness :
  String.eqb "finished" "destroyed" = false
  ∧ signals (empty_store three_signals) !! 2%nat = Some signal_2
  ∧ deleted signal_2 = true
  ∧ live_within 2 (visited attrs_before) (empty_store three_signals)
  ∧ (SignalTools.disconnect_all_signals_from 2
       (attrs_before ++ ("finished"%string, Attr_object 2%nat) :: attrs_after)
       (empty_store three_signals)).1 = Raised RuntimeError.
Proof.
  assert (Hname : String.eqb "finished" "destroyed" = false) by reflexivity.
  assert (Hs : signals (empty_store three_signals) !! 2%nat = Some signal_2)
    by (vm_compute; reflexivity).
  assert (Hd : deleted signal_2 = true) by reflexivity.
  split; [exact Hname|]. split; [exact Hs|]. split; [exact Hd|].
  split; [exact attrs_before_live|].
  exact (proj1 (disconnect_all_signals_from_stops_at_deleted 1 attrs_before attrs_after
                  "finished" 2%nat signal_2 (empty_store three_signals)
                  Hname Hs Hd attrs_before_live)).
Defined.

Section IdleSweep.

Implicit Types (w : World QtSignal) (o : objid).

Lemma signals_among_same w w' (os : list objid) :
  signals w' = signals w → signals_among w' os = signals_among w os.
Proof. intros Heq. unfold signals_among. by rewrite Heq. Qed.

(** X9 — a sweep over an owner whose signals have no connection, as
    after a sweep: [disconnect_all_signals_from] returns, no signal has
    changed, and it has made exactly one [disconnect()] for each attribute
    other than ["destroyed"] that holds a signal, in [dir] order, each
    answered with the [TypeError] that ends its loop. *)
Theorem sweep_without_connections (fuel : nat) (owner : list (string * Attribute)) w :
  (∀ o s, o ∈ visited owner → signals w !! o = Some s → s = no_connection) →
  let r := SignalTools.disconnect_all_signals_from (Datatypes.S fuel) owner w in
  r.1 = Returned tt
  ∧ signals r.2 = signals w
  ∧ calls r.2 = calls w ++ map (λ o, (Call_disconnect o None, Some TypeError))
                             (signals_among w (visited owner)).
Proof.
  revert w. induction owner as [|[name a] rest IH]; intros w Hnone.
  { cbn. by rewrite app_nil_r. }
  destruct a as [e|o].
  { rewrite loop_on_failing_access, visited_failing_access in *. by apply IH. }
  destruct (String.eqb name "destroyed") eqn:Hname.
  { apply String.eqb_eq in Hname as ->.
    rewrite loop_skips_destroyed, visited_destroyed in *. by apply IH. }
  rewrite (visited_object name o rest Hname) in *.
  destruct (signals w !! o) as [s|] eqn:Hs.
  - assert (s = no_connection) as -> by (apply (Hnone o); [by left|done]).
    rewrite (loop_on_signal _ name o no_connection rest w Hname Hs eq_refl)
      by (cbn; lia).
    rewrite (insert_id _ _ _ Hs).
    set (w2 := set_calls _ _).
    assert (Hsame : signals w2 = signals w) by done.
    destruct (IH w2) as (Hr & Hsig & Hc).
    { intros o' s' Ho' Hs'. rewrite Hsame in Hs'. apply (Hnone o'); [by right|done]. }
    cbn zeta in *. split; [done|]. split; [by rewrite Hsig|].
    rewrite Hc, (signals_among_same w w2 _ Hsame). subst w2. cbn [calls set_calls].
    unfold signals_among at 2. rewrite filter_cons_True by (rewrite Hs; eauto).
    cbn [map]. by rewrite <- app_assoc.
  - rewrite (loop_on_other_object _ name o rest w Hs).
    destruct (IH w) as (Hr & Hsig & Hc).
    { intros o' s' Ho' Hs'. apply (Hnone o'); [by right|done]. }
    cbn zeta in *. split; [done|]. split; [done|].
    rewrite Hc. unfold signals_among at 2.
    rewrite filter_cons_False; [done|]. rewrite Hs. by intros [? ?].
Qed.

End IdleSweep.

(** In [unconnected_store] the signal of [live_owner] has no connection. *)
Lemma live_owner_unconnected :
  ∀ o s, o ∈ visited live_owner → signals unconnected_store !! o = Some s →
         s = no_connection.
Proof.
  intros o s Ho Hs. vm_compute in Ho.
  apply elem_of_cons in Ho as [->|Ho].
  - vm_compute in Hs. by injection Hs as <-.
  - apply elem_of_cons in Ho as [->|Ho].
    + vm_compute in Hs. discriminate.
    + by apply elem_of_nil in Ho.
Defined.

(** The sweep of [live_owner] when nothing is connected. *)
Lemma sweep_without_connections_witness :
  (∀ o s, o ∈ visited live_owner → signals unconnected_store !! o = Some s →
          s = no_connection)
  ∧ (SignalTools.disconnect_all_signals_from 1 live_owner unconnected_store).1
    = Returned tt
  ∧ signals (SignalTools.disconnect_all_signals_from 1 live_owner unconnected_store).2
    = signals unconnected_store.
Proof.
  split; [exact live_owner_unconnected|].
  destruct (sweep_without_connections 0 live_owner unconnected_store
              live_owner_unconnected) as (Hret & Hsig & _).
  split; [exact Hret | exact Hsig].
Defined.

(** ** Construction *)

Section FirstBinding.

Context {S : Type} `{!SignalProtocol.Signal S}.

(** Binding a stop signal when none is bound: the disconnect that guards
    against a double connection, then the connect, whose result decides
    what is recorded. *)
Lemma set_enable_signal_first (new : objid) (w : World S) :
  _stop_signal (button w) = None →
  ∃ res1 res2 w',
    SpinningButton.set_enable_signal (Some new) w = (Returned tt, w')
    ∧ calls w' = calls w ++ [(Call_disconnect new (Some H_enable_button), res1);
                             (Call_connect new H_enable_button, res2)]
    ∧ button w' = with__stop_signal (match res2 with None => Some new | Some _ => None end)
                    (button w)
    ∧ lists w' = lists w ∧ emitted w' = emitted w ∧ debug_log w' = debug_log w.
Proof.
  intros Hstop. unfold SpinningButton.set_enable_signal.
  unfold bind at 1, SpinningButton.self at 1. rewrite Hstop.
  unfold bind at 1, ret at 1.
  unfold bind at 1, SpinningButton.update_self at 1, modify at 1.
  unfold bind at 1, SpinningButton.update_self at 1, modify at 1.
  set (w3 := set_button _ (set_button _ w)).
  unfold bind at 1.
  destruct (_disconnect_signal_spec new H_enable_button w3)
    as (Hr4 & Hl4 & Hd4 & Hb4 & He4 & res4 & Hc4).
  destruct (SpinningButton._disconnect_signal new H_enable_button w3) as [o4 w4].
  cbn [fst snd] in Hr4, Hl4, Hd4, Hb4, He4, Hc4. subst o4.
  unfold try_except.
  pose proof (call_connect_frame new H_enable_button w4) as (Hl5 & Hd5 & Hb5 & He5 & Hc5 & Hf5).
  destruct (call_connect new H_enable_button w4) as [[[]|e|] w5];
    cbn [fst snd] in Hl5, Hd5, Hb5, He5, Hc5, Hf5; [| |done].
  - exists res4, None, w5. split; [done|]. repeat split.
    + rewrite Hc5, Hc4. subst w3; cbn. by rewrite <- app_assoc.
    + rewrite Hb5, Hb4. subst w3; cbn. by destruct (button w).
    + by rewrite Hl5, Hl4.
    + by rewrite He5, He4.
    + by rewrite Hd5, Hd4.
  - cbn [is_Exception]. unfold SpinningButton.update_self, modify.
    eexists res4, (Some e), _. split; [done|]. cbn. repeat split.
    + rewrite Hc5, Hc4. subst w3; cbn. by rewrite <- app_assoc.
    + rewrite Hb5, Hb4. subst w3; cbn. by destruct (button w).
    + by rewrite Hl5, Hl4.
    + by rewrite He5, He4.
    + by rewrite Hd5, Hd4.
Qed.

End FirstBinding.

Section InitClaim.

Context {S : Type} `{!SignalProtocol.Signal S}.
Variable svg_isValid : string → bool.
Variable DEFAULT_SPINNER_SVG : string.

(** X10 — what [__init__] ends in.  The spinner text is the one given, or the
    default when none or the empty text is given.  When it does not parse,
    the constructor raises [ValueError] before any call on the stop signal.
    Otherwise it returns, whatever the stop signal does: the button is idle
    and enabled, shows the enabled icon, has angle 0, icon size 18 x 18 and
    padding 3, a stopped animation timer of 100 ms wired to [rotate_svg], a
    stopped single-shot timeout timer wired to [enable_button], and the
    click wired to [on_clicked]; a stop signal is recorded exactly when one
    was given and its connect returned.  Nothing is emitted. *)
Theorem init_outcome (txt : string) (sig : option objid) (eic : QIcon)
    (svgc : option string) (T : Z) (dws : bool) (w : World S) :
  let content := match svgc with
                 | Some (String c s) => String c s
                 | _ => DEFAULT_SPINNER_SVG
                 end in
  let r := SpinningButton.init svg_isValid DEFAULT_SPINNER_SVG txt sig eic svgc T dws w in
  lists r.2 = lists w ∧ emitted r.2 = emitted w ∧ debug_log r.2 = debug_log w
  ∧ if svg_isValid content then
      r.1 = Returned tt
      ∧ ∃ stop,
          button r.2 =
            mkSpinningButton txt true eic [H_on_clicked] dws content 0 (mkQSize 18 18) 3 T
              eic false stop (mkQTimer 100 false false 0 [H_rotate_svg])
              (mkQTimer 0 true false 0 [H_enable_button])
          ∧ match sig with
            | None => stop = None ∧ calls r.2 = calls w ∧ signals r.2 = signals w
            | Some s =>
                ∃ res1 res2,
                  calls r.2 = calls w ++ [(Call_disconnect s (Some H_enable_button), res1);
                                          (Call_connect s H_enable_button, res2)]
                  ∧ stop = match res2 with None => Some s | Some _ => None end
            end
    else r.1 = Raised ValueError ∧ calls r.2 = calls w ∧ signals r.2 = signals w.
Proof.
  intros content r.
  assert (Hr : r = SpinningButton.init svg_isValid DEFAULT_SPINNER_SVG txt sig eic svgc T dws w)
    by reflexivity.
  clearbody r. unfold SpinningButton.init in Hr. fold content in Hr.
  unfold bind at 1, modify at 1 in Hr.
  unfold bind at 1, SpinningButton.update_self at 1, modify at 1 in Hr.
  destruct (svg_isValid content); cbn [negb] in Hr; [|by subst r].
  do 7 (unfold bind at 1 in Hr;
        first [ unfold SpinningButton.update_self at 1, modify at 1 in Hr
              | unfold SpinningButton.setIcon at 1, SpinningButton.update_self at 1,
                  modify at 1 in Hr ]).
  cbn in Hr.
  destruct sig as [sig|]; [|subst r; cbn; repeat split; by exists None].
  match type of Hr with
  | r = SpinningButton.set_enable_signal _ ?w0 =>
      destruct (set_enable_signal_first sig w0 eq_refl)
        as (res1 & res2 & w' & Hrun & Hc & Hb & Hl & He & Hd)
  end.
  rewrite Hrun in Hr. subst r. cbn in *. repeat split; try done.
  eexists. split; [exact Hb|]. by exists res1, res2.
Qed.

End InitClaim.

(** ** Clicks and the icon size *)

Section ClickFacts.

Context {S : Type} `{!SignalProtocol.Signal S}.

(** Once a call has done its work and changes nothing any more, neither
    do the calls that follow. *)
Lemma repeat_call_fixed (m : Py S unit) (w : World S) (n : nat) :
  m w = (Returned tt, w) → SpinningButton.repeat_call n m w = (Returned tt, w).
Proof.
  intros Hm. induction n as [|n IH]; [done|].
  cbn [SpinningButton.repeat_call]. unfold bind. by rewrite Hm.
Qed.

Lemma start_spin_settled (w : World S) :
  SpinningButton.start_spin (SpinningButton.start_spin w).2
  = (Returned tt, (SpinningButton.start_spin w).2).
Proof.
  rewrite start_spin_twice. pose proof (start_spin_returns w) as Hr.
  destruct (SpinningButton.start_spin w) as [o w']. simpl in *. by subst o.
Qed.

Lemma start_spin_keeps_clicked (w : World S) :
  clicked_receivers (button (SpinningButton.start_spin w).2) = clicked_receivers (button w).
Proof. destruct_store w. py_eval. py_cases; reflexivity. Qed.

Lemma click_on_clicked (w : World S) :
  enabled (button w) = true → clicked_receivers (button w) = [H_on_clicked] →
  SpinningButton.click w = SpinningButton.on_clicked w.
Proof.
  intros Hen Hclk. unfold SpinningButton.click, bind, SpinningButton.self.
  rewrite Hen, Hclk. cbn [SpinningButton.run_handlers SpinningButton.run_handler].
  unfold bind, ret. pose proof (on_clicked_returns w) as Hr.
  destruct (SpinningButton.on_clicked w) as [[[]| |] w']; simpl in *; congruence.
Qed.

Lemma on_clicked_enabled (w : World S) :
  enabled (button w) = true → SpinningButton.on_clicked w = SpinningButton.start_spin w.
Proof.
  intros Hen. unfold SpinningButton.on_clicked, bind at 1, SpinningButton.isEnabled,
    bind at 1, SpinningButton.self, ret. by rewrite Hen.
Qed.

Lemma on_clicked_disabled (w : World S) :
  enabled (button w) = false → SpinningButton.on_clicked w = (Returned tt, w).
Proof.
  intros Hen. unfold SpinningButton.on_clicked, bind at 1, SpinningButton.isEnabled,
    bind at 1, SpinningButton.self, ret. by rewrite Hen.
Qed.

Lemma click_disabled (w : World S) :
  enabled (button w) = false → SpinningButton.click w = (Returned tt, w).
Proof.
  intros Hen. unfold SpinningButton.click, bind, SpinningButton.self. by rewrite Hen.
Qed.

End ClickFacts.

Section ClickClaims.

Context {S : Type} `{!SignalProtocol.Signal S}.

(** X11 — clicks.  On a disabled button [on_clicked] does nothing, and the
    button receives no click.  On an enabled button [on_clicked] is
    [start_spin], and any number of clicks, one or more, come to one
    [start_spin]: the later ones find the button disabled or already
    spinning. *)
Theorem clicks_start_one_spin (n : nat) (w : World S) :
  if enabled (button w) then
    SpinningButton.on_clicked w = SpinningButton.start_spin w
    ∧ (clicked_receivers (button w) = [H_on_clicked] →
       SpinningButton.repeat_call (Datatypes.S n) SpinningButton.click w
       = SpinningButton.start_spin w)
  else
    SpinningButton.on_clicked w = (Returned tt, w)
    ∧ SpinningButton.repeat_call n SpinningButton.click w = (Returned tt, w).
Proof.
  destruct (enabled (button w)) eqn:Hen.
  - split; [by apply on_clicked_enabled|]. intros Hclk.
    rewrite repeat_call_unfold
      by (rewrite click_on_clicked, on_clicked_enabled by done; apply start_spin_returns).
    rewrite click_on_clicked, on_clicked_enabled by done.
    set (w' := (SpinningButton.start_spin w).2).
    assert (Hfix : SpinningButton.click w' = (Returned tt, w')).
    { destruct (enabled (button w')) eqn:Hen'; [|by apply click_disabled].
      rewrite click_on_clicked, on_clicked_enabled; try done.
      - apply start_spin_settled.
      - subst w'. by rewrite start_spin_keeps_clicked. }
    rewrite (repeat_call_fixed _ _ n Hfix).
    pose proof (start_spin_returns w) as Hr. subst w'.
    destruct (SpinningButton.start_spin w) as [o w']. simpl in *. by subst o.
  - split; [by apply on_clicked_disabled|].
    apply repeat_call_fixed. by apply click_disabled.
Qed.

(** X12 — [setIconSize]: a value that is not a size raises [TypeError] and
    leaves the store as it is; a size is stored and nothing else changes,
    [iconSize] returns it and [_spinner_icon] renders at it.  The icon on
    show is not rendered again by the call: a spinning button shows the new
    size from the next tick of [rotate_svg], an idle one from the next
    [start_spin]. *)
Theorem setIconSize_round_trip (size : QSize) (angle : Z) (w : World S) :
  let r := SpinningButton.setIconSize (Arg_QSize size) w in
  SpinningButton.setIconSize Arg_other w = (Raised TypeError, w)
  ∧ r = (Returned tt, set_button (with__icon_size size (button w)) w)
  ∧ SpinningButton.iconSize r.2 = (Returned size, r.2)
  ∧ SpinningButton._spinner_icon angle r.2 = (Returned (Icon_spinner angle size), r.2)
  ∧ icon (button r.2) = icon (button w)
  ∧ icon (button (SpinningButton.rotate_svg r.2).2)
    = (if _spinning (button w)
       then Icon_spinner ((rotation_angle (button w) + 10) mod 360) size
       else icon (button w))
  ∧ icon (button (SpinningButton.start_spin r.2).2)
    = (if _spinning (button w) then icon (button w) else Icon_spinner 0 size).
Proof.
  intros r. subst r. destruct_store w. py_eval.
  destruct spin, ta; py_eval; py_cases; repeat split; reflexivity.
Qed.

End ClickClaims.

(** ** The stop signal *)

Section BindingFacts.

Implicit Types (w : World QtSignal) (s : QtSignal) (o : objid) (h : Handler).

(** The best-effort disconnect on a live signal: whether or not the slot
    was connected, the call returns and the slot's oldest connection, if
    any, is gone. *)
Lemma _disconnect_signal_live w o s h :
  signals w !! o = Some s → deleted s = false →
  SpinningButton._disconnect_signal o h w =
    (Returned tt,
     set_calls (calls w ++ [(Call_disconnect o (Some h),
                             if decide (h ∈ slots s) then None else Some TypeError)])
       (set_signals (<[o := mkQtSignal (remove_first h (slots s)) false]> (signals w)) w)).
Proof.
  intros Hs Hd. unfold SpinningButton._disconnect_signal, try_except.
  rewrite (call_disconnect_slot_live w o s h Hs Hd).
  by destruct (decide (h ∈ slots s)).
Qed.

Lemma _disconnect_signal_other (signal o : objid) h w :
  o ≠ signal →
  signals (SpinningButton._disconnect_signal signal h w).2 !! o = signals w !! o.
Proof.
  intros Hne. unfold SpinningButton._disconnect_signal, try_except.
  pose proof (call_disconnect_other signal o (Some h) w Hne) as Hs.
  destruct (call_disconnect signal (Some h) w) as [[[]|e|] w1]; done.
Qed.

(** Unbinding what is bound, seen from a live signal [new]. *)
Lemma unbind_qt w new s :
  signals w !! new = Some s → deleted s = false →
  ∃ w1,
    (match _stop_signal (button w) with
     | Some old => SpinningButton._disconnect_signal old H_enable_button
     | None => ret tt
     end) w = (Returned tt, w1)
    ∧ signals w1 !! new
      = Some (mkQtSignal (if decide (_stop_signal (button w) = Some new)
                          then remove_first H_enable_button (slots s) else slots s) false)
    ∧ (∀ o, o ≠ new → Some o ≠ _stop_signal (button w) →
            signals w1 !! o = signals w !! o)
    ∧ button w1 = button w ∧ lists w1 = lists w ∧ emitted w1 = emitted w
    ∧ debug_log w1 = debug_log w.
Proof.
  intros Hs Hd. destruct (_stop_signal (button w)) as [old|] eqn:Hold.
  - destruct (decide (old = new)) as [->|Hne].
    + rewrite (_disconnect_signal_live w new s _ Hs Hd).
      eexists. split; [done|]. cbn. rewrite decide_True by done.
      repeat split; [by rewrite lookup_insert_eq|].
      intros o Hne _. by rewrite lookup_insert_ne.
    + destruct (_disconnect_signal_spec old H_enable_button w)
        as (Hr & Hl & Hdl & Hb & He & _).
      pose proof (λ o Ho, _disconnect_signal_other old o H_enable_button w Ho) as Hsig.
      destruct (SpinningButton._disconnect_signal old H_enable_button w) as [o1 w1].
      cbn [fst snd] in *. subst o1. exists w1. split; [done|].
      rewrite decide_False by congruence. repeat split; try done.
      * rewrite Hsig by done. by rewrite Hs, <- (live_eta s Hd).
      * intros o Hne' Hne''. apply Hsig. congruence.
  - exists w. split; [done|]. rewrite decide_False by done.
    repeat split; try done. by rewrite Hs, <- (live_eta s Hd).
Qed.

(** Binding a live signal. *)
Lemma set_enable_signal_qt w new s :
  signals w !! new = Some s → deleted s = false →
  ∃ w',
    SpinningButton.set_enable_signal (Some new) w = (Returned tt, w')
    ∧ button w' = with__stop_signal (Some new) (button w)
    ∧ signals w' !! new
      = Some (mkQtSignal (unbound_slots (_stop_signal (button w)) new (slots s)
                          ++ [H_enable_button]) false)
    ∧ (∀ o, o ≠ new → Some o ≠ _stop_signal (button w) →
            signals w' !! o = signals w !! o)
    ∧ lists w' = lists w ∧ emitted w' = emitted w ∧ debug_log w' = debug_log w.
Proof.
  intros Hs Hd. unfold SpinningButton.set_enable_signal.
  unfold bind at 1, SpinningButton.self at 1. unfold bind at 1.
  destruct (unbind_qt w new s Hs Hd) as (w1 & -> & Hs1 & Ho1 & Hb1 & Hl1 & He1 & Hd1).
  unfold bind at 1, SpinningButton.update_self at 1, modify at 1.
  unfold bind at 1, SpinningButton.update_self at 1, modify at 1.
  set (w3 := set_button _ (set_button _ w1)).
  unfold bind at 1.
  erewrite (_disconnect_signal_live w3 new); [| exact Hs1 | done].
  unfold try_except.
  erewrite call_connect_live; [| by apply lookup_insert_eq | done].
  eexists. split; [done|]. cbn. repeat split; try done.
  - rewrite Hb1. by destruct (button w).
  - by rewrite lookup_insert_eq.
  - intros o Hne Hne'. rewrite !lookup_insert_ne by done. by apply Ho1.
Qed.

(** Unbinding a live signal. *)
Lemma set_enable_signal_None_qt w old s :
  _stop_signal (button w) = Some old → signals w !! old = Some s → deleted s = false →
  SpinningButton.set_enable_signal None w =
    (Returned tt,
     set_button (with__stop_signal None (button w))
       (set_calls (calls w ++ [(Call_disconnect old (Some H_enable_button),
                                if decide (H_enable_button ∈ slots s)
                                then None else Some TypeError)])
          (set_signals (<[old := mkQtSignal (remove_first H_enable_button (slots s)) false]>
                          (signals w)) w))).
Proof.
  intros Hold Hs Hd. unfold SpinningButton.set_enable_signal.
  unfold bind at 1, SpinningButton.self at 1. rewrite Hold. unfold bind at 1.
  by rewrite (_disconnect_signal_live w old s _ Hs Hd).
Qed.

End BindingFacts.

Section FiringFacts.

Context {S : Type} `{!SignalProtocol.Signal S}.

Lemma enable_button_settled (w : World S) :
  SpinningButton.enable_button (SpinningButton.enable_button w).2
  = (Returned tt, (SpinningButton.enable_button w).2).
Proof.
  rewrite enable_button_twice. pose proof (enable_button_returns w) as Hr.
  destruct (SpinningButton.enable_button w) as [o w']. simpl in *. by subst o.
Qed.

(** Receivers that are [enable_button] or foreign change nothing once
    [enable_button] has run. *)
Lemma run_handlers_settled (hs : list Handler) (w : World S) :
  forallb stops_or_foreign hs = true →
  SpinningButton.enable_button w = (Returned tt, w) →
  SpinningButton.run_handlers hs w = (Returned tt, w).
Proof.
  intros Hok Hfix. induction hs as [|h hs IH]; [done|].
  cbn [forallb] in Hok. apply andb_true_iff in Hok as [Hh Hok].
  cbn [SpinningButton.run_handlers]. unfold bind.
  destruct h; try discriminate; cbn [SpinningButton.run_handler].
  - rewrite Hfix. by apply IH.
  - cbn. by apply IH.
Qed.

(** Such receivers, [enable_button] among them, do together what one call
    of [enable_button] does. *)
Lemma run_handlers_stop (hs : list Handler) (w : World S) :
  forallb stops_or_foreign hs = true → H_enable_button ∈ hs →
  SpinningButton.run_handlers hs w = SpinningButton.enable_button w.
Proof.
  induction hs as [|h hs IH]; intros Hok Hin; [by apply elem_of_nil in Hin|].
  cbn [forallb] in Hok. apply andb_true_iff in Hok as [Hh Hok].
  cbn [SpinningButton.run_handlers]. unfold bind.
  destruct h; try discriminate; cbn [SpinningButton.run_handler].
  - pose proof (enable_button_returns w) as Hr.
    pose proof (enable_button_settled w) as Hfix.
    destruct (SpinningButton.enable_button w) as [o w']. cbn [fst snd] in *. subst o.
    by apply run_handlers_settled.
  - cbn. apply IH; [done|]. by apply elem_of_cons in Hin as [?|?].
Qed.

Lemma enable_button_keeps_signals (w : World S) :
  signals (SpinningButton.enable_button w).2 = signals w.
Proof. destruct_store w. py_eval. py_cases; reflexivity. Qed.

End FiringFacts.

Section BindingClaims.

Implicit Types (w : World QtSignal) (s : QtSignal).

Lemma forallb_subseteq (l k : list Handler) :
  l ⊆ k → forallb stops_or_foreign k = true → forallb stops_or_foreign l = true.
Proof.
  intros Hsub Hk. apply forallb_forall. intros h Hh.
  rewrite forallb_forall in Hk. apply Hk.
  apply list_elem_of_In, Hsub, list_elem_of_In, Hh.
Qed.

Lemma unbound_slots_subseteq (old : option objid) (new : objid) (l : list Handler) :
  unbound_slots old new l ⊆ l.
Proof.
  unfold unbound_slots. destruct (decide (old = Some new)).
  - etrans; apply remove_first_subseteq.
  - apply remove_first_subseteq.
Qed.

(** X13 — binding a live signal never doubles the connection: when
    [enable_button] is connected to the signal at most once beforehand,
    [set_enable_signal] returns, records the signal and leaves it with its
    other receivers in their order and [enable_button] once, last; binding
    the same signal again changes neither the button nor any signal. *)
Theorem set_enable_signal_connects_once (new : objid) s w :
  signals w !! new = Some s → deleted s = false →
  H_enable_button ∉ remove_first H_enable_button (slots s) →
  let r := SpinningButton.set_enable_signal (Some new) w in
  let again := SpinningButton.set_enable_signal (Some new) r.2 in
  r.1 = Returned tt
  ∧ _stop_signal (button r.2) = Some new
  ∧ signals r.2 !! new
    = Some (mkQtSignal (remove_first H_enable_button (slots s) ++ [H_enable_button]) false)
  ∧ again.1 = Returned tt
  ∧ button again.2 = button r.2
  ∧ signals again.2 = signals r.2.
Proof.
  intros Hs Hd Honce r again.
  destruct (set_enable_signal_qt w new s Hs Hd) as (w1 & Hr & Hb & Hs1 & _).
  assert (Hslots : unbound_slots (_stop_signal (button w)) new (slots s)
                   = remove_first H_enable_button (slots s)).
  { unfold unbound_slots. destruct (decide _); [|done]. by apply remove_first_absent. }
  rewrite Hslots in Hs1.
  assert (Hstop : _stop_signal (button w1) = Some new).
  { rewrite Hb. by destruct (button w). }
  destruct (set_enable_signal_qt w1 new _ Hs1 eq_refl) as (w2 & Hr2 & Hb2 & Hs2 & Ho2 & _).
  cbn [slots] in Hs2. rewrite Hstop in Hs2, Ho2.
  assert (Hslots2 : unbound_slots (Some new) new
                      (remove_first H_enable_button (slots s) ++ [H_enable_button])
                    = remove_first H_enable_button (slots s)).
  { unfold unbound_slots. rewrite decide_True by done.
    rewrite remove_first_snoc by done. by apply remove_first_absent. }
  rewrite Hslots2 in Hs2.
  subst r again. rewrite Hr. cbn [fst snd]. rewrite Hr2. cbn [fst snd].
  repeat split; try done.
  - rewrite Hb2, Hb. by destruct (button w).
  - apply map_eq. intros o. destruct (decide (o = new)) as [->|Hne].
    + by rewrite Hs2, Hs1.
    + apply Ho2; congruence.
Qed.

(** X14 — round trip of the binding: on a button without a stop signal,
    binding a live signal to which [enable_button] is not connected and
    then unbinding with [None] leaves the button, the signals, the lists,
    the notifications and the debug log exactly as they were. *)
Theorem set_enable_signal_round_trip (new : objid) s w :
  signals w !! new = Some s → deleted s = false →
  _stop_signal (button w) = None → H_enable_button ∉ slots s →
  let r := (SpinningButton.set_enable_signal (Some new) ;;
            SpinningButton.set_enable_signal None) w in
  r.1 = Returned tt
  ∧ button r.2 = button w ∧ signals r.2 = signals w
  ∧ lists r.2 = lists w ∧ emitted r.2 = emitted w ∧ debug_log r.2 = debug_log w.
Proof.
  intros Hs Hd Hnone Hnin r.
  destruct (set_enable_signal_qt w new s Hs Hd)
    as (w1 & Hr & Hb & Hs1 & Ho1 & Hl1 & He1 & Hd1).
  rewrite Hnone in Hs1, Ho1.
  assert (Hslots : unbound_slots None new (slots s) = slots s).
  { unfold unbound_slots. rewrite decide_False by done. by apply remove_first_absent. }
  rewrite Hslots in Hs1.
  assert (Hstop : _stop_signal (button w1) = Some new).
  { rewrite Hb. by destruct (button w). }
  subst r. unfold bind. rewrite Hr.
  rewrite (set_enable_signal_None_qt w1 new _ Hstop Hs1 eq_refl).
  cbn. rewrite (remove_first_snoc _ _ Hnin). repeat split; try done.
  - rewrite Hb. destruct (button w); cbn in *. by subst.
  - apply map_eq. intros o. destruct (decide (o = new)) as [->|Hne].
    + by rewrite lookup_insert_eq, Hs, <- (live_eta s Hd).
    + rewrite lookup_insert_ne by done. apply Ho1; done.
Qed.

(** X15 — the bound stop signal ends the spin: once [set_enable_signal] has
    bound a live signal whose other receivers are foreign to the button,
    the firing of the signal does exactly what one call of [enable_button]
    does, so the button is idle and ["stopped spinning"] has been emitted
    once if it was spinning and not at all otherwise; a second firing
    changes nothing. *)
Theorem stop_signal_stops_the_spin (new : objid) s w :
  signals w !! new = Some s → deleted s = false →
  forallb stops_or_foreign (slots s) = true →
  let bound := (SpinningButton.set_enable_signal (Some new) w).2 in
  let fired := SpinningButton.fire new bound in
  _stop_signal (button bound) = Some new
  ∧ fired = SpinningButton.enable_button bound
  ∧ _spinning (button fired.2) = false
  ∧ emitted fired.2
    = emitted w ++ (if _spinning (button w) then [signal_stopped_spinning] else [])
  ∧ SpinningButton.fire new fired.2 = (Returned tt, fired.2).
Proof.
  intros Hs Hd Hok bound fired.
  destruct (set_enable_signal_qt w new s Hs Hd) as (w1 & Hr & Hb & Hs1 & _ & _ & He1 & _).
  assert (Hbound : bound = w1) by (subst bound; by rewrite Hr).
  clearbody bound. subst bound.
  set (hs := unbound_slots (_stop_signal (button w)) new (slots s) ++ [H_enable_button]) in *.
  assert (Hhs : forallb stops_or_foreign hs = true).
  { subst hs. rewrite forallb_app. apply andb_true_iff. split; [|done].
    eapply forallb_subseteq; [apply unbound_slots_subseteq | done]. }
  assert (Hin : H_enable_button ∈ hs) by apply elem_of_snoc.
  assert (Hfire : ∀ v : World QtSignal, signals v = signals w1 →
            SpinningButton.fire new v = SpinningButton.enable_button v).
  { intros v Hv. unfold SpinningButton.fire, bind, get. rewrite Hv, Hs1. cbn.
    by apply run_handlers_stop. }
  assert (Hfired : fired = SpinningButton.enable_button w1) by (by apply Hfire).
  clearbody fired. subst fired. repeat split.
  - rewrite Hb. by destruct (button w).
  - clear. destruct_store w1. py_eval. by py_cases.
  - rewrite <- He1.
    assert (Hspin : _spinning (button w) = _spinning (button w1)).
    { rewrite Hb. by destruct (button w). }
    rewrite Hspin. clear. destruct_store w1. py_eval.
    destruct spin; py_cases; py_eval; by rewrite ?app_nil_r.
  - rewrite Hfire by apply enable_button_keeps_signals.
    apply enable_button_settled.
Qed.

End BindingClaims.

(** [enable_button] is not connected to signal 1. *)
Lemma signal_1_unbound :
  H_enable_button ∉ remove_first H_enable_button (slots signal_1).
Proof.
  vm_compute. intros Hin.
  apply elem_of_cons in Hin as [Hin|Hin]; [discriminate | by apply elem_of_nil in Hin].
Defined.

(** Binding signal 1 on a button under construction. *)
Lemma set_enable_signal_connects_once_witness :
  signals (empty_store three_signals) !! 1%nat = Some signal_1
  ∧ deleted signal_1 = false
  ∧ (H_enable_button ∉ remove_first H_enable_button (slots signal_1))
  ∧ signals (SpinningButton.set_enable_signal (Some 1%nat) (empty_store three_signals)).2
      !! 1%nat
    = Some (mkQtSignal [H_callable 7%nat; H_enable_button] false).
Proof.
  assert (Hs : signals (empty_store three_signals) !! 1%nat = Some signal_1)
    by (vm_compute; reflexivity).
  assert (Hd : deleted signal_1 = false) by reflexivity.
  split; [exact Hs|]. split; [exact Hd|]. split; [exact signal_1_unbound|].
  exact (proj1 (proj2 (proj2 (set_enable_signal_connects_once 1%nat signal_1
                                (empty_store three_signals) Hs Hd signal_1_unbound)))).
Defined.

(** The same, of its connections as they are. *)
Lemma signal_1_without_enable_button : H_enable_button ∉ slots signal_1.
Proof.
  vm_compute. intros Hin.
  apply elem_of_cons in Hin as [Hin|Hin]; [discriminate | by apply elem_of_nil in Hin].
Defined.

(** Binding and unbinding signal 1. *)
Lemma set_enable_signal_round_trip_witness :
  signals (empty_store three_signals) !! 1%nat = Some signal_1
  ∧ deleted signal_1 = false
  ∧ _stop_signal (button (empty_store three_signals)) = None
  ∧ (H_enable_button ∉ slots signal_1)
  ∧ signals ((SpinningButton.set_enable_signal (Some 1%nat) ;;
              SpinningButton.set_enable_signal None) (empty_store three_signals)).2
    = signals (empty_store three_signals).
Proof.
  assert (Hs : signals (empty_store three_signals) !! 1%nat = Some signal_1)
    by (vm_compute; reflexivity).
  assert (Hd : deleted signal_1 = false) by reflexivity.
  assert (Hn : _stop_signal (button (empty_store three_signals)) = None) by reflexivity.
  split; [exact Hs|]. split; [exact Hd|]. split; [exact Hn|].
  split; [exact signal_1_without_enable_button|].
  exact (proj1 (proj2 (proj2 (set_enable_signal_round_trip 1%nat signal_1
                                (empty_store three_signals) Hs Hd Hn
                                signal_1_without_enable_button)))).
Defined.

(** A spinning button without timeout is stopped by signal 1. *)
Lemma stop_signal_stops_the_spin_witness :
  signals store_spinning_no_timeout !! 1%nat = Some signal_1
  ∧ deleted signal_1 = false
  ∧ forallb stops_or_foreign (slots signal_1) = true
  ∧ _spinning (button store_spinning_no_timeout) = true
  ∧ _spinning
      (button
         (SpinningButton.fire 1%nat
            (SpinningButton.set_enable_signal (Some 1%nat) store_spinning_no_timeout).2).2)
    = false.
Proof.
  assert (Hs : signals store_spinning_no_timeout !! 1%nat = Some signal_1)
    by (vm_compute; reflexivity).
  assert (Hd : deleted signal_1 = false) by reflexivity.
  assert (Hok : forallb stops_or_foreign (slots signal_1) = true) by reflexivity.
  split; [exact Hs|]. split; [exact Hd|]. split; [exact Hok|].
  split; [vm_compute; reflexivity|].
  exact (proj1 (proj2 (proj2 (stop_signal_stops_the_spin 1%nat signal_1
                                store_spinning_no_timeout Hs Hd Hok)))).
Defined.

Section Rebinding.

Implicit Types (w : World QtSignal) (s : QtSignal).

(** Receivers foreign to the button leave the store alone. *)
Lemma run_handlers_foreign (hs : list Handler) w :
  forallb stops_or_foreign hs = true → H_enable_button ∉ hs →
  SpinningButton.run_handlers hs w = (Returned tt, w).
Proof.
  induction hs as [|h hs IH]; intros Hok Hnin; [done|].
  cbn [forallb] in Hok. apply andb_true_iff in Hok as [Hh Hok].
  apply not_elem_of_cons in Hnin as [Hne Hnin].
  cbn [SpinningButton.run_handlers]. unfold bind.
  destruct h; try discriminate; [done|]. cbn. by apply IH.
Qed.

(** Binding a live signal while another live signal is bound: the old one
    loses its oldest connection to [enable_button]. *)
Lemma set_enable_signal_releases w (old new : objid) so sn :
  _stop_signal (button w) = Some old → old ≠ new →
  signals w !! old = Some so → deleted so = false →
  signals w !! new = Some sn → deleted sn = false →
  ∃ w',
    SpinningButton.set_enable_signal (Some new) w = (Returned tt, w')
    ∧ button w' = with__stop_signal (Some new) (button w)
    ∧ signals w' !! old
      = Some (mkQtSignal (remove_first H_enable_button (slots so)) false)
    ∧ signals w' !! new
      = Some (mkQtSignal (remove_first H_enable_button (slots sn) ++ [H_enable_button])
                false)
    ∧ emitted w' = emitted w.
Proof.
  intros Hold Hne Hso Hdo Hsn Hdn. unfold SpinningButton.set_enable_signal.
  unfold bind at 1, SpinningButton.self at 1. rewrite Hold. unfold bind at 1.
  rewrite (_disconnect_signal_live w old so _ Hso Hdo).
  unfold bind at 1, SpinningButton.update_self at 1, modify at 1.
  unfold bind at 1, SpinningButton.update_self at 1, modify at 1.
  set (w3 := set_button _ (set_button _ _)).
  assert (Hsn3 : signals w3 !! new = Some sn).
  { subst w3; cbn. by rewrite lookup_insert_ne. }
  unfold bind at 1.
  rewrite (_disconnect_signal_live w3 new sn _ Hsn3 Hdn).
  unfold try_except.
  erewrite call_connect_live; [| by apply lookup_insert_eq | done].
  eexists. split; [done|]. cbn. repeat split.
  - rewrite !lookup_insert_ne by done. by rewrite lookup_insert_eq.
  - by rewrite lookup_insert_eq.
Qed.

(** X16 — rebinding releases the old signal: when a live signal is bound
    and another live signal is given, both with no receivers but
    [enable_button] and callables foreign to the button, [enable_button]
    being connected to the old one at most once, then after
    [set_enable_signal] the new signal is recorded, the firing of the old
    signal changes nothing any more, and the firing of the new one does
    what one call of [enable_button] does. *)
Theorem rebinding_releases_the_old_signal (old new : objid) so sn w :
  _stop_signal (button w) = Some old → old ≠ new →
  signals w !! old = Some so → deleted so = false →
  signals w !! new = Some sn → deleted sn = false →
  forallb stops_or_foreign (slots so) = true →
  forallb stops_or_foreign (slots sn) = true →
  H_enable_button ∉ remove_first H_enable_button (slots so) →
  let rebound := (SpinningButton.set_enable_signal (Some new) w).2 in
  _stop_signal (button rebound) = Some new
  ∧ SpinningButton.fire old rebound = (Returned tt, rebound)
  ∧ SpinningButton.fire new rebound = SpinningButton.enable_button rebound.
Proof.
  intros Hold Hne Hso Hdo Hsn Hdn Hoko Hokn Honce rebound.
  destruct (set_enable_signal_releases w old new so sn Hold Hne Hso Hdo Hsn Hdn)
    as (w' & Hr & Hb & Hso' & Hsn' & _).
  assert (Hre : rebound = w') by (subst rebound; by rewrite Hr).
  clearbody rebound. subst rebound. repeat split.
  - rewrite Hb. by destruct (button w).
  - unfold SpinningButton.fire, bind, get. rewrite Hso'. cbn.
    apply run_handlers_foreign; [|done].
    eapply forallb_subseteq; [apply remove_first_subseteq | done].
  - unfold SpinningButton.fire, bind, get. rewrite Hsn'. cbn.
    apply run_handlers_stop; [|apply elem_of_snoc].
    rewrite forallb_app. apply andb_true_iff. split; [|done].
    eapply forallb_subseteq; [apply remove_first_subseteq | done].
Qed.

End Rebinding.

(** [enable_button] is connected to the bound signal 1 once. *)
Lemma signal_1_bound_once :
  H_enable_button ∉ remove_first H_enable_button (slots signal_1_bound).
Proof.
  vm_compute. intros Hin.
  apply elem_of_cons in Hin as [Hin|Hin]; [discriminate | by apply elem_of_nil in Hin].
Defined.

(** The spinning button bound to signal 1 is rebound to signal 3. *)
Lemma rebinding_releases_the_old_signal_witness :
  _stop_signal (button store_spinning_bound) = Some 1%nat
  ∧ 1%nat ≠ 3%nat
  ∧ signals store_spinning_bound !! 1%nat = Some signal_1_bound
  ∧ deleted signal_1_bound = false
  ∧ signals store_spinning_bound !! 3%nat = Some signal_3
  ∧ deleted signal_3 = false
  ∧ forallb stops_or_foreign (slots signal_1_bound) = true
  ∧ forallb stops_or_foreign (slots signal_3) = true
  ∧ (H_enable_button ∉ remove_first H_enable_button (slots signal_1_bound))
  ∧ SpinningButton.fire 1%nat
      (SpinningButton.set_enable_signal (Some 3%nat) store_spinning_bound).2
    = (Returned tt,
       (SpinningButton.set_enable_signal (Some 3%nat) store_spinning_bound).2).
Proof.
  assert (Hold : _stop_signal (button store_spinning_bound) = Some 1%nat)
    by (vm_compute; reflexivity).
  assert (Hne : 1%nat ≠ 3%nat) by lia.
  assert (Hso : signals store_spinning_bound !! 1%nat = Some signal_1_bound)
    by (vm_compute; reflexivity).
  assert (Hsn : signals store_spinning_bound !! 3%nat = Some signal_3)
    by (vm_compute; reflexivity).
  repeat (split; [first [exact Hold | exact Hne | exact Hso | exact Hsn
                        | exact signal_1_bound_once | reflexivity]|]).
  exact (proj1 (proj2 (rebinding_releases_the_old_signal 1%nat 3%nat signal_1_bound
                         signal_3 store_spinning_bound Hold Hne Hso eq_refl Hsn eq_refl
                         eq_refl eq_refl signal_1_bound_once))).
Defined.

(** ** The states of the button *)

Section Coherence.

Context {S : Type} `{!SignalProtocol.Signal S}.

Lemma replay_app (b : bool) (n1 n2 : list Notification) :
  replay b (n1 ++ n2) = replay b n1 ≫= λ b', replay b' n2.
Proof.
  revert b. induction n1 as [|[] n1 IH]; intros b; [done| |];
    cbn [app replay]; destruct b; by rewrite ?IH.
Qed.

Lemma advances_refl (T : Z) (w : World S) : coherent T (button w) → advances T w w.
Proof. intros Hc. split; [done|]. exists []. by rewrite app_nil_r. Qed.

Lemma advances_trans (T : Z) (w1 w2 w3 : World S) :
  advances T w1 w2 → advances T w2 w3 → advances T w1 w3.
Proof.
  intros (_ & n1 & He1 & Hr1) (Hc & n2 & He2 & Hr2). split; [done|].
  exists (n1 ++ n2). split.
  - by rewrite He2, He1, <- app_assoc.
  - rewrite replay_app, Hr1. exact Hr2.
Qed.

(** A step that leaves the state and the notifications alone. *)
Lemma advances_silent (T : Z) (w w' : World S) :
  coherent T (button w') → _spinning (button w') = _spinning (button w) →
  emitted w' = emitted w → advances T w w'.
Proof.
  intros Hc Hs He. split; [done|]. exists []. rewrite app_nil_r. split; [done|].
  cbn. by rewrite Hs.
Qed.

Lemma steady_ret {A} (T : Z) (a : A) : steady (S:=S) T (ret a).
Proof. intros w Hc. by apply advances_refl. Qed.

Lemma steady_bind {A B} (T : Z) (m : Py S A) (k : A → Py S B) :
  steady T m → (∀ a, steady T (k a)) → steady T (bind m k).
Proof.
  intros Hm Hk w Hc. unfold bind. specialize (Hm w Hc).
  destruct (m w) as [[a| |] w']; cbn [snd] in *; [|done|done].
  eapply advances_trans; [exact Hm|]. apply Hk. by destruct Hm.
Qed.

Lemma steady_try_except {A} (T : Z) (m h : Py S A) (catches : PyException → bool) :
  steady T m → steady T h → steady T (try_except m catches h).
Proof.
  intros Hm Hh w Hc. unfold try_except. specialize (Hm w Hc).
  destruct (m w) as [[a|e|] w']; cbn [snd] in *; [done| |done].
  destruct (catches e); [|done].
  eapply advances_trans; [exact Hm|]. apply Hh. by destruct Hm.
Qed.

Lemma steady_start_spin (T : Z) : steady (S:=S) T SpinningButton.start_spin.
Proof.
  intros w ((Ht & Hs & Hr & Hr' & Hc & Hoff) & Hi & Hss & Ha & Hto & Hen & Hic).
  destruct_store w. cbn in Ht, Hs, Hr, Hr', Hc, Hoff, Hi, Hss, Ha, Hto, Hen, Hic. subst.
  unfold advances, coherent, wired. py_eval.
  destruct spin, dws; py_eval; destruct (0 <? T) eqn:HT; py_eval; rewrite ?HT;
    (split; [repeat split; try done; try (intros; apply Z.ltb_lt in HT; lia); eauto|]).
  all: first [ by (exists []; rewrite app_nil_r)
             | by (exists [signal_started_spinning]) ].
Qed.

Lemma steady_enable_button (T : Z) : steady (S:=S) T SpinningButton.enable_button.
Proof.
  intros w ((Ht & Hs & Hr & Hr' & Hc & Hoff) & Hi & Hss & Ha & Hto & Hen & Hic).
  destruct_store w. cbn in Ht, Hs, Hr, Hr', Hc, Hoff, Hi, Hss, Ha, Hto, Hen, Hic. subst.
  unfold advances, coherent, wired. py_eval.
  destruct spin, dws; py_eval; destruct (0 <? T) eqn:HT; py_eval; rewrite ?HT;
    (split; [by repeat split|]).
  all: first [ by (exists []; rewrite app_nil_r)
             | by (exists [signal_stopped_spinning]) ].
Qed.

Lemma steady_rotate_svg (T : Z) : steady (S:=S) T SpinningButton.rotate_svg.
Proof.
  intros w ((Ht & Hs & Hr & Hr' & Hc & Hoff) & Hi & Hss & Ha & Hto & Hen & Hic).
  destruct_store w. cbn in Ht, Hs, Hr, Hr', Hc, Hoff, Hi, Hss, Ha, Hto, Hen, Hic. subst.
  unfold advances, coherent, wired. py_eval.
  destruct spin; py_eval; (split; [repeat split; try done; eauto|]);
    exists []; by rewrite app_nil_r.
Qed.

Lemma steady_on_clicked (T : Z) : steady (S:=S) T SpinningButton.on_clicked.
Proof.
  unfold SpinningButton.on_clicked. apply steady_bind.
  - intros w Hc. by apply advances_refl.
  - intros en. destruct (negb en); [apply steady_ret | apply steady_start_spin].
Qed.

Lemma steady_run_handler (T : Z) (h : Handler) :
  steady (S:=S) T (SpinningButton.run_handler h).
Proof.
  destruct h; cbn [SpinningButton.run_handler];
    [apply steady_enable_button | apply steady_rotate_svg
    | apply steady_on_clicked | apply steady_ret].
Qed.

Lemma steady_run_handlers (T : Z) (hs : list Handler) :
  steady (S:=S) T (SpinningButton.run_handlers hs).
Proof.
  induction hs as [|h hs IH]; [apply steady_ret|].
  cbn [SpinningButton.run_handlers]. apply steady_bind; [apply steady_run_handler|done].
Qed.

Lemma coherent_stop_signal (T : Z) (b : SpinningButton) (v : option objid) :
  coherent T b → coherent T (with__stop_signal v b).
Proof. by destruct b. Qed.

Lemma steady_set_enable_signal (T : Z) (sig : option objid) :
  steady (S:=S) T (SpinningButton.set_enable_signal sig).
Proof.
  intros w Hc.
  destruct (set_enable_signal_frame sig w) as [Hb He].
  apply advances_silent; [| |done].
  - apply (preserves_set_enable_signal (coherent T)); [|done].
    intros b v. apply coherent_stop_signal.
  - apply (f_equal _spinning) in Hb.
    by destruct (button (SpinningButton.set_enable_signal sig w).2), (button w).
Qed.

Lemma steady_setIconSize (T : Z) (size : PyArg) :
  steady (S:=S) T (SpinningButton.setIconSize size).
Proof.
  intros w Hc. destruct size as [sz|]; [|by apply advances_refl].
  apply advances_silent; [|by destruct_store w|by destruct_store w].
  destruct_store w. exact Hc.
Qed.

Lemma steady_sizeHint (T : Z) (sizeHint_ : SpinningButton → QSize) :
  steady (S:=S) T (SpinningButton.sizeHint sizeHint_).
Proof. intros w Hc. by apply advances_refl. Qed.

Lemma steady_click (T : Z) : steady (S:=S) T SpinningButton.click.
Proof.
  unfold SpinningButton.click. apply steady_bind.
  - intros w Hc. by apply advances_refl.
  - intros b. destruct (enabled b); [apply steady_run_handlers | apply steady_ret].
Qed.

Lemma steady_fire (T : Z) (sig : objid) : steady (S:=S) T (SpinningButton.fire sig).
Proof.
  unfold SpinningButton.fire. apply steady_bind.
  - intros w Hc. by apply advances_refl.
  - intros w0. destruct (signals w0 !! sig); [apply steady_run_handlers | apply steady_ret].
Qed.

(** A millisecond of the animation timer: the timer repeats, so it goes
    on running when it fires. *)
Lemma steady_advance_timer (T : Z) : steady (S:=S) T SpinningButton.advance_timer.
Proof.
  intros w Hcoh.
  pose proof Hcoh as ((Ht & Hs & Hr & Hr' & Hc & Hoff) & Hi & Hss & Ha & Hto & Hen & Hic).
  unfold SpinningButton.advance_timer, bind, SpinningButton.self,
    SpinningButton.update_self, modify, SpinningButton.when; cbn [fst snd].
  set (w' := set_button _ w).
  assert (Hstep : advances T w w').
  { subst w'. apply advances_silent; [|by destruct_store w|by destruct_store w].
    clear Hcoh.
    destruct_store w. cbn in Ht, Hs, Hr, Hr', Hc, Hoff, Hi, Hss, Ha, Hto, Hen, Hic. subst.
    unfold coherent, wired. py_eval_loop.
    destruct spin; py_eval; [|by repeat split].
    destruct (tr <=? 1); by repeat split. }
  destruct (SpinningButton.QTimer_advance (timer (button w))).1; [|done].
  eapply advances_trans; [exact Hstep|]. apply steady_run_handlers. by destruct Hstep.
Qed.

(** A millisecond of the timeout timer: when it fires it stops, being
    single-shot, and [enable_button] runs. *)
Lemma steady_advance_timeout_timer (T : Z) :
  steady (S:=S) T SpinningButton.advance_timeout_timer.
Proof.
  intros w ((Ht & Hs & Hr & Hr' & Hc & Hoff) & Hi & Hss & Ha & Hto & Hen & Hic).
  destruct_store w. cbn in Ht, Hs, Hr, Hr', Hc, Hoff, Hi, Hss, Ha, Hto, Hen, Hic. subst.
  unfold advances, coherent, wired. py_eval_loop.
  destruct spin, (0 <? T) eqn:HT; py_eval;
    try (split; [by repeat split | exists []; by rewrite app_nil_r]).
  destruct (or <=? 1); py_eval;
    cbv [SpinningButton.run_handlers SpinningButton.run_handler]; py_eval; rewrite ?HT.
  - destruct dws; py_eval; (split; [by repeat split | by exists [signal_stopped_spinning]]).
  - split; [repeat split; try done; eauto | exists []; by rewrite app_nil_r].
Qed.

Lemma steady_run_op (T : Z) (sizeHint_ : SpinningButton → QSize) (o : SpinningButton.Op) :
  steady (S:=S) T (SpinningButton.run_op sizeHint_ o).
Proof.
  destruct o as [ | | | | |sig|sz| |sig|tf]; cbn [SpinningButton.run_op].
  - apply steady_start_spin.
  - apply steady_enable_button.
  - apply steady_rotate_svg.
  - apply steady_on_clicked.
  - apply steady_click.
  - apply steady_set_enable_signal.
  - apply steady_setIconSize.
  - apply steady_bind; [apply steady_sizeHint | intros _; apply steady_ret].
  - apply steady_fire.
  - unfold SpinningButton.elapse_ms.
    destruct tf; apply steady_bind;
      auto using steady_advance_timer, steady_advance_timeout_timer.
Qed.

Lemma steady_run_ops (T : Z) (sizeHint_ : SpinningButton → QSize)
    (os : list SpinningButton.Op) :
  steady (S:=S) T (SpinningButton.run_ops sizeHint_ os).
Proof.
  induction os as [|o os IH]; [apply steady_ret|].
  cbn [SpinningButton.run_ops]. apply steady_bind; [|done].
  apply steady_try_except; [apply steady_run_op | apply steady_ret].
Qed.

Lemma coherent_after_init (txt : string) (eic : QIcon) (dws : bool) (content : string)
    (T : Z) (stop : option objid) (b : SpinningButton) :
  b = mkSpinningButton txt true eic [H_on_clicked] dws content 0 (mkQSize 18 18) 3 T eic
        false stop (mkQTimer 100 false false 0 [H_rotate_svg])
        (mkQTimer 0 true false 0 [H_enable_button]) →
  coherent T b.
Proof. intros ->. by repeat split. Qed.

End Coherence.

Section CoherenceClaim.

Context {S : Type} `{!SignalProtocol.Signal S}.
Variable svg_isValid : string → bool.
Variable DEFAULT_SPINNER_SVG : string.
Variable QPushButton_sizeHint : SpinningButton → QSize.

(** X17 — the state of the button hangs together.  After a construction
    that succeeded and any sequence of operations on the button (its
    methods, clicks, the firing of signals, the passing of time): what
    [__init__] wired is in place; the animation timer runs exactly while
    the button spins, the timeout timer exactly while it spins with a
    positive timeout; the button is disabled exactly while it spins with
    [disable_while_spinning]; the icon is the enabled icon when idle and a
    spinner frame at the current angle when spinning; and the notifications
    emitted since the construction alternate, beginning with
    ["started spinning"], the last one telling the state. *)
Theorem button_state_coherent (txt : string) (sig : option objid) (eic : QIcon)
    (svgc : option string) (T : Z) (dws : bool) (os : list SpinningButton.Op)
    (w : World S) :
  let built :=
    SpinningButton.init svg_isValid DEFAULT_SPINNER_SVG txt sig eic svgc T dws w in
  built.1 = Returned tt →
  let now := (SpinningButton.run_ops QPushButton_sizeHint os built.2).2 in
  coherent T (button now)
  ∧ ∃ new, emitted now = emitted w ++ new
           ∧ replay false new = Some (_spinning (button now)).
Proof.
  intros built Hret now.
  destruct (init_spec _ _ _ _ _ _ _ _ _ Hret) as (content & stop & Hb & He).
  fold built in Hb, He.
  assert (Hc : coherent T (button built.2)) by (by eapply coherent_after_init).
  destruct (steady_run_ops T QPushButton_sizeHint os built.2 Hc) as (Hnow & new & Hem & Hre).
  split; [exact Hnow|]. exists new. rewrite <- He. split; [exact Hem|].
  rewrite Hb in Hre. exact Hre.
Qed.

End CoherenceClaim.

(** A button built with a timeout of two seconds, after one spin. *)
Lemma button_state_coherent_witness :
  (build_two_seconds (empty_store two_signals)).1 = Returned tt
  ∧ coherent 2
      (button (SpinningButton.run_ops base_hint one_cycle
                 (build_two_seconds (empty_store two_signals)).2).2).
Proof.
  assert (Hbuilt : (build_two_seconds (empty_store two_signals)).1 = Returned tt)
    by (vm_compute; reflexivity).
  split; [exact Hbuilt|].
  exact (proj1 (button_state_coherent svg_always_valid spinner_svg base_hint
                  "go" None (Icon_handle 5%nat) None 2 true one_cycle
                  (empty_store two_signals) Hbuilt)).
Defined.

(** ** The animation and the timeout *)

Section Animation.

Context {S : Type} `{!SignalProtocol.Signal S}.

Lemma tick_arith (t : Z) :
  0 ≤ t →
  (t mod 100 = 99 ∧ (t + 1) mod 100 = 0 ∧ (t + 1) / 100 = t / 100 + 1)
  ∨ (t mod 100 < 99 ∧ (t + 1) mod 100 = t mod 100 + 1 ∧ (t + 1) / 100 = t / 100).
Proof. intros Ht. Z.div_mod_to_equations. lia. Qed.

(** One millisecond of a running animation, the timeout being further
    away: the animation timer counts down, and when its 100 ms are up it
    is rearmed and [rotate_svg] turns the spinner by 10 degrees. *)
Lemma elapse_ms_animating (tf : bool) (t n : Z) (size : QSize) (w : World S) :
  0 ≤ t → 1 ≤ n →
  animating t size (button w) → far_from_timeout n (button w) →
  animating (t + 1) size (button (SpinningButton.elapse_ms tf w).2)
  ∧ far_from_timeout (n - 1) (button (SpinningButton.elapse_ms tf w).2)
  ∧ emitted (SpinningButton.elapse_ms tf w).2 = emitted w.
Proof.
  intros Ht Hn (Hspin & Htm & Hang & Hic & Hsz) Hfar.
  pose proof (Z.mod_pos_bound t 100 ltac:(lia)) as Hm.
  unfold animating, far_from_timeout in *.
  destruct (tick_arith t Ht) as [(Hm99 & -> & ->)|(Hlt & -> & ->)].
  - destruct_store w. cbn in Hspin, Htm, Hang, Hic, Hsz, Hfar.
    rewrite Hm99 in Htm. injection Htm as -> -> -> -> ->. subst.
    assert (Hrot : ((10 * (t / 100)) mod 360 + 10) mod 360 = (10 * (t / 100 + 1)) mod 360).
    { rewrite Zplus_mod_idemp_l. f_equal. lia. }
    destruct tf, oa; py_eval_loop;
      cbv [SpinningButton.run_handlers SpinningButton.run_handler]; py_eval;
      try (specialize (Hfar eq_refl)); leb_cases; py_eval; rewrite ?Hrot;
      repeat split; try done; intros; lia.
  - destruct_store w. cbn in Hspin, Htm, Hang, Hic, Hsz, Hfar.
    injection Htm as -> -> -> -> ->. subst.
    destruct tf, oa; py_eval_loop;
      try (specialize (Hfar eq_refl)); leb_cases; py_eval;
      repeat split; try done; try (intros; lia); f_equal; lia.
Qed.

Lemma elapse_animating (tf : bool) (size : QSize) (ms : nat) :
  ∀ (t : Z) (w : World S),
    0 ≤ t → animating t size (button w) → far_from_timeout (Z.of_nat ms) (button w) →
    animating (t + Z.of_nat ms) size (button (SpinningButton.elapse tf ms w).2)
    ∧ emitted (SpinningButton.elapse tf ms w).2 = emitted w.
Proof.
  induction ms as [|ms IH]; intros t w Ht Han Hfar.
  - cbn [SpinningButton.elapse]. unfold ret; cbn. by rewrite Z.add_0_r.
  - rewrite elapse_unfold.
    destruct (elapse_ms_animating tf t (Z.of_nat (Datatypes.S ms)) size w)
      as (Han' & Hfar' & Hem); [lia|lia|done|done|].
    replace (Z.of_nat (Datatypes.S ms) - 1) with (Z.of_nat ms) in Hfar' by lia.
    destruct (IH (t + 1) _ ltac:(lia) Han' Hfar') as [Han'' Hem'].
    split; [|congruence].
    by replace (t + Z.of_nat (Datatypes.S ms)) with (t + 1 + Z.of_nat ms) by lia.
Qed.

(** [start_spin] on an idle coherent button starts the animation, and the
    timeout, if any, is [T * 1000] milliseconds away. *)
Lemma start_spin_animating (T n : Z) (w : World S) :
  coherent T (button w) → _spinning (button w) = false →
  T ≤ 0 ∨ n < T * 1000 →
  let r := SpinningButton.start_spin w in
  animating 0 (_icon_size (button w)) (button r.2)
  ∧ far_from_timeout n (button r.2)
  ∧ emitted r.2 = emitted w ++ [signal_started_spinning].
Proof.
  intros ((Ht & Hs & Hr & Hr' & Hc & Hoff) & Hi & Hss & Ha & Hto & Hen & Hic) Hidle HT.
  destruct_store w. cbn in Ht, Hs, Hr, Hr', Hc, Hoff, Hi, Hss, Ha, Hto, Hen, Hic, Hidle. subst.
  unfold animating, far_from_timeout. py_eval.
  destruct dws; py_eval; leb_cases; py_eval; repeat split; try done; intros; lia.
Qed.

End Animation.

Section AnimationClaim.

Context {S : Type} `{!SignalProtocol.Signal S}.
Variable svg_isValid : string → bool.
Variable DEFAULT_SPINNER_SVG : string.
Variable QPushButton_sizeHint : SpinningButton → QSize.

(** X18 — the spinner turns by 10 degrees every 100 ms: [ms] milliseconds
    after [start_spin] on an idle button, before the timeout or without
    one, the button is spinning, the rotation angle is [10 * (ms / 100)]
    modulo 360 (a full turn takes 3.6 s), the icon is the spinner at that
    angle in the icon size of the button, and nothing has been emitted but
    ["started spinning"]. *)
Theorem spinner_turns_every_100_ms (txt : string) (sig : option objid) (eic : QIcon)
    (svgc : option string) (T : Z) (dws : bool) (timeout_first : bool) (ms : nat)
    (before : list SpinningButton.Op) (w : World S) :
  let built :=
    SpinningButton.init svg_isValid DEFAULT_SPINNER_SVG txt sig eic svgc T dws w in
  built.1 = Returned tt →
  let idle := (SpinningButton.run_ops QPushButton_sizeHint before built.2).2 in
  _spinning (button idle) = false →
  T ≤ 0 ∨ Z.of_nat ms < T * 1000 →
  let started := (SpinningButton.start_spin idle).2 in
  let later := (SpinningButton.elapse timeout_first ms started).2 in
  _spinning (button later) = true
  ∧ rotation_angle (button later) = (10 * (Z.of_nat ms / 100)) mod 360
  ∧ icon (button later)
    = Icon_spinner ((10 * (Z.of_nat ms / 100)) mod 360) (_icon_size (button idle))
  ∧ emitted later = emitted idle ++ [signal_started_spinning].
Proof.
  intros built Hret idle Hidle HT started later.
  destruct (init_spec _ _ _ _ _ _ _ _ _ Hret) as (content & stop & Hb & _).
  fold built in Hb.
  assert (Hc : coherent T (button built.2)) by (by eapply coherent_after_init).
  destruct (steady_run_ops T QPushButton_sizeHint before built.2 Hc) as (Hcoh & _).
  fold idle in Hcoh.
  destruct (start_spin_animating T (Z.of_nat ms) idle Hcoh Hidle HT) as (Han & Hfar & Hem).
  fold started in Han, Hfar, Hem.
  destruct (elapse_animating timeout_first _ ms 0 started ltac:(lia) Han Hfar)
    as ((Hspin & _ & Hang & Hic & _) & Hem').
  fold later in Hspin, Hang, Hic, Hem'. rewrite Z.add_0_l in Hang, Hic.
  repeat split; try done. by rewrite Hem', Hem.
Qed.

End AnimationClaim.

(** A quarter of a second into the second spin: two ticks. *)
Lemma spinner_turns_every_100_ms_witness :
  (build_two_seconds (empty_store two_signals)).1 = Returned tt
  ∧ _spinning (button (SpinningButton.run_ops base_hint one_cycle
                         (build_two_seconds (empty_store two_signals)).2).2) = false
  ∧ (2 ≤ 0 ∨ Z.of_nat 250 < 2 * 1000)
  ∧ rotation_angle
      (button
         (SpinningButton.elapse true 250
            (SpinningButton.start_spin
               (SpinningButton.run_ops base_hint one_cycle
                  (build_two_seconds (empty_store two_signals)).2).2).2).2)
    = (10 * (Z.of_nat 250 / 100)) mod 360.
Proof.
  assert (Hbuilt : (build_two_seconds (empty_store two_signals)).1 = Returned tt)
    by (vm_compute; reflexivity).
  assert (Hidle : _spinning (button (SpinningButton.run_ops base_hint one_cycle
                     (build_two_seconds (empty_store two_signals)).2).2) = false)
    by (vm_compute; reflexivity).
  assert (HT : 2 ≤ 0 ∨ Z.of_nat 250 < 2 * 1000) by (right; lia).
  split; [exact Hbuilt|]. split; [exact Hidle|]. split; [exact HT|].
  exact (proj1 (proj2 (spinner_turns_every_100_ms svg_always_valid spinner_svg base_hint
                         "go" None (Icon_handle 5%nat) None 2 true true 250 one_cycle
                         (empty_store two_signals) Hbuilt Hidle HT))).
Defined.

Section Respin.

Context {S : Type} `{!SignalProtocol.Signal S}.

(** [start_spin] on a button that spins towards its timeout leaves the
    timeout timer alone and emits nothing. *)
Lemma start_spin_spins_until (T left : Z) (w : World S) :
  spins_until T left (button w) →
  spins_until T left (button (SpinningButton.start_spin w).2)
  ∧ emitted (SpinningButton.start_spin w).2 = emitted w.
Proof.
  intros (Hspin & Hto & Hrec).
  destruct_store w. cbn in Hspin, Hto, Hrec. injection Hto as -> -> -> -> ->. subst.
  unfold spins_until. py_eval.
  destruct ta, (0 <? tmo); py_eval; by repeat split.
Qed.

Lemma repeat_start_spin_spins_until (T left : Z) (n : nat) :
  ∀ w : World S,
    spins_until T left (button w) →
    spins_until T left
      (button (SpinningButton.repeat_call n SpinningButton.start_spin w).2)
    ∧ emitted (SpinningButton.repeat_call n SpinningButton.start_spin w).2 = emitted w.
Proof.
  induction n as [|n IH]; intros w Hsp; [done|].
  rewrite repeat_call_unfold by apply start_spin_returns.
  destruct (start_spin_spins_until T left w Hsp) as [Hsp' Hem].
  destruct (IH _ Hsp') as [Hsp'' Hem']. split; [done | congruence].
Qed.

End Respin.

Section RespinClaim.

Context {S : Type} `{!SignalProtocol.Signal S}.
Variable svg_isValid : string → bool.
Variable DEFAULT_SPINNER_SVG : string.
Variable QPushButton_sizeHint : SpinningButton → QSize.

(** X19 — calling [start_spin] again does not put the timeout off: on a
    button that has been spinning for [ms1] milliseconds of a positive
    timeout, any number of further [start_spin] calls leave the timeout
    timer as it is and emit nothing, and [ms2] milliseconds later the
    button is spinning exactly when [ms1 + ms2] is below [T * 1000]; at
    the timeout ["stopped spinning"] is emitted once. *)
Theorem start_spin_does_not_extend_the_timeout (txt : string) (sig : option objid)
    (eic : QIcon) (svgc : option string) (T : Z) (dws : bool) (timeout_first : bool)
    (ms1 ms2 n : nat) (before : list SpinningButton.Op) (w : World S) :
  let built :=
    SpinningButton.init svg_isValid DEFAULT_SPINNER_SVG txt sig eic svgc T dws w in
  built.1 = Returned tt →
  let idle := (SpinningButton.run_ops QPushButton_sizeHint before built.2).2 in
  _spinning (button idle) = false →
  Z.of_nat ms1 < T * 1000 →
  let started := (SpinningButton.start_spin idle).2 in
  let midway := (SpinningButton.elapse timeout_first ms1 started).2 in
  let again := (SpinningButton.repeat_call n SpinningButton.start_spin midway).2 in
  let later := (SpinningButton.elapse timeout_first ms2 again).2 in
  timeout_timer (button again) = timeout_timer (button midway)
  ∧ emitted again = emitted started
  ∧ _spinning (button later) = bool_decide (Z.of_nat ms1 + Z.of_nat ms2 < T * 1000)
  ∧ emitted later
    = emitted started
      ++ (if bool_decide (Z.of_nat ms1 + Z.of_nat ms2 < T * 1000) then []
          else [signal_stopped_spinning]).
Proof.
  intros built Hret idle Hidle Hms1 started midway again later.
  destruct (init_spec _ _ _ _ _ _ _ _ _ Hret) as (content & stop & Hb & _).
  fold built in Hb.
  assert (Hwired : wired T (button idle)).
  { apply (preserves_run_ops (wired T) QPushButton_sizeHint (λ _, true)).
    - intros o _. apply wired_run_op.
    - by apply Forall_forall.
    - by eapply wired_after_init. }
  assert (HT : 0 < T) by lia.
  destruct (start_spin_when_wired T idle Hwired Hidle) as (_ & _ & Hcase).
  fold started in Hcase. rewrite (proj2 (Z.ltb_lt 0 T) HT) in Hcase.
  destruct (elapse_before_timeout timeout_first T ms1 _ _ Hcase Hms1) as [Hmid Hem1].
  fold midway in Hmid, Hem1.
  destruct (repeat_start_spin_spins_until T _ n midway Hmid) as [Hagain Hem2].
  fold again in Hagain, Hem2.
  split. { destruct Hagain as (_ & -> & _). by destruct Hmid as (_ & -> & _). }
  split; [congruence|].
  subst later. case_bool_decide as Hms.
  - destruct (elapse_before_timeout timeout_first T ms2 _ _ Hagain) as [(Hs & _) He];
      [lia|].
    split; [exact Hs|]. rewrite He, app_nil_r. congruence.
  - destruct (elapse_after_timeout timeout_first T ms2 _ again Hagain) as [(Hs & _) He];
      [lia|].
    split; [exact Hs|]. rewrite He. congruence.
Qed.

End RespinClaim.

(** Three more calls half a second into a spin of two seconds. *)
Lemma start_spin_does_not_extend_the_timeout_witness :
  (build_two_seconds (empty_store two_signals)).1 = Returned tt
  ∧ _spinning (button (SpinningButton.run_ops base_hint one_cycle
                         (build_two_seconds (empty_store two_signals)).2).2) = false
  ∧ Z.of_nat 500 < 2 * 1000
  ∧ _spinning
      (button
         (SpinningButton.elapse true 1499
            (SpinningButton.repeat_call 3 SpinningButton.start_spin
               (SpinningButton.elapse true 500
                  (SpinningButton.start_spin
                     (SpinningButton.run_ops base_hint one_cycle
                        (build_two_seconds (empty_store two_signals)).2).2).2).2).2).2)
    = bool_decide (Z.of_nat 500 + Z.of_nat 1499 < 2 * 1000).
Proof.
  assert (Hbuilt : (build_two_seconds (empty_store two_signals)).1 = Returned tt)
    by (vm_compute; reflexivity).
  assert (Hidle : _spinning (button (SpinningButton.run_ops base_hint one_cycle
                     (build_two_seconds (empty_store two_signals)).2).2) = false)
    by (vm_compute; reflexivity).
  assert (Hms : Z.of_nat 500 < 2 * 1000) by lia.
  split; [exact Hbuilt|]. split; [exact Hidle|]. split; [exact Hms|].
  exact (proj1 (proj2 (proj2 (start_spin_does_not_extend_the_timeout svg_always_valid
                                spinner_svg base_hint "go" None (Icon_handle 5%nat) None 2
                                true true 500 1499 3 one_cycle (empty_store two_signals)
                                Hbuilt Hidle Hms)))).
Defined.

Section StoppedClock.

Context {S : Type} `{!SignalProtocol.Signal S}.

(** With both timers stopped a millisecond changes nothing. *)
Lemma elapse_ms_stopped (tf : bool) (w : World S) :
  isActive (timer (button w)) = false → isActive (timeout_timer (button w)) = false →
  SpinningButton.elapse_ms tf w = (Returned tt, w).
Proof.
  intros Ht Hto. destruct_store w. cbn in Ht, Hto. subst.
  destruct tf; py_eval_loop; reflexivity.
Qed.

Lemma elapse_stopped (tf : bool) (ms : nat) (w : World S) :
  isActive (timer (button w)) = false → isActive (timeout_timer (button w)) = false →
  SpinningButton.elapse tf ms w = (Returned tt, w).
Proof.
  intros Ht Hto. induction ms as [|ms IH]; [done|].
  rewrite elapse_unfold, elapse_ms_stopped by done. exact IH.
Qed.

(** X20 — [enable_button] cancels the timers: after it, in whatever state
    it was called, no passing of time changes the store or emits anything,
    so a timeout that was pending never fires; and the same holds of any
    button whose two timers are stopped. *)
Theorem enable_button_cancels_the_timers (tf : bool) (ms : nat) (w : World S) :
  let stopped := (SpinningButton.enable_button w).2 in
  SpinningButton.elapse tf ms stopped = (Returned tt, stopped)
  ∧ (isActive (timer (button w)) = false →
     isActive (timeout_timer (button w)) = false →
     SpinningButton.elapse tf ms w = (Returned tt, w)).
Proof.
  split; [|apply elapse_stopped].
  apply elapse_stopped; destruct_store w; py_eval; by py_cases.
Qed.

End StoppedClock.

(** ** The size hint *)

Section Geometry.

Context {S : Type} `{!SignalProtocol.Signal S}.

Lemma set_enable_signal_returns (sig : option objid) (w : World S) :
  (SpinningButton.set_enable_signal sig w).1 = Returned tt.
Proof.
  unfold SpinningButton.set_enable_signal.
  unfold bind at 1, SpinningButton.self at 1. unfold bind at 1.
  destruct (unbind_spec w) as (Hr1 & _). cbn zeta in Hr1.
  destruct ((match _stop_signal (button w) with
             | Some old => SpinningButton._disconnect_signal old H_enable_button
             | None => ret tt
             end) w) as [o1 w1]; cbn [fst] in Hr1. subst o1.
  unfold bind at 1, SpinningButton.update_self at 1, modify at 1.
  destruct sig as [new|]; [|done].
  unfold bind at 1, SpinningButton.update_self at 1, modify at 1.
  set (w3 := set_button _ (set_button _ w1)).
  unfold bind at 1.
  destruct (_disconnect_signal_spec new H_enable_button w3) as (Hr4 & _).
  destruct (SpinningButton._disconnect_signal new H_enable_button w3) as [o4 w4].
  cbn [fst] in Hr4. subst o4.
  unfold try_except.
  pose proof (call_connect_frame new H_enable_button w4) as (_ & _ & _ & _ & _ & Hf).
  destruct (call_connect new H_enable_button w4) as [[[]|e|] w5]; cbn [fst] in Hf; done.
Qed.

(** The operations return; [setIconSize] alone can raise, and the caller
    of a sequence goes on after it. *)
Lemma run_op_settles (sizeHint_ : SpinningButton → QSize) (o : SpinningButton.Op)
    (w : World S) :
  (try_except (SpinningButton.run_op sizeHint_ o) is_Exception (ret tt) w).1 = Returned tt.
Proof.
  assert (Hret : ∀ m : Py S unit, (m w).1 = Returned tt →
            (try_except m is_Exception (ret tt) w).1 = Returned tt).
  { intros m Hm. unfold try_except. destruct (m w) as [[[]| |] w']; done. }
  destruct o as [ | | | | |sig|sz| |sig|tf]; cbn [SpinningButton.run_op].
  - apply Hret, start_spin_returns.
  - apply Hret, enable_button_returns.
  - apply Hret, rotate_svg_returns.
  - apply Hret, on_clicked_returns.
  - apply Hret. unfold SpinningButton.click, bind, SpinningButton.self.
    destruct (enabled (button w)); [apply run_handlers_returns | done].
  - apply Hret, set_enable_signal_returns.
  - by destruct sz.
  - by apply Hret.
  - apply Hret. unfold SpinningButton.fire, bind, get.
    destruct (signals w !! sig); [apply run_handlers_returns | done].
  - apply Hret, elapse_ms_returns.
Qed.

Lemma run_ops_unfold (sizeHint_ : SpinningButton → QSize) (o : SpinningButton.Op)
    (os : list SpinningButton.Op) (w : World S) :
  SpinningButton.run_ops sizeHint_ (o :: os) w =
  SpinningButton.run_ops sizeHint_ os
    (try_except (SpinningButton.run_op sizeHint_ o) is_Exception (ret tt) w).2.
Proof.
  cbn [SpinningButton.run_ops]. unfold bind.
  pose proof (run_op_settles sizeHint_ o w) as Hr.
  destruct (try_except (SpinningButton.run_op sizeHint_ o) is_Exception (ret tt) w)
    as [[[]| |] w']; done.
Qed.

Lemma geometry_run_handlers (size : QSize) (hs : list Handler) :
  preserves (S:=S) (geometry size) (SpinningButton.run_handlers hs).
Proof.
  apply preserves_run_handlers. intros h _.
  destruct h; cbn [SpinningButton.run_handler]; [| | |apply preserves_ret];
    intros w [Hsz Hpad]; destruct_store w; cbn in Hsz, Hpad; subst;
    unfold geometry; py_eval; py_cases; by py_eval.
Qed.

Lemma geometry_advance_timer (size : QSize) :
  preserves (S:=S) (geometry size) SpinningButton.advance_timer.
Proof.
  intros w Hg.
  unfold SpinningButton.advance_timer, bind, SpinningButton.self,
    SpinningButton.update_self, modify, SpinningButton.when; cbn [fst snd].
  set (w' := set_button _ w).
  assert (Hg' : geometry size (button w')) by (subst w'; by destruct_store w).
  destruct (SpinningButton.QTimer_advance (timer (button w))).1; [|done].
  by apply geometry_run_handlers.
Qed.

Lemma geometry_advance_timeout_timer (size : QSize) :
  preserves (S:=S) (geometry size) SpinningButton.advance_timeout_timer.
Proof.
  intros w Hg.
  unfold SpinningButton.advance_timeout_timer, bind, SpinningButton.self,
    SpinningButton.update_self, modify, SpinningButton.when; cbn [fst snd].
  set (w' := set_button _ w).
  assert (Hg' : geometry size (button w')) by (subst w'; by destruct_store w).
  destruct (SpinningButton.QTimer_advance (timeout_timer (button w))).1; [|done].
  by apply geometry_run_handlers.
Qed.

(** Only [setIconSize] changes the geometry, and only the icon size. *)
Lemma geometry_run_op (sizeHint_ : SpinningButton → QSize) (o : SpinningButton.Op)
    (size : QSize) (w : World S) :
  geometry size (button w) →
  geometry (icon_size_after [o] size)
    (button (try_except (SpinningButton.run_op sizeHint_ o) is_Exception (ret tt) w).2).
Proof.
  assert (Hkeep : ∀ m : Py S unit, preserves (geometry size) m →
            geometry size (button w) →
            geometry size (button (try_except m is_Exception (ret tt) w).2)).
  { intros m Hm Hg.
    apply (preserves_try_except (geometry size) m (ret tt) is_Exception); try done.
    apply preserves_ret. }
  destruct o as [ | | | | |sig|sz| |sig|tf];
    cbn [SpinningButton.run_op icon_size_after].
  - apply Hkeep. intros v [Hsz Hpad]. destruct_store v. cbn in Hsz, Hpad. subst.
    unfold geometry. py_eval. py_cases; by py_eval.
  - apply Hkeep. intros v [Hsz Hpad]. destruct_store v. cbn in Hsz, Hpad. subst.
    unfold geometry. py_eval. py_cases; by py_eval.
  - apply Hkeep. intros v [Hsz Hpad]. destruct_store v. cbn in Hsz, Hpad. subst.
    unfold geometry. py_eval. py_cases; by py_eval.
  - apply Hkeep. intros v [Hsz Hpad]. destruct_store v. cbn in Hsz, Hpad. subst.
    unfold geometry. py_eval. py_cases; by py_eval.
  - apply Hkeep. unfold SpinningButton.click. apply preserves_bind; [by intros v|].
    intros b. destruct (enabled b); [apply geometry_run_handlers | apply preserves_ret].
  - apply Hkeep. apply preserves_set_enable_signal. intros b v. by destruct b.
  - destruct sz as [sz|]; cbn [SpinningButton.setIconSize]; intros [Hsz Hpad].
    + destruct_store w. cbn in Hsz, Hpad. subst. by unfold geometry.
    + by split.
  - apply Hkeep. by intros v.
  - apply Hkeep. unfold SpinningButton.fire. apply preserves_bind; [by intros v|].
    intros w0. destruct (signals w0 !! sig);
      [apply geometry_run_handlers | apply preserves_ret].
  - apply Hkeep. unfold SpinningButton.elapse_ms.
    destruct tf; apply preserves_bind;
      auto using geometry_advance_timer, geometry_advance_timeout_timer.
Qed.

Lemma icon_size_after_cons (o : SpinningButton.Op) (os : list SpinningButton.Op)
    (size : QSize) :
  icon_size_after (o :: os) size = icon_size_after os (icon_size_after [o] size).
Proof. destruct o as [ | | | | | |[]| | | ]; reflexivity. Qed.

Lemma geometry_run_ops (sizeHint_ : SpinningButton → QSize) (os : list SpinningButton.Op) :
  ∀ (size : QSize) (w : World S),
    geometry size (button w) →
    geometry (icon_size_after os size) (button (SpinningButton.run_ops sizeHint_ os w).2).
Proof.
  induction os as [|o os IH]; intros size w Hg; [done|].
  rewrite run_ops_unfold, icon_size_after_cons. apply IH. by apply geometry_run_op.
Qed.

End Geometry.

Section GeometryClaim.

Context {S : Type} `{!SignalProtocol.Signal S}.
Variable svg_isValid : string → bool.
Variable DEFAULT_SPINNER_SVG : string.
Variable QPushButton_sizeHint : SpinningButton → QSize.

(** X21 — the size hint follows the icon size: after a construction that
    succeeded and any sequence of operations, the padding is still 3 and
    the icon size is the one set by the last [setIconSize] that was given
    a size, 18 x 18 when there was none; [iconSize] returns it, and
    [sizeHint] returns the base width plus the icon width plus 6 and the
    larger of the base height and the icon height, changing nothing. *)
Theorem sizeHint_follows_icon_size (txt : string) (sig : option objid) (eic : QIcon)
    (svgc : option string) (T : Z) (dws : bool) (os : list SpinningButton.Op)
    (w : World S) :
  let built :=
    SpinningButton.init svg_isValid DEFAULT_SPINNER_SVG txt sig eic svgc T dws w in
  built.1 = Returned tt →
  let now := (SpinningButton.run_ops QPushButton_sizeHint os built.2).2 in
  let size := icon_size_after os (mkQSize 18 18) in
  SpinningButton.iconSize now = (Returned size, now)
  ∧ SpinningButton.sizeHint QPushButton_sizeHint now
    = (Returned (mkQSize (width (QPushButton_sizeHint (button now)) + width size + 6)
                         (Z.max (height (QPushButton_sizeHint (button now))) (height size))),
       now).
Proof.
  intros built Hret now size.
  destruct (init_spec _ _ _ _ _ _ _ _ _ Hret) as (content & stop & Hb & _).
  fold built in Hb.
  assert (Hg : geometry (mkQSize 18 18) (button built.2)) by (by rewrite Hb).
  destruct (geometry_run_ops QPushButton_sizeHint os _ _ Hg) as [Hsz Hpad].
  fold now in Hsz, Hpad. fold size in Hsz.
  unfold SpinningButton.iconSize, SpinningButton.sizeHint, bind, SpinningButton.self, ret.
  by rewrite Hsz, Hpad.
Qed.

End GeometryClaim.

(** An icon size of 24 x 24 on a base hint of 80 x 24. *)
Lemma sizeHint_follows_icon_size_witness :
  (build_two_seconds (empty_store two_signals)).1 = Returned tt
  ∧ (SpinningButton.sizeHint base_hint
       (SpinningButton.run_ops base_hint resize_ops
          (build_two_seconds (empty_store two_signals)).2).2).1
    = Returned (mkQSize (80 + 24 + 6) (Z.max 24 24)).
Proof.
  assert (Hbuilt : (build_two_seconds (empty_store two_signals)).1 = Returned tt)
    by (vm_compute; reflexivity).
  split; [exact Hbuilt|].
  exact (f_equal fst (proj2 (sizeHint_follows_icon_size svg_always_valid spinner_svg
                               base_hint "go" None (Icon_handle 5%nat) None 2 true
                               resize_ops (empty_store two_signals) Hbuilt))).
Defined.

(** ** Resource paths on a POSIX system *)

Section ResourceFacts.

Lemma append_nonempty (s r : string) : r ≠ EmptyString → (s ++ r)%string ≠ EmptyString.
Proof. intros Hr. destruct s; [done | discriminate]. Qed.

Lemma endswith_sep_app (s r : string) :
  r ≠ EmptyString → os_path.endswith_sep (s ++ r) = os_path.endswith_sep r.
Proof.
  intros Hr. induction s as [|c s IH]; [done|].
  change (String c s ++ r)%string with (String c (s ++ r)).
  pose proof (append_nonempty s r Hr) as Hne.
  destruct (s ++ r)%string eqn:Happ; [done|]. by rewrite <- IH.
Qed.

Lemma join_app (a : string) (p q : list string) :
  os_path.join a (p ++ q) = os_path.join (os_path.join a p) q.
Proof. unfold os_path.join. apply fold_left_app. Qed.

Lemma join_icons (a : string) :
  os_path.join a ["icons"%string]
  = (if String.eqb a EmptyString || os_path.endswith_sep a
     then (a ++ "icons")%string else (a ++ "/icons")%string).
Proof.
  unfold os_path.join. cbn [fold_left].
  change (os_path.startswith_sep "icons") with false. cbv iota.
  by destruct (String.eqb a EmptyString || os_path.endswith_sep a).
Qed.

End ResourceFacts.

(** X22 — [icon_path] on a POSIX system: a relative base name lands under
    the [icons] directory of the package, [<pkg_dir>/icons/<name>]; a base
    name that starts with ["/"] is returned as it is, since [os.path.join]
    discards what precedes an absolute component, as [resource_path] does
    for any of its parts; and [resource_path] without parts is the package
    directory. *)
Theorem icon_path_stays_or_escapes (pkg_dir : string) (parts rest : list string)
    (icon_basename : string) :
  icon_path pkg_dir icon_basename
  = (if os_path.startswith_sep icon_basename then icon_basename
     else (resource_path pkg_dir ["icons"%string] ++ "/" ++ icon_basename)%string)
  ∧ resource_path pkg_dir ["icons"%string]
    = (if String.eqb pkg_dir EmptyString || os_path.endswith_sep pkg_dir
       then (pkg_dir ++ "icons")%string else (pkg_dir ++ "/icons")%string)
  ∧ resource_path pkg_dir [] = pkg_dir
  ∧ (os_path.startswith_sep icon_basename = true →
     resource_path pkg_dir (parts ++ icon_basename :: rest)
     = os_path.join icon_basename rest).
Proof.
  split; [|split; [|split; [reflexivity|]]].
  - unfold icon_path, resource_path.
    change ["icons"%string; icon_basename] with (["icons"%string] ++ [icon_basename]).
    rewrite join_app. set (d := os_path.join pkg_dir ["icons"%string]).
    assert (Hd : String.eqb d EmptyString || os_path.endswith_sep d = false).
    { subst d. rewrite join_icons.
      destruct (String.eqb pkg_dir EmptyString || os_path.endswith_sep pkg_dir);
        rewrite endswith_sep_app by done; (apply orb_false_iff; split; [|done]);
        apply String.eqb_neq; by apply append_nonempty. }
    unfold os_path.join at 1. cbn [fold_left]. rewrite Hd.
    by destruct (os_path.startswith_sep icon_basename).
  - apply join_icons.
  - intros Habs. unfold resource_path.
    change (icon_basename :: rest) with ([icon_basename] ++ rest).
    rewrite app_assoc, join_app. f_equal. rewrite join_app.
    unfold os_path.join at 1. cbn [fold_left]. by rewrite Habs.
Qed.
